(** * Bluebella end-to-end suite: wait policy, lazy-scroll product locator,
      test-data helpers and sign-in check.

    A shallow embedding of
    - [utils/waits.py]        (class [WaitUtils]),
    - [utils/helpers.py]      ([load_test_data], [validate_test_data],
                               [scroll_to_element], [wait_for_page_load],
                               [safe_find_element], [get_screenshot_path]),
    - [pageobjects/base_page.py], [pageobjects/login.py],
      [pageobjects/productpage.py], [pageobjects/homepage.py],
    - [pageobjects/collectionpage.py] ([find_product_by_name],
                               [find_and_click_product], [sort_by_text]),
    - [pageobjects/checkoutpage.py] ([select_postal_code_option]),
    - [conftest.py]           (the browser arguments),
    - [test_bluebella.py]     (the validation gate of the scenario).

    The browser is an external collaborator.  It is modelled as an
    arbitrary state machine ([Driver]) answering each request the code
    sends, possibly with an exception; every request and its answer is
    recorded in a trace, so that statements about "which driver calls were
    made, and in which order" are statements about that trace. *)

From Stdlib Require Import ZArith Lia Bool Ascii.
From stdpp Require Import base option list strings gmap.

Local Open Scope Z_scope.

(** ** Exceptions *)

(** The exception classes the code names, [WebDriverException] for any
    other failure a Selenium call may report (invalid selector, click
    intercepted, lost session, ...), and [AttributeError] and [TypeError],
    which Python raises on a value that lacks a method or a length.  All
    of them are instances of Python's [Exception]. *)
Inductive exn : Type :=
| NoSuchElementException
| StaleElementReferenceException
| TimeoutException
| WebDriverException
| AssertionError
| FileNotFoundError
| JSONDecodeError
| AttributeError
| TypeError.

#[global] Instance exn_eq_dec : EqDecision exn.
Proof. solve_decision. Defined.

Inductive res (A : Type) : Type :=
| Ok (a : A)
| Raise (e : exn).
Arguments Ok {A} a.
Arguments Raise {A} e.

Definition res_map {A B} (f : A -> B) (r : res A) : res B :=
  match r with Ok a => Ok (f a) | Raise e => Raise e end.

(** ** Locators, nodes, driver requests *)

Inductive By : Type := XPATH | CSS_SELECTOR.

(** A locator is the pair [(By, selector)]. *)
Definition locator : Type := By * string.

(** Element handles ([WebElement]) are opaque identifiers handed out by
    the driver. *)
Definition node : Type := nat.

Inductive request : Type :=
| FindElements (l : locator)            (* driver.find_elements *)
| FindElement (l : locator)             (* driver.find_element *)
| ChildElement (n : node) (l : locator) (* n.find_element *)
| Text (n : node)                       (* n.text *)
| IsDisplayed (n : node)                (* n.is_displayed() *)
| IsEnabled (n : node)                  (* n.is_enabled() *)
| Click (n : node)                      (* n.click() *)
| ScrollTo (y : Z)                      (* window.scrollTo(0, y) *)
| ScrollIntoView (n : node)             (* arguments[0].scrollIntoView(..) *)
| ScrollHeight                          (* return document.body.scrollHeight *)
| PageYOffset                           (* return window.pageYOffset || .. *)
| ReadyState                            (* return document.readyState *)
| CurrentUrl                            (* driver.current_url *)
| Get (url : string).                   (* driver.get(url) *)

Inductive reply : Type :=
| RNone
| RInt (z : Z)
| RStr (s : string)
| RBool (b : bool)
| RNode (n : node)
| RNodes (ns : list node).

(** One entry of the trace: what was asked and what the driver said. *)
Inductive event : Type :=
| Ev (q : request) (r : res reply).

Definition request_of (e : event) : request :=
  match e with Ev q _ => q end.

(** The capability interface of the browser.  [S] is whatever state the
    browser and the page have; each call may change it. *)
Record Driver (S : Type) : Type := {
  find_elements : locator -> S -> res (list node) * S;
  find_element : locator -> S -> res node * S;
  child_element : node -> locator -> S -> res node * S;
  text : node -> S -> res string * S;
  is_displayed : node -> S -> res bool * S;
  is_enabled : node -> S -> res bool * S;
  click : node -> S -> res unit * S;
  scroll_to : Z -> S -> res unit * S;
  scroll_into_view : node -> S -> res unit * S;
  scroll_height : S -> res Z * S;
  page_y_offset : S -> res Z * S;
  ready_state : S -> res string * S;
  current_url : S -> res string * S;
  get : string -> S -> res unit * S
}.
Arguments find_elements {S}.
Arguments find_element {S}.
Arguments child_element {S}.
Arguments text {S}.
Arguments is_displayed {S}.
Arguments is_enabled {S}.
Arguments click {S}.
Arguments scroll_to {S}.
Arguments scroll_into_view {S}.
Arguments scroll_height {S}.
Arguments page_y_offset {S}.
Arguments ready_state {S}.
Arguments current_url {S}.
Arguments get {S}.

(** ** Configuration ([config/config_manager.py]) *)

Record Config : Type := {
  base_url : string;
  default_timeout : Z;
  short_timeout : Z;
  long_timeout : Z;
  test_data_path : string
}.

(** ** Selectors ([utils/constants.py]) *)

Definition PRODUCT_GRID_ITEMS : string :=
  "//div[contains(@class,'product-grid-item-column')]".
Definition PRODUCT_TITLE_CLASS : string := "product-grid-item__title".
Definition SIZE_OPTION_CLASS : string := "product-form__sizes--option".
Definition KLAVIYO_CLOSE_BUTTON : string :=
  "//button[contains(@class,'klaviyo-close-form')]".

Definition TEST_DATA_KEYS : list string :=
  [ "userEmail"; "passWord"; "menuName"; "subMenuName"; "sortBy";
    "productName"; "email"; "lastName"; "firstName"; "postalCode";
    "phone"; "phone_country_select" ].

(** ** Python's [or] on an optional integer

    [timeout or default]: [None] and [0] are falsy. *)
Definition py_or (timeout : option Z) (default : Z) : Z :=
  match timeout with
  | None => default
  | Some t => if t =? 0 then default else t
  end.

(** ** [str.strip()]

    Characters are code points below 256; the whitespace set is the one
    of [str.isspace] on that range. *)
Definition is_space (c : ascii) : bool :=
  let n := nat_of_ascii c in
  ((9 <=? n) && (n <=? 13) || (28 <=? n) && (n <=? 32)
   || (n =? 133) || (n =? 160))%nat.

Fixpoint lstrip (s : string) : string :=
  match s with
  | EmptyString => EmptyString
  | String c s' => if is_space c then lstrip s' else s
  end.

Fixpoint rstrip (s : string) : string :=
  match s with
  | EmptyString => EmptyString
  | String c s' =>
      match rstrip s' with
      | EmptyString => if is_space c then EmptyString else String c EmptyString
      | t => String c t
      end
  end.

Definition strip (s : string) : string := rstrip (lstrip s).

(** [needle in hay] on strings. *)
Fixpoint py_in (needle hay : string) : bool :=
  String.prefix needle hay
  || match hay with
     | EmptyString => false
     | String _ hay' => py_in needle hay'
     end.

(** ** [utils/helpers.py]: test data *)

(** What [json.load] produces.  An object is kept as the pairs of the
    file, in file order. *)
#[warnings="-register-all"]
Inductive json : Type :=
| JNull
| JBool (b : bool)
| JInt (z : Z)
| JStr (s : string)
| JList (l : list json)
| JDict (d : list (string * json)).

(** The Python [dict] built from the pairs of an object: a later pair
    replaces an earlier one with the same key. *)
Definition to_dict (d : list (string * json)) : gmap string json :=
  list_to_map (reverse d).

(** A file that exists either parses or makes [json.load] raise
    [JSONDecodeError]. *)
Inductive file : Type :=
| Malformed
| Parsed (j : json).

(** The files that exist, by path. *)
Definition filesystem : Type := string -> option file.

(** The values [len] accepts: strings, lists and objects.  On [None],
    a number or a boolean it raises [TypeError]. *)
Definition has_len (j : json) : bool :=
  match j with
  | JStr _ | JList _ | JDict _ => true
  | JNull | JBool _ | JInt _ => false
  end.

(** [load_test_data(file_path=None)].  [data.get] exists on a [dict]
    only; on any other value the attribute lookup raises
    [AttributeError].  The message logged before the [return] holds
    [len(test_data_list)], which raises [TypeError] on a value without a
    length.  The [except json.JSONDecodeError] clause catches neither. *)
Definition load_test_data (fs : filesystem) (config : Config)
    (file_path : option string) : res json :=
  let file_path :=
    match file_path with
    | None => test_data_path config
    | Some p => p
    end in
  match fs file_path with
  | None => Raise FileNotFoundError
  | Some Malformed => Raise JSONDecodeError
  | Some (Parsed data) =>
      match data with
      | JDict d =>
          let test_data_list := default (JList []) (to_dict d !! "data") in
          if has_len test_data_list then Ok test_data_list
          else Raise TypeError
      | _ => Raise AttributeError
      end
  end.

(** [validate_test_data(test_data, required_keys)] *)
Definition validate_test_data (test_data : gmap string json)
    (required_keys : list string) : bool :=
  let missing_keys := filter (fun key => key ∉ dom test_data) required_keys in
  match missing_keys with
  | [] => true
  | _ :: _ => false
  end.

(** ** The program monad: driver state, exceptions, trace *)

(** A computation takes the driver state and gives a result or an
    exception, the new driver state, and the driver calls it made. *)
Definition M (S A : Type) : Type := S -> res A * S * list event.

Definition ret {S A} (a : A) : M S A := fun s => (Ok a, s, []).

Definition raise {S A} (e : exn) : M S A := fun s => (Raise e, s, []).

Definition bind {S A B} (m : M S A) (k : A -> M S B) : M S B :=
  fun s =>
    match m s with
    | (Ok a, s1, t1) =>
        match k a s1 with
        | (r, s2, t2) => (r, s2, t1 ++ t2)
        end
    | (Raise e, s1, t1) => (Raise e, s1, t1)
    end.

(** [try: m except <classes in handled>: h] *)
Definition try_except {S A} (m : M S A) (handled : exn -> bool)
    (h : exn -> M S A) : M S A :=
  fun s =>
    match m s with
    | (Ok a, s1, t1) => (Ok a, s1, t1)
    | (Raise e, s1, t1) =>
        if handled e then
          match h e s1 with
          | (r, s2, t2) => (r, s2, t1 ++ t2)
          end
        else (Raise e, s1, t1)
    end.

Notation "x <- m ;; k" := (bind m (fun x => k))
  (at level 100, m at next level, right associativity).
Notation "m ;;; k" := (bind m (fun _ => k))
  (at level 100, right associativity).

(** A driver call: run it on the state and record it. *)
Definition call {S A} (q : request) (inj : A -> reply)
    (op : S -> res A * S) : M S A :=
  fun s =>
    match op s with
    | (r, s') => (r, s', [Ev q (res_map inj r)])
    end.

Definition is_exn (e0 : exn) (e : exn) : bool := bool_decide (e = e0).

(** [except Exception] *)
Definition any_exception (e : exn) : bool := true.

(** A Python list is truthy when it is not empty. *)
Definition truthy_list {A} (l : list A) : option (list A) :=
  match l with [] => None | _ => Some l end.

Section Program.

Context {S : Type}.
Variable drv : Driver S.
Variable config : Config.

(** How many further polls a [WebDriverWait] of the given timeout makes
    after its first evaluation of the condition (the wall clock itself is
    not modelled). *)
Variable polls : Z -> nat.

(** Steps 2 to 7 of the scenario (login, menu, product, cart, checkout,
    payment), given the record and the URL read in step 1: some driver
    program. *)
Variable steps_2_to_7 : gmap string json -> string -> M S unit.

Definition driver_find_elements (l : locator) : M S (list node) :=
  call (FindElements l) RNodes (find_elements drv l).
Definition driver_find_element (l : locator) : M S node :=
  call (FindElement l) RNode (find_element drv l).
Definition element_find_element (n : node) (l : locator) : M S node :=
  call (ChildElement n l) RNode (child_element drv n l).
Definition element_text (n : node) : M S string :=
  call (Text n) RStr (text drv n).
Definition element_is_displayed (n : node) : M S bool :=
  call (IsDisplayed n) RBool (is_displayed drv n).
Definition element_is_enabled (n : node) : M S bool :=
  call (IsEnabled n) RBool (is_enabled drv n).
Definition element_click (n : node) : M S unit :=
  call (Click n) (fun _ => RNone) (click drv n).
Definition js_scroll_to (y : Z) : M S unit :=
  call (ScrollTo y) (fun _ => RNone) (scroll_to drv y).
Definition js_scroll_height : M S Z :=
  call ScrollHeight RInt (scroll_height drv).
Definition js_page_y_offset : M S Z :=
  call PageYOffset RInt (page_y_offset drv).
Definition js_ready_state : M S string :=
  call ReadyState RStr (ready_state drv).
Definition driver_current_url : M S string :=
  call CurrentUrl RStr (current_url drv).
Definition driver_get (url : string) : M S unit :=
  call (Get url) (fun _ => RNone) (get drv url).

(** ** Selenium's [WebDriverWait.until] and expected conditions *)

(** The condition is evaluated; a truthy value is returned at once; a
    falsy value or a [NoSuchElementException] (the default ignored
    exception) leads to another poll while the budget lasts, then to
    [TimeoutException].  Any other exception leaves the wait. *)
Fixpoint until_loop {A} (method : M S (option A)) (budget : nat) : M S A :=
  v <- try_except method (is_exn NoSuchElementException) (fun _ => ret None) ;;
  match v with
  | Some a => ret a
  | None =>
      match budget with
      | O => raise TimeoutException
      | Datatypes.S budget' => until_loop method budget'
      end
  end.

Definition until {A} (timeout : Z) (method : M S (option A)) : M S A :=
  until_loop method (polls timeout).

(** [EC.presence_of_element_located(l)] *)
Definition presence_of_element_located (l : locator) : M S (option node) :=
  n <- driver_find_element l ;; ret (Some n).

(** [_element_if_visible(n)] *)
Definition element_if_visible (n : node) : M S (option node) :=
  d <- element_is_displayed n ;; ret (if d then Some n else None).

(** [EC.visibility_of_element_located(l)]: a stale element counts as
    "not visible yet". *)
Definition visibility_of_element_located (l : locator)
  : M S (option node) :=
  try_except
    (n <- driver_find_element l ;; element_if_visible n)
    (is_exn StaleElementReferenceException)
    (fun _ => ret None).

(** [EC.element_to_be_clickable(l)] *)
Definition element_to_be_clickable (l : locator) : M S (option node) :=
  target <- driver_find_element l ;;
  element <- element_if_visible target ;;
  match element with
  | Some n => en <- element_is_enabled n ;; ret (if en then Some n else None)
  | None => ret None
  end.

(** ** [utils/waits.py]: class [WaitUtils] *)

Record WaitUtils : Type := { wu_timeout : Z }.

(** [WaitUtils.__init__(driver, timeout=None)] *)
Definition WaitUtils_init (timeout : option Z) : WaitUtils :=
  {| wu_timeout := py_or timeout (default_timeout config) |}.

(** The [except TimeoutException: logger.error(..); raise] wrapper of
    every wait: logging aside, the exception is passed on unchanged. *)
Definition log_and_reraise {A} (m : M S A) : M S A :=
  try_except m (is_exn TimeoutException) (fun e => raise e).

Definition wait_for_element_visible (self : WaitUtils) (l : locator)
    (timeout : option Z) : M S node :=
  log_and_reraise
    (until (py_or timeout (wu_timeout self))
           (visibility_of_element_located l)).

Definition wait_for_element_clickable (self : WaitUtils) (l : locator)
    (timeout : option Z) : M S node :=
  log_and_reraise
    (until (py_or timeout (wu_timeout self)) (element_to_be_clickable l)).

Definition wait_for_element_present (self : WaitUtils) (l : locator)
    (timeout : option Z) : M S node :=
  log_and_reraise
    (until (py_or timeout (wu_timeout self)) (presence_of_element_located l)).

Definition wait_for_elements_present (self : WaitUtils) (l : locator)
    (timeout : option Z) (min_count : nat) : M S (list node) :=
  log_and_reraise
    (elements <- until (py_or timeout (wu_timeout self))
                   (ns <- driver_find_elements l ;; ret (truthy_list ns)) ;;
     if (min_count <=? length elements)%nat
     then ret elements
     else raise TimeoutException).

(** [EC.url_contains(text)] *)
Definition url_contains (text : string) : M S (option unit) :=
  url <- driver_current_url ;;
  ret (if py_in text url then Some tt else None).

(** The message logged after the wait holds [self.driver.current_url]:
    the URL is read once more, inside the [try]. *)
Definition wait_for_url_contains (self : WaitUtils) (text : string)
    (timeout : option Z) : M S unit :=
  log_and_reraise
    (result <- until (py_or timeout (wu_timeout self)) (url_contains text) ;;
     driver_current_url ;;;
     ret result).

(** [EC.text_to_be_present_in_element(l, text)] *)
Definition text_to_be_present_in_element (l : locator) (text : string)
  : M S (option unit) :=
  try_except
    (n <- driver_find_element l ;;
     element_text <- element_text n ;;
     ret (if py_in text element_text then Some tt else None))
    (is_exn StaleElementReferenceException)
    (fun _ => ret None).

Definition wait_for_text_in_element (self : WaitUtils) (l : locator)
    (text : string) (timeout : option Z) : M S unit :=
  log_and_reraise
    (until (py_or timeout (wu_timeout self))
           (text_to_be_present_in_element l text)).

(** [is_element_visible(locator, timeout=2)] *)
Definition is_element_visible (self : WaitUtils) (l : locator) (timeout : Z)
  : M S bool :=
  try_except
    (wait_for_element_visible self l (Some timeout) ;;; ret true)
    (is_exn TimeoutException)
    (fun _ => ret false).

(** [is_element_present(locator, timeout=2)] *)
Definition is_element_present (self : WaitUtils) (l : locator) (timeout : Z)
  : M S bool :=
  try_except
    (wait_for_element_present self l (Some timeout) ;;; ret true)
    (is_exn TimeoutException)
    (fun _ => ret false).

(** ** [utils/helpers.py]: driver helpers *)

(** [scroll_to_element(driver, element)] *)
Definition scroll_to_element (element : node) : M S unit :=
  call (ScrollIntoView element) (fun _ => RNone)
       (scroll_into_view drv element).

(** [wait_for_page_load(driver, timeout=10)]: any exception is logged and
    swallowed. *)
Definition wait_for_page_load : M S unit :=
  try_except
    (until 10
       (st <- js_ready_state ;;
        ret (if bool_decide (st = "complete") then Some tt else None)))
    any_exception
    (fun _ => ret tt).

(** ** [pageobjects/base_page.py]: class [BasePage] *)

(** Every page object holds [WaitUtils(driver, config.default_timeout)]. *)
Definition wait_utils : WaitUtils :=
  WaitUtils_init (Some (default_timeout config)).

Definition get_current_url : M S string := driver_current_url.

Definition navigate_to (url : string) : M S unit :=
  driver_get url ;;; wait_for_page_load.

Definition click_element (l : locator) (timeout : option Z) : M S unit :=
  element <- wait_for_element_clickable wait_utils l timeout ;;
  element_click element.

Definition BasePage_is_element_visible (l : locator) (timeout : Z)
  : M S bool :=
  is_element_visible wait_utils l timeout.

(** ** [pageobjects/login.py] *)

Definition is_signed_in : M S bool :=
  current_url <- get_current_url ;;
  ret (String.prefix "https://www.bluebella.com/account" current_url).

Definition navigate_back_to_homepage (original_url : string) : M S unit :=
  signed_in <- is_signed_in ;;
  if signed_in then navigate_to original_url else ret tt.

(** ** [pageobjects/productpage.py] *)

Definition size_locator (size_text : string) : locator :=
  (XPATH,
   "//div[contains(@class,'" +:+ SIZE_OPTION_CLASS
     +:+ "')][normalize-space(text())='" +:+ size_text +:+ "']").

Definition select_size_if_available (size_text : string) : M S bool :=
  visible <- BasePage_is_element_visible (size_locator size_text) 3 ;;
  if visible then
    try_except
      (click_element (size_locator size_text) None ;;; ret true)
      any_exception
      (fun _ => ret false)
  else ret false.

(** ** [pageobjects/collectionpage.py]: [find_product_by_name] *)

Definition product_grid_items : locator := (XPATH, PRODUCT_GRID_ITEMS).

Definition product_title : locator :=
  (XPATH, ".//*[contains(@class,'" +:+ PRODUCT_TITLE_CLASS +:+ "')]").

Definition scroll_amount : Z := 400.
Definition max_scrolls : nat := 100.

Definition no_title_or_stale (e : exn) : bool :=
  is_exn NoSuchElementException e || is_exn StaleElementReferenceException e.

(** [product.find_element(By.XPATH, ..title..).text.strip()] *)
Definition title_text (product : node) : M S string :=
  title_element <- element_find_element product product_title ;;
  raw <- element_text title_element ;;
  ret (strip raw).

(** [for product in products: try: body(product) except
    (NoSuchElementException, StaleElementReferenceException): continue].
    For the body, [Some p] stands for [return p] and [None] for reaching
    the end of the [try] block. *)
Fixpoint scan_tiles (body : node -> M S (option node)) (products : list node)
  : M S (option node) :=
  match products with
  | [] => ret None
  | product :: rest =>
      found <- try_except (body product) no_title_or_stale
                 (fun _ => ret None) ;;
      match found with
      | Some p => ret (Some p)
      | None => scan_tiles body rest
      end
  end.

(** The [try] body of the scanning loop for one tile. *)
Definition check_product (product_name : string) (product : node)
  : M S (option node) :=
  title <- title_text product ;;
  if bool_decide (title = product_name) then
    (scroll_to_element product ;;;
     wait_for_element_present wait_utils product_title
       (Some (short_timeout config))) ;;;
    ret (Some product)
  else ret None.

(** The [for scroll_count in range(max_scrolls)] loop, [remaining] being
    the number of iterations left.  [Some p] stands for [return p];
    [None] for leaving the loop, by [break] or by exhausting the range. *)
Fixpoint scan_loop (product_name : string) (remaining : nat)
    (scroll_position last_height : Z) : M S (option node) :=
  match remaining with
  | O => ret None
  | Datatypes.S remaining' =>
      products <- driver_find_elements product_grid_items ;;
      match products with
      | [] =>
          let scroll_position := scroll_position + scroll_amount in
          js_scroll_to scroll_position ;;;
          wait_for_element_present wait_utils product_grid_items
            (Some (short_timeout config)) ;;;
          scan_loop product_name remaining' scroll_position last_height
      | _ :: _ =>
          found <- scan_tiles (check_product product_name) products ;;
          match found with
          | Some p => ret (Some p)
          | None =>
              let scroll_position := scroll_position + scroll_amount in
              js_scroll_to scroll_position ;;;
              try_except
                (wait_for_elements_present wait_utils product_grid_items
                   (Some (short_timeout config)) (length products) ;;;
                 ret tt)
                (is_exn TimeoutException)
                (fun _ => ret tt) ;;;
              new_height <- js_scroll_height ;;
              current_scroll <- js_page_y_offset ;;
              if current_scroll + 500 >=? new_height then ret None
              else
                scan_loop product_name remaining' scroll_position
                  (if new_height >? last_height then new_height
                   else last_height)
          end
      end
  end.

(** The [try] body of the final pass for one tile. *)
Definition check_product_final (product_name : string) (product : node)
  : M S (option node) :=
  title <- title_text product ;;
  if bool_decide (title = product_name) then
    scroll_to_element product ;;; ret (Some product)
  else ret None.

(** Everything after the scanning loop. *)
Definition final_check (product_name : string) : M S node :=
  js_scroll_to 0 ;;;
  wait_for_elements_present wait_utils product_grid_items
    (Some (short_timeout config)) 1 ;;;
  products <- driver_find_elements product_grid_items ;;
  found <- scan_tiles (check_product_final product_name) products ;;
  match found with
  | Some p => ret p
  | None => raise NoSuchElementException
  end.

Definition find_product_by_name (product_name : string) : M S node :=
  last_height <- js_scroll_height ;;
  found <- scan_loop product_name max_scrolls 0 last_height ;;
  match found with
  | Some p => ret p
  | None => final_check product_name
  end.

(** ** [pageobjects/homepage.py]: [close_klaviyo_popup] *)

Definition klaviyo_close_button : locator := (XPATH, KLAVIYO_CLOSE_BUTTON).

Definition close_klaviyo_popup : M S bool :=
  try_except
    (visible <- BasePage_is_element_visible klaviyo_close_button 3 ;;
     if visible then click_element klaviyo_close_button None ;;; ret true
     else ret false)
    any_exception
    (fun _ => ret false).

(** ** [test_bluebella.py]: the scenario

    [assert validate_test_data(..)] comes first; the [try] around the
    steps re-raises whatever it catches. *)
Definition test_bluebella_e2e_shopping_flow (test_data : gmap string json)
  : M S unit :=
  if validate_test_data test_data TEST_DATA_KEYS then
    navigate_to (base_url config) ;;;
    original_url <- get_current_url ;;
    close_klaviyo_popup ;;;
    steps_2_to_7 test_data original_url
  else raise AssertionError.

End Program.

(** ** [utils/helpers.py]: screenshot names *)

(** [s.replace(old, new)] for a non-empty [old]: occurrences are replaced
    from left to right and do not overlap.  [skip] counts the characters
    of an occurrence found earlier that are still to be passed over. *)
Fixpoint replace_from (old new : string) (skip : nat) (s : string) : string :=
  match s with
  | EmptyString => EmptyString
  | String c s' =>
      match skip with
      | Datatypes.S skip' => replace_from old new skip' s'
      | O =>
          if String.prefix old s
          then new +:+ replace_from old new (String.length old - 1) s'
          else String c (replace_from old new 0 s')
      end
  end.

(** With an empty [old], Python puts [new] before every character and at
    the end. *)
Fixpoint intersperse (new : string) (s : string) : string :=
  match s with
  | EmptyString => new
  | String c s' => new +:+ String c (intersperse new s')
  end.

Definition py_replace (old new s : string) : string :=
  match old with
  | EmptyString => intersperse new s
  | _ => replace_from old new 0 s
  end.

(** [test_name.replace("::", "_").replace("/", "_").replace("\\", "_")] *)
Definition safe_test_name (test_name : string) : string :=
  py_replace (String "092"%char EmptyString) "_"
    (py_replace "/" "_" (py_replace "::" "_" test_name)).

(** The file name made by [get_screenshot_path(test_name)];
    [timestamp] is [datetime.now().strftime("%Y%m%d_%H%M%S")]. *)
Definition screenshot_filename (test_name timestamp : string) : string :=
  safe_test_name test_name +:+ "_" +:+ timestamp +:+ ".png".

(** [get_screenshot_path(test_name)]: the directory
    [config.screenshots_path] and the file name joined to it. *)
Definition get_screenshot_path (screenshots_path : string)
    (test_name timestamp : string) : string * string :=
  (screenshots_path, screenshot_filename test_name timestamp).

(** ** [conftest.py]: browser arguments *)

(** [s.split(sep)] for a separator of one character: one piece more
    than there are separators, empty pieces kept. *)
Fixpoint split_on (sep : ascii) (s : string) : list string :=
  match s with
  | EmptyString => [EmptyString]
  | String c s' =>
      if Ascii.eqb c sep then EmptyString :: split_on sep s'
      else match split_on sep s' with
           | [] => [String c EmptyString]
           | piece :: pieces => String c piece :: pieces
           end
  end.

(** A Python string is truthy when it is not empty. *)
Definition truthy_string (s : string) : bool :=
  match s with EmptyString => false | _ => true end.

(** [if options_str: for option in options_str.split(","):
    if option.strip(): options.add_argument(option.strip())]: the
    arguments added, in order. *)
Definition configured_arguments (options_str : string) : list string :=
  if truthy_string options_str then
    omap (fun option =>
            if truthy_string (strip option) then Some (strip option)
            else None)
         (split_on ","%char options_str)
  else [].

(** The arguments [_create_chrome_driver(headless)] adds to the
    [ChromeOptions], in order; [chrome_options_str] is the
    option [chrome_options] of the section [Browser] of the
    configuration, the empty string when it is not set. *)
Definition chrome_arguments (chrome_options_str : string) (headless : bool)
  : list string :=
  configured_arguments chrome_options_str
    ++ (if headless then ["--headless"; "--disable-gpu"] else [])
    ++ ["--disable-extensions"; "--no-sandbox"; "--disable-dev-shm-usage"].

(** The arguments [_create_firefox_driver(headless)] adds. *)
Definition firefox_arguments (firefox_options_str : string) (headless : bool)
  : list string :=
  configured_arguments firefox_options_str
    ++ (if headless then ["--headless"] else []).

(** ** More of the page objects *)

Definition ADD_TO_CART_BUTTON : string := "//button[@id='AddToCart']".
Definition CART_DRAWER_CLOSE_BUTTON : string :=
  "//button[@class='cart-drawer__close']".
Definition QUICK_ADD_TO_CART_BUTTON : string :=
  "//div[@class='product-quick-add__container']//button[@id='AddToCart']".
Definition CHECKOUT_BUTTON : string :=
  "//div[@class='cart-drawer__footer--buttons']/a[@href='/checkout']".
Definition MAIN_MENU_ITEMS : string := "//li[@js-site-header='siteNavItem']/a".
Definition COMPLETE_THE_LOOK_SECTION : string :=
  "//div[@class='complete-the-look']//div[@class='owl-stage']".
Definition COMPLETE_THE_LOOK_ITEMS : string :=
  "//div[@class='complete-the-look']//div[contains(@class,'owl-item')]".
Definition SORT_BY_BUTTON : string :=
  "div[class='collection-filter'] button[class='collection-filter__header']".
Definition CHECKOUT_POSTAL_CODE_OPTIONS : string :=
  "//li[contains(@id,'postalCode-option')]".

Section PageObjects.

Context {S : Type}.
Variable drv : Driver S.
Variable config : Config.
Variable polls : Z -> nat.

(** *** [utils/helpers.py] *)

(** [safe_find_element(driver, locator, timeout=2)]: [None] on timeout.
    The timeout goes to [WebDriverWait] as it is. *)
Definition safe_find_element (l : locator) (timeout : Z)
  : M S (option node) :=
  try_except
    (element <- until polls timeout (presence_of_element_located drv l) ;;
     ret (Some element))
    (is_exn TimeoutException)
    (fun _ => ret None).

(** *** [pageobjects/collectionpage.py] *)

Definition sort_by_button : locator := (CSS_SELECTOR, SORT_BY_BUTTON).

Definition click_sort_by_button : M S unit :=
  click_element drv config polls sort_by_button None.

Definition sort_option_locator (sort_option : string) : locator :=
  (XPATH,
   "(//div[contains(@class,'collection-filter__sorting')]"
     +:+ "//button[contains(normalize-space(.),'" +:+ sort_option
     +:+ "')])[1]").

Definition select_sort_option (sort_option : string) : M S unit :=
  click_element drv config polls (sort_option_locator sort_option) None.

Definition sort_by_text (sort_text : string) : M S unit :=
  click_sort_by_button ;;;
  wait_for_element_clickable drv polls (wait_utils config)
    (XPATH, "//div[contains(@class,'collection-filter__sorting')]//button")
    (Some (short_timeout config)) ;;;
  select_sort_option sort_text ;;;
  wait_for_elements_present drv polls (wait_utils config) product_grid_items
    None 1 ;;;
  ret tt.

(** [EC.element_to_be_clickable(element)], given the element itself. *)
Definition element_to_be_clickable_element (target : node)
  : M S (option node) :=
  element <- element_if_visible drv target ;;
  match element with
  | Some n =>
      en <- element_is_enabled drv n ;; ret (if en then Some n else None)
  | None => ret None
  end.

Definition product_anchor : locator :=
  (XPATH, ".//a[contains(@class,'product-grid-item')]").

(** The statements of the [try] block of [find_and_click_product]; the
    handler of [StaleElementReferenceException] runs the same statements
    once more. *)
Definition find_and_click_attempt (product_name : string) : M S unit :=
  product <- find_product_by_name drv config polls product_name ;;
  anchor <- element_find_element drv product product_anchor ;;
  scroll_to_element drv anchor ;;;
  until polls (default_timeout config)
    (element_to_be_clickable_element anchor) ;;;
  element_click drv anchor.

(** [find_and_click_product(product_name)]: one [try] with two handlers.
    An exception raised by a handler leaves the function. *)
Definition find_and_click_product (product_name : string) : M S unit :=
  try_except (find_and_click_attempt product_name)
    any_exception
    (fun e =>
       if is_exn StaleElementReferenceException e
       then find_and_click_attempt product_name
       else raise NoSuchElementException).

(** *** [pageobjects/productpage.py] *)

Definition complete_the_look_section : locator :=
  (XPATH, COMPLETE_THE_LOOK_SECTION).
Definition complete_the_look_items : locator :=
  (XPATH, COMPLETE_THE_LOOK_ITEMS).
Definition product_card_button : locator :=
  (XPATH, ".//div[contains(@class,'product-card__details')]//button").

Definition scroll_to_complete_the_look_section : M S unit :=
  log_and_reraise
    (carousel_element <-
       wait_for_element_present drv polls (wait_utils config)
         complete_the_look_section None ;;
     scroll_to_element drv carousel_element).

Definition get_complete_the_look_items : M S (list node) :=
  wait_for_elements_present drv polls (wait_utils config)
    complete_the_look_items None 1.

(** [click_last_complete_the_look_item()].  [last items] is [None]
    exactly when [items] is empty, the case of [if not items: raise
    NoSuchElementException(..)].  The module imports [TimeoutException]
    only, so evaluating the name [NoSuchElementException] there raises
    [NameError]; [name_error] stands for that exception. *)
Definition click_last_complete_the_look_item (name_error : exn) : M S unit :=
  scroll_to_complete_the_look_section ;;;
  items <- get_complete_the_look_items ;;
  match last items with
  | None => raise name_error
  | Some last_item =>
      scroll_to_element drv last_item ;;;
      try_except
        (add_button <- element_find_element drv last_item
                         product_card_button ;;
         wait_for_element_clickable drv polls (wait_utils config)
           product_card_button (Some (short_timeout config)) ;;;
         element_click drv add_button)
        any_exception
        (fun e => raise e)
  end.

Definition quick_add_size_locator (size_text : string) : locator :=
  (XPATH,
   "//div[@class='product-quick-add__container']//div[contains(@class,'"
     +:+ SIZE_OPTION_CLASS +:+ "')][normalize-space(text())='"
     +:+ size_text +:+ "']").

Definition select_quick_add_size_if_available (size_text : string)
  : M S bool :=
  visible <- BasePage_is_element_visible drv config polls
               (quick_add_size_locator size_text) 3 ;;
  if visible then
    try_except
      (click_element drv config polls (quick_add_size_locator size_text)
         None ;;; ret true)
      any_exception
      (fun _ => ret false)
  else ret false.

Definition add_to_cart_button : locator := (XPATH, ADD_TO_CART_BUTTON).
Definition cart_drawer_close_button : locator :=
  (XPATH, CART_DRAWER_CLOSE_BUTTON).
Definition quick_add_to_cart_button : locator :=
  (XPATH, QUICK_ADD_TO_CART_BUTTON).
Definition checkout_button : locator := (XPATH, CHECKOUT_BUTTON).
Definition cart_drawer : locator := (XPATH, "//div[@class='cart-drawer']").

Definition add_to_cart : M S unit :=
  click_element drv config polls add_to_cart_button None ;;;
  wait_for_element_visible drv polls (wait_utils config)
    cart_drawer_close_button None ;;;
  ret tt.

(** [EC.invisibility_of_element_located(l)]: the element when it is not
    displayed, [True] (here [Some None]) when it is missing or stale. *)
Definition invisibility_of_element_located (l : locator)
  : M S (option (option node)) :=
  try_except
    (target <- driver_find_element drv l ;;
     d <- element_is_displayed drv target ;;
     ret (if d then None else Some (Some target)))
    (fun e => is_exn NoSuchElementException e
              || is_exn StaleElementReferenceException e)
    (fun _ => ret (Some None)).

Definition close_cart_drawer : M S unit :=
  visible <- BasePage_is_element_visible drv config polls
               cart_drawer_close_button 3 ;;
  if visible then
    click_element drv config polls cart_drawer_close_button None ;;;
    try_except
      (until polls (short_timeout config)
         (invisibility_of_element_located cart_drawer) ;;;
       ret tt)
      (is_exn TimeoutException)
      (fun _ => ret tt)
  else ret tt.

Definition add_to_cart_and_close_drawer : M S unit :=
  add_to_cart ;;; close_cart_drawer.

Definition click_quick_add_to_cart : M S unit :=
  click_element drv config polls quick_add_to_cart_button None ;;;
  wait_for_element_visible drv polls (wait_utils config) checkout_button
    (Some (long_timeout config)) ;;;
  ret tt.

Definition click_checkout_button : M S unit :=
  click_element drv config polls checkout_button None.

Definition proceed_to_checkout : M S unit :=
  click_quick_add_to_cart ;;; click_checkout_button.

(** *** [pageobjects/checkoutpage.py] *)

Definition postal_code_options : locator :=
  (XPATH, CHECKOUT_POSTAL_CODE_OPTIONS).

(** [for option in options: if search_text in option.text:
    option.click(); return True] and [return False] after the loop. *)
Fixpoint click_first_containing (search_text : string) (options : list node)
  : M S bool :=
  match options with
  | [] => ret false
  | option :: rest =>
      option_text <- element_text drv option ;;
      if py_in search_text option_text
      then element_click drv option ;;; ret true
      else click_first_containing search_text rest
  end.

(** [select_postal_code_option(search_text="Iguchi")] *)
Definition select_postal_code_option (search_text : string) : M S bool :=
  try_except
    (options <- wait_for_elements_present drv polls (wait_utils config)
                  postal_code_options (Some (short_timeout config)) 1 ;;
     click_first_containing search_text options)
    any_exception
    (fun _ => ret false).

(** *** [pageobjects/homepage.py] *)

(** [ActionChains(driver).move_to_element(n).perform()]: some driver
    program. *)
Variable move_to_element_perform : node -> M S unit.

Definition menu_items : locator := (XPATH, MAIN_MENU_ITEMS).

Definition submenu_locator (sub_menu_name : string) : locator :=
  (XPATH,
   "./ancestor::li[@js-site-header='siteNavItem']//a[normalize-space()='"
     +:+ sub_menu_name +:+ "']").

(** The [for menu_nav in menu_elements] loop of [hover_to_menu] and the
    [if not menu_found: raise] after it; [menu_found] is the flag as it
    stands when the rest of the list is entered.  A menu whose text
    matches ends the function: by [return] after the click, or by the
    exception of the hover, of the search or of the click. *)
Fixpoint hover_to_menu_loop (menu_name sub_menu_name : string)
    (menu_found : bool) (menu_elements : list node) : M S unit :=
  match menu_elements with
  | [] => if negb menu_found then raise NoSuchElementException else ret tt
  | menu_nav :: rest =>
      menu_text <- element_text drv menu_nav ;;
      if String.eqb (strip menu_text) menu_name then
        move_to_element_perform menu_nav ;;;
        try_except
          (submenu <- element_find_element drv menu_nav
                        (submenu_locator sub_menu_name) ;;
           element_click drv submenu)
          (is_exn NoSuchElementException)
          (fun e => raise e)
      else hover_to_menu_loop menu_name sub_menu_name menu_found rest
  end.

Definition hover_to_menu (menu_name sub_menu_name : string) : M S unit :=
  menu_elements <- wait_for_elements_present drv polls (wait_utils config)
                     menu_items None 1 ;;
  hover_to_menu_loop menu_name sub_menu_name false menu_elements.

End PageObjects.

(** ** A concrete browser: answers given by a function of the history

    The state is the list of requests received so far, most recent first;
    [o h q] is the answer to request [q] after history [h]. *)
Definition oracle : Type := list request -> request -> res reply.

Definition as_nodes (r : res reply) : res (list node) :=
  match r with
  | Ok (RNodes ns) => Ok ns
  | Ok _ => Raise WebDriverException
  | Raise e => Raise e
  end.
Definition as_node (r : res reply) : res node :=
  match r with
  | Ok (RNode n) => Ok n
  | Ok _ => Raise WebDriverException
  | Raise e => Raise e
  end.
Definition as_str (r : res reply) : res string :=
  match r with
  | Ok (RStr s) => Ok s
  | Ok _ => Raise WebDriverException
  | Raise e => Raise e
  end.
Definition as_bool (r : res reply) : res bool :=
  match r with
  | Ok (RBool b) => Ok b
  | Ok _ => Raise WebDriverException
  | Raise e => Raise e
  end.
Definition as_int (r : res reply) : res Z :=
  match r with
  | Ok (RInt z) => Ok z
  | Ok _ => Raise WebDriverException
  | Raise e => Raise e
  end.
Definition as_unit (r : res reply) : res unit :=
  match r with
  | Ok _ => Ok tt
  | Raise e => Raise e
  end.

Definition ask {A} (o : oracle) (cast : res reply -> res A) (q : request)
  : list request -> res A * list request :=
  fun h => (cast (o h q), q :: h).

Definition oracle_driver (o : oracle) : Driver (list request) :=
  {| find_elements l := ask o as_nodes (FindElements l);
     find_element l := ask o as_node (FindElement l);
     child_element n l := ask o as_node (ChildElement n l);
     text n := ask o as_str (Text n);
     is_displayed n := ask o as_bool (IsDisplayed n);
     is_enabled n := ask o as_bool (IsEnabled n);
     click n := ask o as_unit (Click n);
     scroll_to y := ask o as_unit (ScrollTo y);
     scroll_into_view n := ask o as_unit (ScrollIntoView n);
     scroll_height := ask o as_int ScrollHeight;
     page_y_offset := ask o as_int PageYOffset;
     ready_state := ask o as_str ReadyState;
     current_url := ask o as_str CurrentUrl;
     get url := ask o as_unit (Get url) |}.

(** The shipped configuration values ([utils/constants.py]). *)
Definition shipped_config : Config :=
  {| base_url := "https://www.bluebella.com";
     default_timeout := 10;
     short_timeout := 5;
     long_timeout := 20;
     test_data_path := "testdata/test_data.json" |}.

(** Two polls per second of timeout. *)
Definition two_per_second (timeout : Z) : nat := Z.to_nat (2 * timeout).

(** A page for examples: its tiles may depend on what was asked before;
    the title element of tile [n] has handle [n + 10]; the page reports
    the last position it was scrolled to. *)
Record page : Type := {
  tiles : list request -> list node;
  title : node -> res string;
  into_view : node -> res unit;
  height : Z;
  url : string
}.

Definition is_scroll_to (q : request) : bool :=
  match q with ScrollTo _ => true | _ => false end.

Definition is_find_elements (q : request) : bool :=
  match q with FindElements _ => true | _ => false end.

Fixpoint last_scroll (h : list request) : Z :=
  match h with
  | [] => 0
  | ScrollTo y :: _ => y
  | _ :: h' => last_scroll h'
  end.

Definition page_oracle (pg : page) : oracle :=
  fun h q =>
    match q with
    | FindElements _ => Ok (RNodes (tiles pg h))
    | FindElement _ =>
        match tiles pg h with
        | [] => Raise NoSuchElementException
        | n :: _ => Ok (RNode n)
        end
    | ChildElement n _ =>
        match title pg n with
        | Raise NoSuchElementException => Raise NoSuchElementException
        | _ => Ok (RNode (n + 10)%nat)
        end
    | Text te => res_map RStr (title pg (te - 10)%nat)
    | IsDisplayed _ | IsEnabled _ => Ok (RBool true)
    | ScrollIntoView n => res_map (fun _ => RNone) (into_view pg n)
    | ScrollHeight => Ok (RInt (height pg))
    | PageYOffset => Ok (RInt (last_scroll h))
    | ReadyState => Ok (RStr "complete")
    | CurrentUrl => Ok (RStr (url pg))
    | Click _ | ScrollTo _ | Get _ => Ok RNone
    end.

Definition page_driver (pg : page) : Driver (list request) :=
  oracle_driver (page_oracle pg).

(** A browser that fails every request with the same exception. *)
Definition broken_driver (e : exn) : Driver (list request) :=
  oracle_driver (fun _ _ => Raise e).

(** A grid whose second tile is realized only after the first query. *)
Definition growing_grid : page :=
  {| tiles h :=
       match filter (fun q => is_find_elements q = true) h with
       | [] => [1%nat]
       | _ => [1%nat; 2%nat]
       end;
     title n := Ok "Lace Bra";
     into_view n := Ok tt;
     height := 3000;
     url := "https://www.bluebella.com/collections/bras" |}.

(** Two tiles with the title looked for; the first goes stale when it is
    brought into view. *)
Definition stale_first_tile : page :=
  {| tiles h := [1%nat; 2%nat];
     title n := Ok "Lace Bra";
     into_view n :=
       match n with
       | 1%nat => Raise StaleElementReferenceException
       | _ => Ok tt
       end;
     height := 3000;
     url := "https://www.bluebella.com/collections/bras" |}.

(** A short page whose only tile has the title looked for and goes stale
    whenever it is brought into view. *)
Definition stale_only_tile : page :=
  {| tiles h := [1%nat];
     title n := Ok "Lace Bra";
     into_view n := Raise StaleElementReferenceException;
     height := 600;
     url := "https://www.bluebella.com/collections/bras" |}.

Definition scrolled_to_top (h : list request) : bool :=
  existsb (fun q => match q with ScrollTo 0 => true | _ => false end) h.

(** A short page whose only tile, of another title, is gone once the
    window is scrolled back to the top. *)
Definition vanishing_grid : page :=
  {| tiles h := if scrolled_to_top h then [] else [1%nat];
     title n := Ok "Silk Robe";
     into_view n := Ok tt;
     height := 600;
     url := "https://www.bluebella.com/collections/bras" |}.

(** A short page with one tile of another title. *)
Definition robe_only : page :=
  {| tiles h := [1%nat];
     title n := Ok "Silk Robe";
     into_view n := Ok tt;
     height := 600;
     url := "https://www.bluebella.com/collections/bras" |}.

(** A very long page with one tile of another title. *)
Definition endless_page : page :=
  {| tiles h := [1%nat];
     title n := Ok "Silk Robe";
     into_view n := Ok tt;
     height := 1000000;
     url := "https://www.bluebella.com/collections/bras" |}.

(** Three tiles: another product, then the product looked for with
    blanks around its title, then the same product once more. *)
Definition shop_page : page :=
  {| tiles h := [1%nat; 2%nat; 3%nat];
     title n :=
       match n with
       | 1%nat => Ok "Silk Robe"
       | 2%nat => Ok "  Lace Bra "
       | _ => Ok "Lace Bra"
       end;
     into_view n := Ok tt;
     height := 3000;
     url := "https://www.bluebella.com/collections/bras" |}.


(** A record of the data file, and the same without its password. *)
Definition sample_record : list (string * json) :=
  [ ("userEmail", JStr "a@b.com"); ("passWord", JStr "x");
    ("menuName", JStr "Shop"); ("subMenuName", JStr "Bras");
    ("sortBy", JStr "Newest"); ("productName", JStr "Lace Bra");
    ("email", JStr "a@b.com"); ("lastName", JStr "Doe");
    ("firstName", JStr "Jane"); ("postalCode", JStr "100-0001");
    ("phone", JStr "08000000000"); ("phone_country_select", JStr "JP") ].

Definition record_without_password : list (string * json) :=
  [ ("userEmail", JStr "a@b.com"); ("menuName", JStr "Shop");
    ("subMenuName", JStr "Bras"); ("sortBy", JStr "Newest");
    ("productName", JStr "Lace Bra"); ("email", JStr "a@b.com");
    ("lastName", JStr "Doe"); ("firstName", JStr "Jane");
    ("postalCode", JStr "100-0001"); ("phone", JStr "08000000000");
    ("phone_country_select", JStr "JP") ].

(** A file system holding one file, at every path. *)
Definition only_file (f : file) : filesystem := fun _ => Some f.

(** * Vocabulary of the statements *)

Definition is_get (q : request) : bool :=
  match q with Get _ => true | _ => false end.

(** Scrolling the window and measuring it: the requests of the scanning
    loop itself, as opposed to those of the tile scan and of the waits. *)
Definition scroll_or_measure (q : request) : bool :=
  match q with
  | ScrollTo _ | ScrollHeight | PageYOffset => true
  | _ => false
  end.

Definition quiet (e : event) : Prop := scroll_or_measure (request_of e) = false.

(** Number of [window.scrollTo] calls in a trace. *)
Definition scroll_steps (tr : list event) : nat :=
  length (filter (fun e => is_scroll_to (request_of e) = true) tr).

(** What follows the scanning loop when it ends without a match: the
    scroll to the top, then neither scrolling nor measuring. *)
Definition scanning_over (post : list event) : Prop :=
  exists r post', post = Ev (ScrollTo 0) r :: post' /\ Forall quiet post'.

(** Wherever the trace holds a height followed by an offset within 500
    pixels of it, scanning is over. *)
Fixpoint stops_at_bottom (tr : list event) : Prop :=
  match tr with
  | [] => True
  | e :: tl =>
      match e, tl with
      | Ev ScrollHeight (Ok (RInt new_height)),
        Ev PageYOffset (Ok (RInt current_scroll)) :: post =>
          current_scroll + 500 >= new_height -> scanning_over post
      | _, _ => True
      end
      /\ stops_at_bottom tl
  end.

Section Vocabulary.

Context {S : Type}.
Variable drv : Driver S.
Variable config : Config.
Variable polls : Z -> nat.
Variable product_name : string.

(** [traces_in P m]: every driver call [m] makes satisfies [P]. *)
Definition traces_in {A} (P : event -> Prop) (m : M S A) : Prop :=
  forall s, Forall P (m s).2.

(** [steps_le k m]: [m] scrolls the window at most [k] times. *)
Definition steps_le {A} (k : nat) (m : M S A) : Prop :=
  forall s, (scroll_steps (m s).2 <= k)%nat.

(** What may follow the trace of a computation that ended with [r]. *)
Definition follows {A} (r : res (option A)) (post : list event) : Prop :=
  match r with
  | Ok None => scanning_over post
  | _ => post = []
  end.

(** [stops_in m]: the trace of [m], followed by what may follow it,
    satisfies [stops_at_bottom]. *)
Definition stops_in (m : M S (option node)) : Prop :=
  forall s r s' tr post,
    m s = (r, s', tr) -> follows r post -> stops_at_bottom (tr ++ post).

(** Two timeout arguments that make every wait of [self] behave the
    same. *)
Definition same_waits (self : WaitUtils) (l : locator) (text : string)
    (min_count : nat) (t1 t2 : option Z) : Prop :=
  wait_for_element_visible drv polls self l t1
    = wait_for_element_visible drv polls self l t2
  /\ wait_for_element_clickable drv polls self l t1
    = wait_for_element_clickable drv polls self l t2
  /\ wait_for_element_present drv polls self l t1
    = wait_for_element_present drv polls self l t2
  /\ wait_for_elements_present drv polls self l t1 min_count
    = wait_for_elements_present drv polls self l t2 min_count
  /\ wait_for_url_contains drv polls self text t1
    = wait_for_url_contains drv polls self text t2
  /\ wait_for_text_in_element drv polls self l text t1
    = wait_for_text_in_element drv polls self l text t2.

(** Tile [q], inspected in state [s], is passed over: its title is read
    and differs from the target, or reading it fails with one of the two
    handled exceptions, or the title matches and one of the two handled
    exceptions comes while the tile is brought into view. *)
Definition tile_skipped (body : node -> M S (option node)) (q : node)
    (s s1 : S) (t : list event) : Prop :=
  (exists title, title <> product_name
     /\ title_text drv q s = (Ok title, s1, t))
  \/ (exists e, no_title_or_stale e = true
        /\ title_text drv q s = (Raise e, s1, t))
  \/ (exists e sm tm, no_title_or_stale e = true
        /\ title_text drv q s = (Ok product_name, sm, tm)
        /\ body q s = (Raise e, s1, t)).

(** All tiles of a list are passed over, one after the other. *)
Inductive all_skipped (body : node -> M S (option node))
  : list node -> S -> S -> list event -> Prop :=
| all_skipped_nil s : all_skipped body [] s s []
| all_skipped_cons q rest s s1 s2 t1 t2 :
    tile_skipped body q s s1 t1 ->
    all_skipped body rest s1 s2 t2 ->
    all_skipped body (q :: rest) s s2 (t1 ++ t2).

(** The two loop bodies: read the title, and on a match run some
    action on the tile before returning it. *)
Definition is_tile_body (body : node -> M S (option node)) : Prop :=
  exists (A : Type) (action : node -> M S A),
    forall q, body q
      = bind (title_text drv q) (fun title =>
          if bool_decide (title = product_name)
          then bind (action q) (fun _ => ret (Some q))
          else ret None).

(** The tile [p] returned in state [s'] was accepted by [body] in the
    scan of the tiles of one query, the last of the trace [tr]: all tiles
    before [p] in the answer of that query were passed over, the title of
    [p] is the target, and the scan made no scroll step. *)
Definition accepted_in (body : node -> M S (option node)) (p : node)
    (s' : S) (tr : list event) : Prop :=
  exists pre s0 products s1 before after s2 t1 t2,
    tr = pre ++ Ev (FindElements product_grid_items) (Ok (RNodes products))
               :: t1 ++ t2
    /\ find_elements drv product_grid_items s0 = (Ok products, s1)
    /\ products = before ++ p :: after
    /\ all_skipped body before s1 s2 t1
    /\ (exists sm tm, title_text drv p s2 = (Ok product_name, sm, tm))
    /\ body p s2 = (Ok (Some p), s', t2)
    /\ Forall quiet (t1 ++ t2).

(** The outcome of the final pass, run from a scan that ended without a
    match and left the trace [scan]: [tw] are the calls of the wait at
    the top, [products] the answer, in state [s5], of the query that
    follows it. *)
Definition final_pass_outcome (s : S) (h : Z) (scan tw : list event)
    (products : list node) (s5 : S) : Prop :=
  let final := check_product_final drv product_name in
  exists r s' pass,
    find_product_by_name drv config polls product_name s
    = (r, s',
       Ev ScrollHeight (Ok (RInt h)) :: scan
         ++ Ev (ScrollTo 0) (Ok RNone) :: tw
         ++ Ev (FindElements product_grid_items) (Ok (RNodes products))
         :: pass)
    /\ Forall quiet tw
    /\ Forall quiet pass
    /\ (forall p, r = Ok p ->
        exists before after sb t1 t2,
          products = before ++ p :: after
          /\ all_skipped final before s5 sb t1
          /\ (exists sm tm, title_text drv p sb = (Ok product_name, sm, tm))
          /\ final p sb = (Ok (Some p), s', t2)
          /\ pass = t1 ++ t2)
    /\ (r = Raise NoSuchElementException
        <-> all_skipped final products s5 s' pass).

End Vocabulary.

Definition is_click (q : request) : bool :=
  match q with Click _ => true | _ => false end.

Definition no_click (e : event) : Prop := is_click (request_of e) = false.

(** The trace ends with the poll that found [n] by [l], displayed and
    enabled, and the click on [n] that follows it; nothing was clicked
    before. *)
Definition ends_with_click (l : locator) (n : node) (rc : res reply)
    (tr : list event) : Prop :=
  exists pre,
    tr = pre ++ [Ev (FindElement l) (Ok (RNode n));
                 Ev (IsDisplayed n) (Ok (RBool true));
                 Ev (IsEnabled n) (Ok (RBool true));
                 Ev (Click n) rc]
    /\ Forall no_click pre.

(** The positions of the [window.scrollTo] calls of a trace, in order. *)
Definition scroll_targets (tr : list event) : list Z :=
  omap (fun e => match request_of e with
                 | ScrollTo y => Some y
                 | _ => None
                 end) tr.

(** [pos + 400; pos + 800; ..], [k] positions. *)
Definition steps_from (pos : Z) (k : nat) : list Z :=
  map (fun i => pos + scroll_amount * Z.of_nat i) (seq 1 k).

Definition no_scroll (e : event) : Prop := is_scroll_to (request_of e) = false.

(** [targets_ok n pos m]: [m] scrolls the window at most [n] times, to
    [pos + 400], [pos + 800], and so on. *)
Definition targets_ok {S A} (n : nat) (pos : Z) (m : M S A) : Prop :=
  forall s,
    exists k, (k <= n)%nat /\ scroll_targets (m s).2 = steps_from pos k.

(** Number of clicks in a trace. *)
Definition clicks (tr : list event) : nat :=
  length (filter (fun e => is_click (request_of e) = true) tr).

(** The reads of the texts of the options that come before the one
    chosen. *)
Definition text_reads (options : list node) (texts : list string)
  : list event :=
  zip_with (fun o t => Ev (Text o) (Ok (RStr t))) options texts.

(** The end of a trace after a click that succeeded on [anchor], the
    link found inside the tile [product]. *)
Definition clicked_anchor (tr : list event) : Prop :=
  exists pre product anchor,
    tr = pre ++ [Ev (IsDisplayed anchor) (Ok (RBool true));
                 Ev (IsEnabled anchor) (Ok (RBool true));
                 Ev (Click anchor) (Ok RNone)]
    /\ Ev (ChildElement product product_anchor) (Ok (RNode anchor)) ∈ pre.


(** [clicks_le k m]: [m] clicks at most [k] times. *)
Definition clicks_le {S A} (k : nat) (m : M S A) : Prop :=
  forall s, (clicks (m s).2 <= k)%nat.

(** [clicks_ok k m]: a run of [m] that returns has clicked [k] times. *)
Definition clicks_ok {S A} (k : nat) (m : M S A) : Prop :=
  forall s a s' tr, m s = (Ok a, s', tr) -> clicks tr = k.

(** A browser that answers the first read of the URL and fails the
    later ones as if the page were gone. *)
Definition is_current_url (q : request) : bool :=
  match q with CurrentUrl => true | _ => false end.

Definition url_read_once : Driver (list request) :=
  oracle_driver
    (fun h q =>
       match q with
       | CurrentUrl =>
           if existsb is_current_url h then Raise NoSuchElementException
           else Ok (RStr "https://www.bluebella.com/account")
       | _ => Ok RNone
       end).

(** A page without product tiles. *)
Definition empty_page : page :=
  {| tiles h := [];
     title n := Raise NoSuchElementException;
     into_view n := Ok tt;
     height := 600;
     url := "https://www.bluebella.com/collections/empty" |}.

(** How the scanning loop ended: by [return product], by [break] at the
    bottom, by using up its range, or by an exception. *)
Inductive scan_end : Type :=
| Found (p : node)
| Bottom
| Exhausted
| Raised (e : exn).

Definition scan_result (how : scan_end) : res (option node) :=
  match how with
  | Found p => Ok (Some p)
  | Bottom | Exhausted => Ok None
  | Raised e => Raise e
  end.

(** [scan_run n pos tr how]: [tr] is made of at most [n] iterations of
    the scanning loop, started at scroll position [pos], and ends as
    [how] says.  An iteration whose query is empty scrolls 400 pixels
    down, waits and goes on without measuring.  An iteration whose query
    holds tiles and no match scrolls 400 pixels down, waits, measures
    the height and then the offset, and goes on only if the offset is
    more than 500 pixels above the height.  An iteration that raises
    has scrolled at most once. *)
Inductive scan_run : nat -> Z -> list event -> scan_end -> Prop :=
| scan_exhausted pos : scan_run 0 pos [] Exhausted
| scan_empty n pos tw tr how :
    Forall quiet tw ->
    scan_run n (pos + scroll_amount) tr how ->
    scan_run (Datatypes.S n) pos
      (Ev (FindElements product_grid_items) (Ok (RNodes []))
         :: Ev (ScrollTo (pos + scroll_amount)) (Ok RNone) :: tw ++ tr)
      how
| scan_found n pos products inspected p :
    products <> [] ->
    Forall quiet inspected ->
    scan_run (Datatypes.S n) pos
      (Ev (FindElements product_grid_items) (Ok (RNodes products))
         :: inspected)
      (Found p)
| scan_bottom n pos products inspected tw new_height current_scroll :
    products <> [] ->
    Forall quiet inspected ->
    Forall quiet tw ->
    current_scroll + 500 >= new_height ->
    scan_run (Datatypes.S n) pos
      (Ev (FindElements product_grid_items) (Ok (RNodes products))
         :: inspected
         ++ Ev (ScrollTo (pos + scroll_amount)) (Ok RNone) :: tw
         ++ [Ev ScrollHeight (Ok (RInt new_height));
             Ev PageYOffset (Ok (RInt current_scroll))])
      Bottom
| scan_on n pos products inspected tw new_height current_scroll tr how :
    products <> [] ->
    Forall quiet inspected ->
    Forall quiet tw ->
    current_scroll + 500 < new_height ->
    scan_run n (pos + scroll_amount) tr how ->
    scan_run (Datatypes.S n) pos
      (Ev (FindElements product_grid_items) (Ok (RNodes products))
         :: inspected
         ++ Ev (ScrollTo (pos + scroll_amount)) (Ok RNone) :: tw
         ++ Ev ScrollHeight (Ok (RInt new_height))
         :: Ev PageYOffset (Ok (RInt current_scroll)) :: tr)
      how
| scan_raised n pos tr e :
    scroll_targets tr = [] \/ scroll_targets tr = [pos + scroll_amount] ->
    scan_run (Datatypes.S n) pos tr (Raised e).

(** A page of 600 pixels whose grid is empty until the window is
    scrolled for the first time. *)
Definition late_grid : page :=
  {| tiles h := if existsb is_scroll_to h then [1%nat] else [];
     title n := Ok "Silk Robe";
     into_view n := Ok tt;
     height := 600;
     url := "https://www.bluebella.com/collections/bras" |}.

(** * Properties *)

(** ** Reasoning about computations *)

Section MonadFacts.

Context {S : Type}.

Lemma bind_ok {A B} (m : M S A) (k : A -> M S B) s a s1 t1 :
  m s = (Ok a, s1, t1) ->
  bind m k s = ((k a s1).1.1, (k a s1).1.2, t1 ++ (k a s1).2).
Proof.
  intros Hm. unfold bind. rewrite Hm.
  destruct (k a s1) as [[r s2] t2]. reflexivity.
Qed.

Lemma bind_raise {A B} (m : M S A) (k : A -> M S B) s e s1 t1 :
  m s = (Raise e, s1, t1) -> bind m k s = (Raise e, s1, t1).
Proof. intros Hm. unfold bind. rewrite Hm. reflexivity. Qed.

(** What a finished [bind] was made of. *)
Lemma bind_inv {A B} (m : M S A) (k : A -> M S B) s r s' tr :
  bind m k s = (r, s', tr) ->
  (exists a s1 t1 t2,
      m s = (Ok a, s1, t1) /\ k a s1 = (r, s', t2) /\ tr = t1 ++ t2)
  \/ (exists e, m s = (Raise e, s', tr) /\ r = Raise e).
Proof.
  unfold bind. destruct (m s) as [[[a|e] s1] t1].
  - destruct (k a s1) as [[r2 s2] t2] eqn:Hk. intros [= <- <- <-].
    left. exists a, s1, t1, t2. auto.
  - intros [= <- <- <-]. right. exists e. auto.
Qed.

Lemma try_except_inv {A} (m : M S A) handled h s r s' tr :
  try_except m handled h s = (r, s', tr) ->
  (exists a, m s = (Ok a, s', tr) /\ r = Ok a)
  \/ (exists e, m s = (Raise e, s', tr) /\ handled e = false /\ r = Raise e)
  \/ (exists e s1 t1 t2,
        m s = (Raise e, s1, t1) /\ handled e = true
        /\ h e s1 = (r, s', t2) /\ tr = t1 ++ t2).
Proof.
  unfold try_except. destruct (m s) as [[[a|e] s1] t1].
  - intros [= <- <- <-]. left. eauto.
  - destruct (handled e) eqn:He.
    + destruct (h e s1) as [[r2 s2] t2] eqn:Hh. intros [= <- <- <-].
      right. right. exists e, s1, t1, t2. auto.
    + intros [= <- <- <-]. right. left. eauto.
Qed.

Lemma traces_ret {A} P (a : A) : traces_in P (ret (S:=S) a).
Proof. intros s. constructor. Qed.

Lemma traces_raise {A} P e : traces_in P (raise (S:=S) (A:=A) e).
Proof. intros s. constructor. Qed.

Lemma traces_bind {A B} P (m : M S A) (k : A -> M S B) :
  traces_in P m -> (forall a, traces_in P (k a)) -> traces_in P (bind m k).
Proof.
  intros Hm Hk s. unfold bind. specialize (Hm s).
  destruct (m s) as [[[a|e] s1] t1]; simpl in *; [|assumption].
  specialize (Hk a s1). destruct (k a s1) as [[r s2] t2]; simpl in *.
  apply Forall_app. split; assumption.
Qed.

Lemma traces_try {A} P (m : M S A) handled h :
  traces_in P m -> (forall e, traces_in P (h e)) ->
  traces_in P (try_except m handled h).
Proof.
  intros Hm Hh s. unfold try_except. specialize (Hm s).
  destruct (m s) as [[[a|e] s1] t1]; simpl in *; [assumption|].
  destruct (handled e); [|assumption].
  specialize (Hh e s1). destruct (h e s1) as [[r s2] t2]; simpl in *.
  apply Forall_app. split; assumption.
Qed.

Lemma traces_call {A} (P : event -> Prop) q (inj : A -> reply)
    (op : S -> res A * S) :
  (forall r, P (Ev q r)) -> traces_in P (call q inj op).
Proof.
  intros HP s. unfold call. destruct (op s) as [r s1]. simpl.
  constructor; [apply HP | constructor].
Qed.

End MonadFacts.

(** ** The wait policy *)

Section WaitFacts.

Context {S : Type}.
Variable drv : Driver S.
Variable config : Config.
Variable polls : Z -> nat.

Lemma py_or_None default : py_or None default = default.
Proof. reflexivity. Qed.

Lemma py_or_zero default : py_or (Some 0) default = default.
Proof. reflexivity. Qed.

Lemma py_or_eq_zero timeout default : py_or timeout default = 0 -> default = 0.
Proof.
  destruct timeout as [t|]; simpl; [|auto].
  destruct (Z.eqb_spec t 0); [auto | contradiction].
Qed.

Lemma py_or_idem timeout default :
  py_or (Some (py_or timeout default)) default = py_or timeout default.
Proof.
  simpl. destruct (Z.eqb_spec (py_or timeout default) 0) as [H0|]; [|done].
  rewrite H0. by apply py_or_eq_zero with timeout.
Qed.

Lemma same_waits_py_or self l text min_count t1 t2 :
  py_or t1 (wu_timeout self) = py_or t2 (wu_timeout self) ->
  same_waits drv polls self l text min_count t1 t2.
Proof.
  intros Heq.
  unfold same_waits, wait_for_element_visible, wait_for_element_clickable,
    wait_for_element_present, wait_for_elements_present,
    wait_for_url_contains, wait_for_text_in_element.
  rewrite Heq. repeat split.
Qed.

(** The polls of a wait are the calls of its condition. *)
Lemma traces_until_loop {A} P (method : M S (option A)) budget :
  traces_in P method -> traces_in P (until_loop method budget).
Proof.
  intros Hm. induction budget as [|budget IH]; simpl.
  - apply traces_bind.
    + apply traces_try; [assumption | intros; apply traces_ret].
    + intros [a|]; [apply traces_ret | apply traces_raise].
  - apply traces_bind.
    + apply traces_try; [assumption | intros; apply traces_ret].
    + intros [a|]; [apply traces_ret | assumption].
Qed.

Lemma traces_log_and_reraise {A} P (m : M S A) :
  traces_in P m -> traces_in P (log_and_reraise m).
Proof. intros Hm. apply traces_try; [assumption | intros; apply traces_raise]. Qed.

Lemma traces_wait_for_element_present P self l timeout :
  (forall r, P (Ev (FindElement l) r)) ->
  traces_in P (wait_for_element_present drv polls self l timeout).
Proof.
  intros HP. apply traces_log_and_reraise, traces_until_loop, traces_bind.
  - by apply traces_call.
  - intros; apply traces_ret.
Qed.

Lemma traces_wait_for_elements_present P self l timeout min_count :
  (forall r, P (Ev (FindElements l) r)) ->
  traces_in P (wait_for_elements_present drv polls self l timeout min_count).
Proof.
  intros HP. apply traces_log_and_reraise, traces_bind.
  - apply traces_until_loop, traces_bind.
    + by apply traces_call.
    + intros; apply traces_ret.
  - intros els. destruct (_ <=? _)%nat; [apply traces_ret | apply traces_raise].
Qed.

(** A timeout of a wait re-raised by [log_and_reraise] is the same
    outcome. *)
Lemma log_and_reraise_id {A} (m : M S A) s : log_and_reraise m s = m s.
Proof.
  unfold log_and_reraise, try_except.
  destruct (m s) as [[[a|e] s1] t1]; [reflexivity|].
  destruct (is_exn TimeoutException e); [|reflexivity].
  simpl. by rewrite app_nil_r.
Qed.

(** [try: m; return True / except TimeoutException: return False] *)
Lemma timeout_to_bool {A} (m : M S A) s :
  try_except (bind m (fun _ => ret true)) (is_exn TimeoutException)
    (fun _ => ret false) s
  = match m s with
    | (Ok _, s1, t1) => (Ok true, s1, t1)
    | (Raise TimeoutException, s1, t1) => (Ok false, s1, t1)
    | (Raise e, s1, t1) => (Raise e, s1, t1)
    end.
Proof.
  unfold try_except, bind. destruct (m s) as [[[a|e] s1] t1]; simpl.
  - by rewrite app_nil_r.
  - destruct e; simpl; try reflexivity. by rewrite app_nil_r.
Qed.

(** The count is checked once, after the wait for a non-empty list: a
    first poll that finds some elements, but fewer than [min_count], ends
    [wait_for_elements_present] with [TimeoutException] at once. *)
Lemma short_first_poll_raises self l timeout min_count s n ns s1 :
  find_elements drv l s = (Ok (n :: ns), s1) ->
  (length (n :: ns) < min_count)%nat ->
  wait_for_elements_present drv polls self l timeout min_count s
  = (Raise TimeoutException, s1,
     [Ev (FindElements l) (Ok (RNodes (n :: ns)))]).
Proof.
  intros Hfind Hlt. unfold wait_for_elements_present.
  rewrite log_and_reraise_id. unfold until.
  assert (Hpoll : until_loop
                    (bind (driver_find_elements drv l)
                       (fun ns0 => ret (truthy_list ns0)))
                    (polls (py_or timeout (wu_timeout self))) s
                  = (Ok (n :: ns), s1,
                     [Ev (FindElements l) (Ok (RNodes (n :: ns)))])).
  { destruct (polls _); simpl;
      unfold bind, try_except, driver_find_elements, call;
      rewrite Hfind; reflexivity. }
  rewrite (bind_ok _ _ _ _ _ _ Hpoll).
  destruct (Nat.leb_spec min_count (length (n :: ns))) as [Hle|_]; [lia|].
  reflexivity.
Qed.

(** C9.  A falsy timeout ([None] or [0]) selects the default, at
    construction ([config.default_timeout]) and on every call
    ([self.timeout]), for every wait of [WaitUtils] and for the two
    existence checks; whatever is passed, the wait runs as with some
    explicit timeout [T], and [T] is zero only if the configured default
    is zero. *)
Theorem falsy_timeout_falls_back (ctor timeout : option Z) (l : locator)
    (text : string) (min_count : nat) :
  let self := WaitUtils_init config ctor in
  wu_timeout (WaitUtils_init config None) = default_timeout config
  /\ wu_timeout (WaitUtils_init config (Some 0)) = default_timeout config
  /\ same_waits drv polls self l text min_count None (Some (wu_timeout self))
  /\ same_waits drv polls self l text min_count (Some 0) (Some (wu_timeout self))
  /\ is_element_visible drv polls self l 0
     = is_element_visible drv polls self l (wu_timeout self)
  /\ is_element_present drv polls self l 0
     = is_element_present drv polls self l (wu_timeout self)
  /\ exists T, (T <> 0 \/ default_timeout config = 0)
       /\ same_waits drv polls self l text min_count timeout (Some T).
Proof.
  intros self.
  assert (Hself : py_or (Some (wu_timeout self)) (wu_timeout self)
                  = wu_timeout self).
  { unfold py_or. by destruct (_ =? 0). }
  split; [reflexivity|]. split; [reflexivity|].
  split; [apply same_waits_py_or; by rewrite Hself|].
  split; [apply same_waits_py_or; by rewrite Hself|].
  pose proof (same_waits_py_or self l text min_count (Some 0)
                (Some (wu_timeout self)) ltac:(by rewrite Hself))
    as (Hv & _ & Hp & _).
  split; [unfold is_element_visible; by rewrite Hv|].
  split; [unfold is_element_present; by rewrite Hp|].
  exists (py_or timeout (wu_timeout self)). split.
  - destruct (Z.eq_dec (py_or timeout (wu_timeout self)) 0) as [H0|]; [|by left].
    right. apply py_or_eq_zero in H0. by apply py_or_eq_zero with ctor.
  - apply same_waits_py_or. by rewrite py_or_idem.
Qed.

(** C7, as the code has it.  The two existence checks turn the outcome of
    their wait into a boolean: [True] when the wait returns the element,
    [False] when it times out; a [TimeoutException] never leaves them,
    any other exception of the driver does.  [select_size_if_available]
    returns what its visibility check says when that is [False] or an
    exception, without a further driver call, and cannot raise when the
    check says [True]. *)
Theorem existence_checks_absorb_timeouts (self : WaitUtils) (l : locator)
    (timeout : Z) (size_text : string) (s : S) :
  is_element_visible drv polls self l timeout s
  = match wait_for_element_visible drv polls self l (Some timeout) s with
    | (Ok _, s1, t1) => (Ok true, s1, t1)
    | (Raise TimeoutException, s1, t1) => (Ok false, s1, t1)
    | (Raise e, s1, t1) => (Raise e, s1, t1)
    end
  /\ is_element_present drv polls self l timeout s
     = match wait_for_element_present drv polls self l (Some timeout) s with
       | (Ok _, s1, t1) => (Ok true, s1, t1)
       | (Raise TimeoutException, s1, t1) => (Ok false, s1, t1)
       | (Raise e, s1, t1) => (Raise e, s1, t1)
       end
  /\ (is_element_visible drv polls self l timeout s).1.1
     <> Raise TimeoutException
  /\ (is_element_present drv polls self l timeout s).1.1
     <> Raise TimeoutException
  /\ match is_element_visible drv polls (wait_utils config)
             (size_locator size_text) 3 s with
     | (Ok false, s1, t1) =>
         select_size_if_available drv config polls size_text s
         = (Ok false, s1, t1)
     | (Ok true, s1, t1) =>
         exists b s2 t2,
           select_size_if_available drv config polls size_text s
           = (Ok b, s2, t1 ++ t2)
     | (Raise e, s1, t1) =>
         e <> TimeoutException
         /\ select_size_if_available drv config polls size_text s
            = (Raise e, s1, t1)
     end.
Proof.
  assert (Hv := timeout_to_bool
                  (wait_for_element_visible drv polls self l (Some timeout)) s).
  assert (Hp := timeout_to_bool
                  (wait_for_element_present drv polls self l (Some timeout)) s).
  fold (is_element_visible drv polls self l timeout) in Hv.
  fold (is_element_present drv polls self l timeout) in Hp.
  split; [exact Hv|]. split; [exact Hp|].
  split.
  { rewrite Hv. destruct (wait_for_element_visible _ _ _ _ _ _)
      as [[[a|[]] s1] t1]; simpl; congruence. }
  split.
  { rewrite Hp. destruct (wait_for_element_present _ _ _ _ _ _)
      as [[[a|[]] s1] t1]; simpl; congruence. }
  assert (Hs : is_element_visible drv polls (wait_utils config)
                 (size_locator size_text) 3 s
               = match wait_for_element_visible drv polls (wait_utils config)
                         (size_locator size_text) (Some 3) s with
                 | (Ok _, s1, t1) => (Ok true, s1, t1)
                 | (Raise TimeoutException, s1, t1) => (Ok false, s1, t1)
                 | (Raise e, s1, t1) => (Raise e, s1, t1)
                 end) by apply timeout_to_bool.
  unfold select_size_if_available, BasePage_is_element_visible.
  destruct (is_element_visible drv polls (wait_utils config)
              (size_locator size_text) 3 s) as [[[[|]|e] s1] t1] eqn:Hvis.
  - rewrite (bind_ok _ _ _ _ _ _ Hvis).
    unfold try_except.
    destruct (bind (click_element _ _ _ _ _) _ s1) as [[[b|e] s2] t2];
      simpl; eauto.
  - rewrite (bind_ok _ _ _ _ _ _ Hvis). simpl. by rewrite app_nil_r.
  - split.
    + intros ->. revert Hs.
      destruct (wait_for_element_visible drv polls (wait_utils config) _ _ s)
        as [[[a|[]] s0] t0]; simpl; congruence.
    + by rewrite (bind_raise _ _ _ _ _ _ Hvis).
Qed.

End WaitFacts.

(** ** The lazy-scroll product locator *)

Section LocatorFacts.

Context {S : Type}.
Variable drv : Driver S.
Variable config : Config.
Variable polls : Z -> nat.
Variable product_name : string.

#[local] Arguments scan_loop : simpl never.

Lemma quiet_title_text product : traces_in quiet (title_text drv product).
Proof.
  apply traces_bind; [by apply traces_call|]. intros te.
  apply traces_bind; [by apply traces_call|]. intros raw. apply traces_ret.
Qed.

Lemma quiet_check_product product :
  traces_in quiet (check_product drv config polls product_name product).
Proof.
  apply traces_bind; [apply quiet_title_text|]. intros t.
  destruct (bool_decide _); [|apply traces_ret].
  apply traces_bind; [|intros; apply traces_ret].
  apply traces_bind; [by apply traces_call|]. intros _.
  by apply traces_wait_for_element_present.
Qed.

Lemma quiet_check_product_final product :
  traces_in quiet (check_product_final drv product_name product).
Proof.
  apply traces_bind; [apply quiet_title_text|]. intros t.
  destruct (bool_decide _); [|apply traces_ret].
  apply traces_bind; [by apply traces_call|]. intros _. apply traces_ret.
Qed.

Lemma quiet_scan_tiles body products :
  (forall p, traces_in quiet (body p)) ->
  traces_in quiet (scan_tiles (S:=S) body products).
Proof.
  intros Hb. induction products as [|p rest IH]; simpl; [apply traces_ret|].
  apply traces_bind.
  - apply traces_try; [apply Hb | intros; apply traces_ret].
  - intros [q|]; [apply traces_ret | apply IH].
Qed.

Lemma scroll_steps_app t1 t2 :
  scroll_steps (t1 ++ t2) = (scroll_steps t1 + scroll_steps t2)%nat.
Proof. unfold scroll_steps. by rewrite filter_app, length_app. Qed.

Lemma quiet_scroll_steps tr : Forall quiet tr -> scroll_steps tr = 0%nat.
Proof.
  induction 1 as [|e tr He _ IH]; [reflexivity|].
  unfold scroll_steps in *. rewrite filter_cons.
  destruct e as [q r]. unfold quiet in He. simpl in *.
  destruct q; simpl in *; try discriminate; exact IH.
Qed.

Lemma steps_le_quiet {A} (m : M S A) k : traces_in quiet m -> steps_le k m.
Proof. intros Hm s. rewrite quiet_scroll_steps; [lia | apply Hm]. Qed.

Lemma steps_le_bind {A B} (m : M S A) (k : A -> M S B) a b :
  steps_le a m -> (forall x, steps_le b (k x)) -> steps_le (a + b) (bind m k).
Proof.
  intros Hm Hk s. unfold bind. specialize (Hm s).
  destruct (m s) as [[[x|e] s1] t1]; simpl in *; [|lia].
  specialize (Hk x s1). destruct (k x s1) as [[r s2] t2]; simpl in *.
  rewrite scroll_steps_app. lia.
Qed.

Lemma steps_le_scroll_to y : steps_le 1 (js_scroll_to drv y).
Proof.
  intros s. unfold js_scroll_to, call. by destruct (scroll_to drv y s).
Qed.

Lemma steps_le_scan_loop remaining scroll_position last_height :
  steps_le remaining
    (scan_loop drv config polls product_name remaining scroll_position
       last_height).
Proof.
  revert scroll_position last_height.
  induction remaining as [|n IH]; intros pos lh; simpl.
  - intros s. unfold ret, scroll_steps. simpl. lia.
  - change (Datatypes.S n) with (0 + (1 + n))%nat.
    apply steps_le_bind; [apply steps_le_quiet; by apply traces_call|].
    intros [|p products].
    + apply steps_le_bind; [apply steps_le_scroll_to|]. intros _.
      change n with (0 + n)%nat. apply steps_le_bind; [|intros; apply IH].
      apply steps_le_quiet. by apply traces_wait_for_element_present.
    + change (1 + n)%nat with (0 + (1 + n))%nat. apply steps_le_bind.
      { apply steps_le_quiet, quiet_scan_tiles. apply quiet_check_product. }
      intros [q|]; [apply steps_le_quiet, traces_ret|].
      apply steps_le_bind; [apply steps_le_scroll_to|]. intros _.
      change n with (0 + (0 + (0 + n)))%nat.
      apply steps_le_bind.
      { apply steps_le_quiet, traces_try; [|intros; apply traces_ret].
        apply traces_bind; [|intros; apply traces_ret].
        by apply traces_wait_for_elements_present. }
      intros _. apply steps_le_bind.
      { intros s. unfold js_scroll_height, call.
        by destruct (scroll_height drv s). }
      intros h. apply steps_le_bind.
      { intros s. unfold js_page_y_offset, call.
        by destruct (page_y_offset drv s). }
      intros c. destruct (_ >=? _); [|apply IH].
      intros s. unfold ret, scroll_steps. simpl. lia.
Qed.

Lemma call_inv {A} q (inj : A -> reply) (op : S -> res A * S) s r s' tr :
  call q inj op s = (r, s', tr) ->
  op s = (r, s') /\ tr = [Ev q (res_map inj r)].
Proof.
  unfold call. destruct (op s) as [r1 s1]. intros [= <- <- <-]. auto.
Qed.

Lemma scan_loop_S remaining scroll_position last_height :
  scan_loop drv config polls product_name (Datatypes.S remaining)
    scroll_position last_height
  = bind (driver_find_elements drv product_grid_items) (fun products =>
      match products with
      | [] =>
          bind (js_scroll_to drv (scroll_position + scroll_amount)) (fun _ =>
          bind (wait_for_element_present drv polls (wait_utils config)
                  product_grid_items (Some (short_timeout config))) (fun _ =>
          scan_loop drv config polls product_name remaining
            (scroll_position + scroll_amount) last_height))
      | _ :: _ =>
          bind (scan_tiles (check_product drv config polls product_name)
                  products)
            (fun found =>
               match found with
               | Some p => ret (Some p)
               | None =>
                   bind (js_scroll_to drv (scroll_position + scroll_amount))
                     (fun _ =>
                   bind (try_except
                           (bind (wait_for_elements_present drv polls
                                    (wait_utils config) product_grid_items
                                    (Some (short_timeout config))
                                    (length products))
                                 (fun _ => ret tt))
                           (is_exn TimeoutException) (fun _ => ret tt))
                     (fun _ =>
                   bind (js_scroll_height drv) (fun new_height =>
                   bind (js_page_y_offset drv) (fun current_scroll =>
                     if current_scroll + 500 >=? new_height then ret None
                     else
                       scan_loop drv config polls product_name remaining
                         (scroll_position + scroll_amount)
                         (if new_height >? last_height then new_height
                          else last_height)))))
               end)
      end).
Proof. reflexivity. Qed.

Lemma stops_quiet_cons e tr :
  quiet e -> stops_at_bottom tr -> stops_at_bottom (e :: tr).
Proof.
  intros He Htr. split; [|assumption].
  destruct e as [q r]. unfold quiet in He. by destruct q.
Qed.

Lemma stops_quiet_app t1 t2 :
  Forall quiet t1 -> stops_at_bottom t2 -> stops_at_bottom (t1 ++ t2).
Proof.
  induction 1 as [|e t1 He _ IH]; intros H2; [assumption|].
  rewrite <- app_comm_cons. apply stops_quiet_cons; auto.
Qed.

Lemma stops_scroll_cons y r tr :
  stops_at_bottom tr -> stops_at_bottom (Ev (ScrollTo y) r :: tr).
Proof. intros Htr. split; [exact I | assumption]. Qed.

Lemma stops_offset_cons r tr :
  stops_at_bottom tr -> stops_at_bottom (Ev PageYOffset r :: tr).
Proof. intros Htr. split; [exact I | assumption]. Qed.

Lemma stops_quiet tr : Forall quiet tr -> stops_at_bottom tr.
Proof.
  intros H. rewrite <- (app_nil_r tr). by apply stops_quiet_app.
Qed.

Lemma scanning_over_stops post : scanning_over post -> stops_at_bottom post.
Proof.
  intros (r & post' & -> & Hq). by apply stops_scroll_cons, stops_quiet.
Qed.

Lemma follows_stops {A} (r : res (option A)) post :
  follows r post -> stops_at_bottom post.
Proof.
  destruct r as [[a|]|e]; simpl; try (intros ->; exact I).
  apply scanning_over_stops.
Qed.

Lemma stops_in_ret (found : option node) : stops_in (S:=S) (ret found).
Proof.
  intros s r s' tr post [= <- <- <-] Hpost. simpl.
  by apply follows_stops with (Ok found).
Qed.

Lemma stops_in_bind_quiet {A} (m : M S A) (k : A -> M S (option node)) :
  traces_in quiet m -> (forall a, stops_in (k a)) -> stops_in (bind m k).
Proof.
  intros Hm Hk s r s' tr post Hrun Hpost. specialize (Hm s).
  apply bind_inv in Hrun
    as [(a & s1 & t1 & t2 & H1 & H2 & ->)|(e & H1 & ->)];
    rewrite H1 in Hm; simpl in Hm.
  - rewrite <- app_assoc. apply stops_quiet_app; [assumption|].
    by apply (Hk a s1 r s').
  - simpl in Hpost. subst post. rewrite app_nil_r. by apply stops_quiet.
Qed.

Lemma stops_in_bind_scroll_to y (k : unit -> M S (option node)) :
  (forall a, stops_in (k a)) -> stops_in (bind (js_scroll_to drv y) k).
Proof.
  intros Hk s r s' tr post Hrun Hpost.
  apply bind_inv in Hrun
    as [(a & s1 & t1 & t2 & H1 & H2 & ->)|(e & H1 & ->)];
    apply call_inv in H1 as [_ ->]; simpl.
  - split; [exact I|]. by apply (Hk a s1 r s').
  - simpl in Hpost. subst post. by split.
Qed.

(** The bottom check of the scanning loop. *)
Lemma stops_in_bottom_check (rest : Z -> M S (option node)) :
  (forall new_height, stops_in (rest new_height)) ->
  stops_in
    (bind (js_scroll_height drv) (fun new_height =>
     bind (js_page_y_offset drv) (fun current_scroll =>
       if current_scroll + 500 >=? new_height then ret None
       else rest new_height))).
Proof.
  intros Hrest s r s' tr post Hrun Hpost.
  apply bind_inv in Hrun
    as [(h & s1 & t1 & t2 & H1 & H2 & ->)|(e & H1 & ->)];
    apply call_inv in H1 as [_ ->]; simpl.
  2: { simpl in Hpost. subst post. by split. }
  apply bind_inv in H2
    as [(c & s2 & t3 & t4 & H3 & H4 & ->)|(e & H3 & ->)];
    apply call_inv in H3 as [_ ->]; simpl.
  2: { simpl in Hpost. subst post. by repeat split. }
  destruct (Z.geb_spec (c + 500) h) as [Hge|Hlt].
  - injection H4 as <- <- <-. simpl in *. split; [by intros _|].
    split; [exact I|]. by apply scanning_over_stops.
  - split; [intros Hge; lia|]. split; [exact I|].
    by apply (Hrest h s2 r s').
Qed.

Lemma stops_in_scan_loop remaining scroll_position last_height :
  stops_in
    (scan_loop drv config polls product_name remaining scroll_position
       last_height).
Proof.
  revert scroll_position last_height.
  induction remaining as [|n IH]; intros pos lh; [apply stops_in_ret|].
  rewrite scan_loop_S.
  apply stops_in_bind_quiet; [by apply traces_call|].
  intros [|p products].
  - apply stops_in_bind_scroll_to. intros _.
    apply stops_in_bind_quiet; [|intros; apply IH].
    by apply traces_wait_for_element_present.
  - apply stops_in_bind_quiet.
    { apply quiet_scan_tiles, quiet_check_product. }
    intros [q|]; [apply stops_in_ret|].
    apply stops_in_bind_scroll_to. intros _.
    apply stops_in_bind_quiet.
    { apply traces_try; [|intros; apply traces_ret].
      apply traces_bind; [|intros; apply traces_ret].
      by apply traces_wait_for_elements_present. }
    intros _. apply stops_in_bottom_check. intros h. apply IH.
Qed.

(** The final pass scrolls to the top once and then neither scrolls nor
    measures. *)
Lemma final_check_scanning_over s :
  scanning_over (final_check drv config polls product_name s).2.
Proof.
  unfold final_check, bind at 1.
  destruct (js_scroll_to drv 0 s) as [[[[]|e] s1] t1] eqn:H1;
    apply call_inv in H1 as [_ ->].
  2: { eexists _, []. split; [reflexivity | constructor]. }
  match goal with
  | |- context [bind ?m ?k s1] =>
      assert (Hq : traces_in quiet (bind m k))
  end.
  { apply traces_bind; [by apply traces_wait_for_elements_present|].
    intros _. apply traces_bind; [by apply traces_call|]. intros products.
    apply traces_bind.
    - apply quiet_scan_tiles, quiet_check_product_final.
    - intros [p|]; [apply traces_ret | apply traces_raise]. }
  specialize (Hq s1).
  destruct (bind _ _ s1) as [[r s2] t2]. simpl in *.
  eexists _, t2. split; [reflexivity | assumption].
Qed.

(** *** The scan of the tiles of one query *)

Lemma check_product_is_tile_body :
  is_tile_body drv product_name (check_product drv config polls product_name).
Proof. eexists _, _. intros q. reflexivity. Qed.

Lemma check_product_final_is_tile_body :
  is_tile_body drv product_name (check_product_final drv product_name).
Proof. eexists _, _. intros q. reflexivity. Qed.

Section TileScan.

Variable body : node -> M S (option node).
Hypothesis Hbody : is_tile_body drv product_name body.

Lemma body_inv q s r s' t :
  body q s = (r, s', t) ->
  (exists e, title_text drv q s = (Raise e, s', t) /\ r = Raise e)
  \/ (exists title, title <> product_name
        /\ title_text drv q s = (Ok title, s', t) /\ r = Ok None)
  \/ (exists sm tm, title_text drv q s = (Ok product_name, sm, tm)
        /\ (r = Ok (Some q) \/ exists e, r = Raise e)).
Proof.
  destruct Hbody as (A & action & Hb). rewrite Hb. intros Hrun.
  apply bind_inv in Hrun
    as [(title & s1 & t1 & t2 & H1 & H2 & ->)|(e & H1 & ->)];
    [|left; eauto].
  right. case_bool_decide as Ht.
  - subst title. right. exists s1, t1. split; [assumption|].
    apply bind_inv in H2
      as [(a & s2 & t3 & t4 & H3 & [= <- <- <-] & ->)|(e & H3 & ->)]; eauto.
  - injection H2 as <- <- <-. left. exists title. rewrite app_nil_r. auto.
Qed.

Lemma body_title_raise q s e s' t :
  title_text drv q s = (Raise e, s', t) -> body q s = (Raise e, s', t).
Proof.
  destruct Hbody as (A & action & Hb). rewrite Hb. apply bind_raise.
Qed.

Lemma body_title_differs q s title s' t :
  title_text drv q s = (Ok title, s', t) -> title <> product_name ->
  body q s = (Ok None, s', t).
Proof.
  destruct Hbody as (A & action & Hb). rewrite Hb. intros Ht Hne.
  rewrite (bind_ok _ _ _ _ _ _ Ht). rewrite bool_decide_false by assumption.
  simpl. by rewrite app_nil_r.
Qed.

(** One turn of the [for] loop over the tiles. *)
Lemma try_body_inv q s r s' t :
  try_except (body q) no_title_or_stale (fun _ => ret None) s = (r, s', t) ->
  (r = Ok None /\ tile_skipped drv product_name body q s s' t)
  \/ (r = Ok (Some q)
      /\ (exists sm tm, title_text drv q s = (Ok product_name, sm, tm))
      /\ body q s = (Ok (Some q), s', t))
  \/ (exists e, r = Raise e /\ no_title_or_stale e = false
        /\ body q s = (Raise e, s', t)).
Proof.
  intros Hrun. apply try_except_inv in Hrun
    as [(a & Hb & ->)|[(e & Hb & He & ->)|(e & s1 & t1 & t2 & Hb & He
                                            & [= <- <- <-] & ->)]].
  - destruct (body_inv _ _ _ _ _ Hb)
      as [(e & _ & [=])|[(title & Hne & Ht & [= ->])
                        |(sm & tm & Ht & [[= ->]|(e & [=])])]].
    + left. split; [reflexivity|]. left. eauto.
    + right. left. eauto.
  - right. right. eauto.
  - left. split; [reflexivity|]. rewrite app_nil_r.
    destruct (body_inv _ _ _ _ _ Hb)
      as [(e' & Ht & [= <-])|[(title & _ & _ & [=])
                             |(sm & tm & Ht & _)]].
    + right. left. eauto.
    + right. right. exists e, sm, tm. auto.
Qed.

Lemma try_body_skipped q s s' t :
  tile_skipped drv product_name body q s s' t ->
  try_except (body q) no_title_or_stale (fun _ => ret None) s
  = (Ok None, s', t).
Proof.
  unfold try_except.
  intros [(title & Hne & Ht)|[(e & He & Ht)|(e & sm & tm & He & _ & Hb)]].
  - by rewrite (body_title_differs _ _ _ _ _ Ht Hne).
  - rewrite (body_title_raise _ _ _ _ _ Ht), He. simpl. by rewrite app_nil_r.
  - rewrite Hb, He. simpl. by rewrite app_nil_r.
Qed.

(** The scan goes on after a tile that is passed over. *)
Lemma scan_tiles_skip q rest s s1 t :
  tile_skipped drv product_name body q s s1 t ->
  scan_tiles body (q :: rest) s
  = ((scan_tiles body rest s1).1.1, (scan_tiles body rest s1).1.2,
     t ++ (scan_tiles body rest s1).2).
Proof.
  intros Hskip. simpl.
  by rewrite (bind_ok _ _ _ _ _ _ (try_body_skipped _ _ _ _ Hskip)).
Qed.

Lemma scan_tiles_all_skipped products s s' tr :
  all_skipped drv product_name body products s s' tr ->
  scan_tiles body products s = (Ok None, s', tr).
Proof.
  induction 1 as [s|q rest s s1 s2 t1 t2 Hq _ IH]; [reflexivity|].
  rewrite (scan_tiles_skip _ _ _ _ _ Hq), IH. reflexivity.
Qed.

(** What a finished scan of the tiles says about them. *)
Lemma scan_tiles_inv products s r s' tr :
  scan_tiles body products s = (r, s', tr) ->
  match r with
  | Ok None => all_skipped drv product_name body products s s' tr
  | Ok (Some p) =>
      exists before after s1 t1 t2,
        products = before ++ p :: after
        /\ all_skipped drv product_name body before s s1 t1
        /\ (exists sm tm, title_text drv p s1 = (Ok product_name, sm, tm))
        /\ body p s1 = (Ok (Some p), s', t2)
        /\ tr = t1 ++ t2
  | Raise e => no_title_or_stale e = false
  end.
Proof.
  revert s tr. induction products as [|q rest IH]; intros s tr Hrun.
  - injection Hrun as <- <- <-. constructor.
  - simpl in Hrun. apply bind_inv in Hrun
      as [(found & s1 & t1 & t2 & H1 & H2 & ->)|(e & H1 & ->)].
    + apply try_body_inv in H1
        as [[[= ->] Hskip]|[([= ->] & Ht & Hb)|(e & [=] & _)]].
      * specialize (IH _ _ H2). destruct r as [[p|]|e]; [| |assumption].
        -- destruct IH as (before & after & s2 & t3 & t4 & -> & Hbefore
                           & Ht & Hb & ->).
           exists (q :: before), after, s2, (t1 ++ t3), t4.
           rewrite app_assoc. repeat split; try assumption.
           by econstructor.
        -- by econstructor.
      * injection H2 as <- <- <-.
        exists [], rest, s, [], t1. rewrite app_nil_r.
        repeat split; try assumption. constructor.
    + apply try_body_inv in H1
        as [[[=] _]|[([=] & _)|(e' & [= <-] & He & _)]]. assumption.
Qed.

End TileScan.

(** The title compared with the target is the text of the title
    element of the tile, stripped. *)
Lemma title_text_ok_inv q s title s' tr :
  title_text drv q s = (Ok title, s', tr) ->
  exists te raw s1,
    child_element drv q product_title s = (Ok te, s1)
    /\ text drv te s1 = (Ok raw, s')
    /\ title = strip raw
    /\ tr = [Ev (ChildElement q product_title) (Ok (RNode te));
             Ev (Text te) (Ok (RStr raw))].
Proof.
  unfold title_text. intros Hrun.
  apply bind_inv in Hrun
    as [(te & s1 & t1 & t2 & H1 & H2 & ->)|(e & _ & [=])].
  apply call_inv in H1 as [Hchild ->].
  apply bind_inv in H2
    as [(raw & s2 & t3 & t4 & H3 & [= <- <- <-] & ->)|(e & _ & [=])].
  apply call_inv in H3 as [Htext ->].
  exists te, raw, s1. auto.
Qed.

(** *** Where a returned tile comes from *)

Lemma accepted_in_prefix body p s' t tr :
  accepted_in drv product_name body p s' tr -> accepted_in drv product_name body p s' (t ++ tr).
Proof.
  intros (pre & s0 & products & s1 & before & after & s2 & t1 & t2
          & -> & H).
  exists (t ++ pre), s0, products, s1, before, after, s2, t1, t2.
  by rewrite <- app_assoc.
Qed.

Lemma accepted_in_query body products s s1 p s' pass :
  is_tile_body drv product_name body ->
  (forall q, traces_in quiet (body q)) ->
  find_elements drv product_grid_items s = (Ok products, s1) ->
  scan_tiles body products s1 = (Ok (Some p), s', pass) ->
  accepted_in drv product_name body p s'
    (Ev (FindElements product_grid_items) (Ok (RNodes products)) :: pass).
Proof.
  intros Hbody Hquiet Hfind Hscan.
  pose proof (quiet_scan_tiles body products Hquiet s1) as Hq.
  rewrite Hscan in Hq. simpl in Hq.
  apply (scan_tiles_inv body Hbody) in Hscan
    as (before & after & s2 & t1 & t2 & -> & Hskip & Ht & Hb & ->).
  exists [], s, (before ++ p :: after), s1, before, after, s2, t1, t2.
  auto 10.
Qed.

Lemma scan_loop_found_inv remaining scroll_position last_height s p s' tr :
  scan_loop drv config polls product_name remaining scroll_position
    last_height s = (Ok (Some p), s', tr) ->
  accepted_in drv product_name (check_product drv config polls product_name) p s' tr.
Proof.
  revert scroll_position last_height s tr.
  induction remaining as [|n IH]; intros pos lh s tr Hrun; [discriminate|].
  rewrite scan_loop_S in Hrun.
  apply bind_inv in Hrun
    as [(products & s1 & t1 & t2 & H1 & H2 & ->)|(e & _ & [=])].
  apply call_inv in H1 as [Hfind ->]. simpl res_map.
  destruct products as [|q products].
  - apply accepted_in_prefix.
    apply bind_inv in H2 as [(u & s2 & t3 & t4 & _ & H2 & ->)|(e & _ & [=])].
    apply accepted_in_prefix.
    apply bind_inv in H2 as [(w & s3 & t5 & t6 & _ & H2 & ->)|(e & _ & [=])].
    apply accepted_in_prefix. by apply IH in H2.
  - apply bind_inv in H2
      as [(found & s2 & t3 & t4 & Hscan & H2 & ->)|(e & _ & [=])].
    destruct found as [p'|].
    + injection H2 as <- <- <-. rewrite app_nil_r.
      apply (accepted_in_query _ _ s s1);
        auto using check_product_is_tile_body, quiet_check_product.
    + apply accepted_in_prefix, accepted_in_prefix.
      apply bind_inv in H2
        as [(u & s3 & t5 & t6 & _ & H2 & ->)|(e & _ & [=])].
      apply accepted_in_prefix.
      apply bind_inv in H2
        as [(w & s4 & t7 & t8 & _ & H2 & ->)|(e & _ & [=])].
      apply accepted_in_prefix.
      apply bind_inv in H2
        as [(h & s5 & t9 & t10 & _ & H2 & ->)|(e & _ & [=])].
      apply accepted_in_prefix.
      apply bind_inv in H2
        as [(c & s6 & t11 & t12 & _ & H2 & ->)|(e & _ & [=])].
      apply accepted_in_prefix.
      destruct (_ >=? _); [discriminate|]. by apply IH in H2.
Qed.

Lemma final_check_found_inv s p s' tr :
  final_check drv config polls product_name s = (Ok p, s', tr) ->
  accepted_in drv product_name (check_product_final drv product_name) p s' tr.
Proof.
  unfold final_check. intros Hrun.
  apply bind_inv in Hrun as [(u & s1 & t1 & t2 & _ & H2 & ->)|(e & _ & [=])].
  apply accepted_in_prefix.
  apply bind_inv in H2 as [(w & s2 & t3 & t4 & _ & H2 & ->)|(e & _ & [=])].
  apply accepted_in_prefix.
  apply bind_inv in H2
    as [(products & s3 & t5 & t6 & H1 & H2 & ->)|(e & _ & [=])].
  apply call_inv in H1 as [Hfind ->]. simpl res_map.
  apply bind_inv in H2
    as [(found & s4 & t7 & t8 & Hscan & H2 & ->)|(e & _ & [=])].
  destruct found as [p'|]; [|discriminate].
  injection H2 as <- <- <-. rewrite app_nil_r.
  apply (accepted_in_query _ _ s2 s3);
    auto using check_product_final_is_tile_body, quiet_check_product_final.
Qed.

(** C1, as the code has it.  A tile returned by [find_product_by_name]
    comes from the scan of one query of the product tiles, in the
    scanning loop or in the final pass.  It is the first tile of that
    query, in the order of the answer, whose title text, stripped, equals
    the target and that did not go stale while brought into view: every
    tile before it was passed over ([tile_skipped]).  After that query
    the function made no scroll step ([quiet]). *)
Theorem returned_tile_is_first_accepted (s : S) (p : node) (s' : S)
    (tr : list event) :
  find_product_by_name drv config polls product_name s = (Ok p, s', tr) ->
  accepted_in drv product_name (check_product drv config polls product_name) p s' tr
  \/ accepted_in drv product_name (check_product_final drv product_name) p s' tr.
Proof.
  unfold find_product_by_name. intros Hrun.
  apply bind_inv in Hrun as [(h & s1 & t1 & t2 & _ & H2 & ->)|(e & _ & [=])].
  apply bind_inv in H2
    as [(found & s2 & t3 & t4 & Hscan & H2 & ->)|(e & _ & [=])].
  destruct found as [p'|].
  - injection H2 as <- <- <-. rewrite app_nil_r. left.
    apply accepted_in_prefix. by apply scan_loop_found_inv in Hscan.
  - right. apply accepted_in_prefix, accepted_in_prefix.
    by apply final_check_found_inv in H2.
Qed.

Lemma scroll_steps_cons_other e tr :
  is_scroll_to (request_of e) = false ->
  scroll_steps (e :: tr) = scroll_steps tr.
Proof.
  intros He. unfold scroll_steps. rewrite filter_cons.
  destruct (decide _) as [Hd|]; [congruence | reflexivity].
Qed.

Lemma scan_loop_head remaining scroll_position last_height s :
  exists r t,
    (scan_loop drv config polls product_name (Datatypes.S remaining)
       scroll_position last_height s).2
    = Ev (FindElements product_grid_items) r :: t.
Proof.
  rewrite scan_loop_S. unfold bind at 1, driver_find_elements, call.
  destruct (find_elements drv product_grid_items s) as [[products|e] s1];
    simpl; [|eauto].
  match goal with |- context [?k s1] => destruct (k s1) as [[r s2] t2] end.
  simpl. eauto.
Qed.

Lemma scanning_over_scroll_steps post :
  scanning_over post -> scroll_steps post = 1%nat.
Proof.
  intros (r & post' & -> & Hq).
  change (Ev (ScrollTo 0) r :: post') with ([Ev (ScrollTo 0) r] ++ post').
  rewrite scroll_steps_app, (quiet_scroll_steps post' Hq). reflexivity.
Qed.

Lemma quiet_no_scroll e : quiet e -> no_scroll e.
Proof. destruct e as [q r]. unfold quiet, no_scroll. by destruct q. Qed.

Lemma scroll_targets_app t1 t2 :
  scroll_targets (t1 ++ t2) = scroll_targets t1 ++ scroll_targets t2.
Proof. apply omap_app. Qed.

Lemma scroll_targets_no_scroll tr :
  Forall no_scroll tr -> scroll_targets tr = [].
Proof.
  induction 1 as [|[q r] tr He _ IH]; [reflexivity|].
  unfold no_scroll in He. unfold scroll_targets in *. simpl in *.
  by destruct q.
Qed.

Lemma scroll_targets_quiet tr : Forall quiet tr -> scroll_targets tr = [].
Proof.
  intros Hq. apply scroll_targets_no_scroll.
  eapply Forall_impl; [exact Hq | apply quiet_no_scroll].
Qed.

(** The scroll targets of a trace made of single calls and of quiet
    parts. *)
Ltac solve_targets :=
  rewrite ?scroll_targets_app;
  repeat match goal with
         | H : Forall quiet ?t |- context [scroll_targets ?t] =>
             rewrite (scroll_targets_quiet t H)
         end;
  reflexivity.

(** The scanning loop follows [scan_run], iteration by iteration. *)
Lemma scan_loop_runs remaining scroll_position last_height s :
  exists how,
    scan_run remaining scroll_position
      (scan_loop drv config polls product_name remaining scroll_position
         last_height s).2 how
    /\ (scan_loop drv config polls product_name remaining scroll_position
          last_height s).1.1 = scan_result how.
Proof.
  revert scroll_position last_height s.
  induction remaining as [|n IH]; intros pos lh s.
  { exists Exhausted. split; [constructor | reflexivity]. }
  destruct (scan_loop drv config polls product_name (Datatypes.S n) pos lh s)
    as [[r s'] tr] eqn:Hrun.
  cbv beta iota delta [snd fst]. rewrite scan_loop_S in Hrun.
  apply bind_inv in Hrun
    as [(products & s1 & t1 & t2 & H1 & H2 & ->)|(e & H1 & ->)].
  2: { apply call_inv in H1 as [_ ->]. exists (Raised e).
       split; [|reflexivity]. apply scan_raised. by left. }
  apply call_inv in H1 as [_ ->]. cbv beta iota delta [res_map].
  destruct products as [|p products].
  - (* no tile yet *)
    apply bind_inv in H2
      as [([] & s2 & t3 & t4 & H3 & H4 & ->)|(e & H3 & ->)].
    2: { apply call_inv in H3 as [_ ->]. exists (Raised e).
         split; [|reflexivity]. apply scan_raised. by right. }
    apply call_inv in H3 as [_ ->]. cbv beta iota delta [res_map].
    assert (Hq : Forall quiet
                   (wait_for_element_present drv polls (wait_utils config)
                      product_grid_items (Some (short_timeout config)) s2).2)
      by (by apply traces_wait_for_element_present).
    apply bind_inv in H4
      as [(x & s3 & tw & t5 & H5 & H6 & ->)|(e & H5 & ->)];
      rewrite H5 in Hq; cbv beta iota delta [snd] in Hq.
    2: { exists (Raised e). split; [|reflexivity]. apply scan_raised. right.
         solve_targets. }
    destruct (IH (pos + scroll_amount) lh s3) as (how & Hruns & Hres).
    rewrite H6 in Hruns, Hres. cbv beta iota delta [snd fst] in Hruns, Hres.
    exists how. split; [|exact Hres].
    apply (scan_empty n pos tw t5 how Hq Hruns).
  - (* some tiles *)
    assert (Hqt : Forall quiet
                    (scan_tiles (check_product drv config polls product_name)
                       (p :: products) s1).2)
      by apply quiet_scan_tiles, quiet_check_product.
    apply bind_inv in H2
      as [(found & s2 & inspected & t4 & H3 & H4 & ->)|(e & H3 & ->)];
      rewrite H3 in Hqt; cbv beta iota delta [snd] in Hqt.
    2: { exists (Raised e). split; [|reflexivity]. apply scan_raised. left.
         solve_targets. }
    destruct found as [q|].
    { injection H4 as <- <- <-. rewrite app_nil_r. exists (Found q).
      split; [|reflexivity]. by apply scan_found. }
    apply bind_inv in H4
      as [([] & s3 & t5 & t6 & H5 & H6 & ->)|(e & H5 & ->)].
    2: { apply call_inv in H5 as [_ ->]. exists (Raised e).
         split; [|reflexivity]. apply scan_raised. right. solve_targets. }
    apply call_inv in H5 as [_ ->]. cbv beta iota delta [res_map].
    set (wait := try_except
                   (bind (wait_for_elements_present drv polls
                            (wait_utils config) product_grid_items
                            (Some (short_timeout config))
                            (length (p :: products)))
                      (fun _ => ret tt))
                   (is_exn TimeoutException) (fun _ => ret tt)) in H6.
    assert (Hqw : Forall quiet (wait s3).2).
    { apply traces_try; [|intros; apply traces_ret].
      apply traces_bind; [|intros; apply traces_ret].
      by apply traces_wait_for_elements_present. }
    apply bind_inv in H6
      as [([] & s4 & tw & t7 & H7 & H8 & ->)|(e & H7 & ->)];
      rewrite H7 in Hqw; cbv beta iota delta [snd] in Hqw.
    2: { exists (Raised e). split; [|reflexivity]. apply scan_raised. right.
         solve_targets. }
    apply bind_inv in H8
      as [(new_height & s5 & t8 & t9 & H9 & H10 & ->)|(e & H9 & ->)].
    2: { apply call_inv in H9 as [_ ->]. exists (Raised e).
         split; [|reflexivity]. apply scan_raised. right. solve_targets. }
    apply call_inv in H9 as [_ ->]. cbv beta iota delta [res_map].
    apply bind_inv in H10
      as [(current_scroll & s6 & t10 & t11 & H11 & H12 & ->)|(e & H11 & ->)].
    2: { apply call_inv in H11 as [_ ->]. exists (Raised e).
         split; [|reflexivity]. apply scan_raised. right. solve_targets. }
    apply call_inv in H11 as [_ ->]. cbv beta iota delta [res_map].
    destruct (Z.geb_spec (current_scroll + 500) new_height) as [Hge|Hlt].
    + injection H12 as <- <- <-. exists Bottom. split; [|reflexivity].
      apply (scan_bottom n pos (p :: products) inspected tw new_height
               current_scroll); [done | assumption | assumption | lia].
    + destruct (IH (pos + scroll_amount)
                  (if new_height >? lh then new_height else lh) s6)
        as (how & Hruns & Hres).
      rewrite H12 in Hruns, Hres.
      cbv beta iota delta [snd fst] in Hruns, Hres.
      exists how. split; [|exact Hres].
      apply (scan_on n pos (p :: products) inspected tw new_height
               current_scroll t11 how); [done | assumption..].
Qed.

(** C2, as the code has it.  [find_product_by_name] is a total function
    of the driver and its state: whatever the driver answers, it ends
    with a node or an exception after finitely many driver calls.  Its
    trace is the first height measurement, then the calls of the
    scanning loop, then those of the final pass if there is one.  The
    scanning loop runs at most [max_scrolls] = 100 iterations with one
    scroll each, the final pass scrolls once.  The loop follows
    [scan_run]: an iteration that found tiles and no match measures the
    height and the offset after its scroll and its wait, and the loop
    ends there exactly when the offset is within 500 pixels of the
    height; an iteration that found no tile measures nothing and goes
    on.  Wherever an offset within 500 pixels of the height is measured,
    scanning is over: what follows is the scroll to the top of the final
    pass and no further scroll or measurement. *)
Theorem scanning_is_bounded (s : S) :
  let tr := (find_product_by_name drv config polls product_name s).2 in
  exists r0 scan final,
    tr = Ev ScrollHeight r0 :: scan ++ final
    /\ match scroll_height drv s with
       | (Ok h, s1) =>
           scan = (scan_loop drv config polls product_name max_scrolls 0 h
                     s1).2
       | (Raise _, _) => scan = []
       end
    /\ (scroll_steps scan <= max_scrolls)%nat
    /\ (final = [] \/ scanning_over final)
    /\ (scroll_steps tr <= max_scrolls + 1)%nat
    /\ stops_at_bottom tr
    /\ match scroll_height drv s with
       | (Ok h, s1) =>
           exists how,
             scan_run max_scrolls 0 scan how
             /\ (scan_loop drv config polls product_name max_scrolls 0 h
                   s1).1.1 = scan_result how
             /\ follows (scan_result how) final
       | (Raise _, _) => final = []
       end.
Proof.
  cbv zeta. unfold find_product_by_name, bind, js_scroll_height, call.
  destruct (scroll_height drv s) as [[h|e] s1].
  2: { exists (Raise e), [], []. cbv beta iota delta [snd fst].
       repeat split; auto.
       - unfold scroll_steps. simpl. lia.
       - rewrite scroll_steps_cons_other by reflexivity.
         unfold scroll_steps. simpl. lia. }
  pose proof (steps_le_scan_loop max_scrolls 0 h s1) as Hsteps.
  pose proof (stops_in_scan_loop max_scrolls 0 h s1) as Hstops.
  pose proof (scan_loop_runs max_scrolls 0 h s1) as Hruns.
  destruct (scan_loop_head 99 0 h s1) as (rq & tq & Hhead).
  change (Datatypes.S 99) with max_scrolls in Hhead.
  destruct (scan_loop drv config polls product_name max_scrolls 0 h s1)
    as [[r s2] scan] eqn:Hscan.
  cbv beta iota delta [snd fst] in Hsteps, Hhead, Hruns.
  specialize (Hstops r s2 scan).
  assert (Hgoal : forall final,
             follows r final ->
             (final = [] \/ scanning_over final) ->
             exists r0 scan0 final0,
               Ev ScrollHeight (Ok (RInt h)) :: scan ++ final
               = Ev ScrollHeight r0 :: scan0 ++ final0
               /\ scan0 = scan
               /\ (scroll_steps scan0 <= max_scrolls)%nat
               /\ (final0 = [] \/ scanning_over final0)
               /\ (scroll_steps
                     (Ev ScrollHeight (Ok (RInt h)) :: scan ++ final)
                   <= max_scrolls + 1)%nat
               /\ stops_at_bottom
                    (Ev ScrollHeight (Ok (RInt h)) :: scan ++ final)
               /\ exists how,
                    scan_run max_scrolls 0 scan0 how
                    /\ r = scan_result how
                    /\ follows (scan_result how) final0).
  { intros final Hfollows Hfinal.
    exists (Ok (RInt h)), scan, final.
    split; [reflexivity|]. split; [reflexivity|].
    split; [assumption|]. split; [assumption|]. split; [|split].
    - rewrite scroll_steps_cons_other by reflexivity.
      rewrite scroll_steps_app.
      assert (scroll_steps final <= 1)%nat.
      { destruct Hfinal as [->|Hover]; [unfold scroll_steps; simpl; lia|].
        rewrite (scanning_over_scroll_steps _ Hover). lia. }
      lia.
    - split; [by rewrite Hhead | by apply Hstops].
    - destruct Hruns as (how & Hrun & Hres). exists how.
      split; [assumption|]. split; [assumption|]. by rewrite <- Hres. }
  destruct r as [[p|]|e]; cbv beta iota delta [snd fst ret res_map].
  - apply Hgoal; [reflexivity | by left].
  - pose proof (final_check_scanning_over s2) as Hover.
    destruct (final_check drv config polls product_name s2)
      as [[r' s3] final].
    apply Hgoal; [exact Hover | by right].
  - specialize (Hgoal [] eq_refl (or_introl eq_refl)).
    rewrite app_nil_r in Hgoal. exact Hgoal.
Qed.


Lemma call_run {A} q (inj : A -> reply) (op : S -> res A * S) s r s' :
  op s = (r, s') -> call q inj op s = (r, s', [Ev q (res_map inj r)]).
Proof. intros Hop. unfold call. by rewrite Hop. Qed.

(** C3, as the code has it.  When the scanning loop ends without a match,
    the function scrolls to the top and waits for the grid to hold a
    tile.  If both succeed, it queries the tiles once more and scans
    them, without any further scroll: it returns the first tile whose
    title is the target and that does not go stale while brought into
    view, and it raises [NoSuchElementException] exactly when every tile
    of that query is passed over ([tile_skipped]: title missing or stale,
    title different, or stale while brought into view). *)
Theorem final_pass_after_exhaustion (s : S) (h : Z) (s1 s2 : S)
    (scan : list event) (s3 : S) (w : list node) (s4 : S)
    (tw : list event) (products : list node) (s5 : S) :
  scroll_height drv s = (Ok h, s1) ->
  scan_loop drv config polls product_name max_scrolls 0 h s1
  = (Ok None, s2, scan) ->
  scroll_to drv 0 s2 = (Ok tt, s3) ->
  wait_for_elements_present drv polls (wait_utils config) product_grid_items
    (Some (short_timeout config)) 1 s3 = (Ok w, s4, tw) ->
  find_elements drv product_grid_items s4 = (Ok products, s5) ->
  final_pass_outcome drv config polls product_name s h scan tw products s5.
Proof.
  intros Hh Hscan Hscroll Hwait Hfind. unfold final_pass_outcome.
  set (final := check_product_final drv product_name).
  apply (call_run ScrollHeight RInt) in Hh.
  apply (call_run (ScrollTo 0) (fun _ => RNone)) in Hscroll.
  apply (call_run (FindElements product_grid_items) RNodes) in Hfind.
  pose proof (traces_wait_for_elements_present drv polls quiet
                (wait_utils config) product_grid_items
                (Some (short_timeout config)) 1%nat
                ltac:(by intros) s3) as Hqw.
  rewrite Hwait in Hqw. simpl in Hqw.
  pose proof (quiet_scan_tiles final products
                (quiet_check_product_final) s5) as Hqp.
  destruct (scan_tiles final products s5) as [[rs s'] pass] eqn:Hs.
  simpl in Hqp.
  pose proof (scan_tiles_inv final check_product_final_is_tile_body
                _ _ _ _ _ Hs) as Hinv.
  assert (Hrun : forall r,
             r = match rs with
                 | Ok (Some p) => Ok p
                 | Ok None => Raise NoSuchElementException
                 | Raise e => Raise e
                 end ->
             find_product_by_name drv config polls product_name s
             = (r, s',
                Ev ScrollHeight (Ok (RInt h)) :: scan
                  ++ Ev (ScrollTo 0) (Ok RNone) :: tw
                  ++ Ev (FindElements product_grid_items)
                       (Ok (RNodes products)) :: pass)).
  { intros r ->. unfold find_product_by_name, final_check, bind.
    fold final.
    unfold js_scroll_height, js_scroll_to, driver_find_elements.
    rewrite Hh, Hscan, Hscroll, Hwait, Hfind, Hs. simpl.
    destruct rs as [[p|]|e]; simpl; by rewrite ?app_nil_r. }
  assert (Hfinal : scan_tiles final products s5 = (rs, s', pass))
    by exact Hs.
  assert (Hall : all_skipped drv product_name final products s5 s' pass -> rs = Ok None).
  { intros Hall. apply (scan_tiles_all_skipped final) in Hall;
      [congruence | apply check_product_final_is_tile_body]. }
  destruct rs as [[p|]|e].
  - exists (Ok p), s', pass. split; [by apply Hrun|].
    split; [assumption|]. split; [assumption|]. split.
    + intros p' [= <-]. destruct Hinv as (before & after & sb & t1 & t2 & H).
      exists before, after, sb, t1, t2. tauto.
    + split; [discriminate|]. intros H. by apply Hall in H.
  - exists (Raise NoSuchElementException), s', pass.
    split; [by apply Hrun|].
    split; [assumption|]. split; [assumption|]. split.
    + intros p [=].
    + split; [intros _; exact Hinv | reflexivity].
  - exists (Raise e), s', pass. split; [by apply Hrun|].
    split; [assumption|]. split; [assumption|]. split.
    + intros p [=].
    + split; [intros [= ->]; discriminate|]. intros H. by apply Hall in H.
Qed.

End LocatorFacts.

(** ** Test data *)

Section DataFacts.

Lemma validate_test_data_true (test_data : gmap string json)
    (required_keys : list string) :
  validate_test_data test_data required_keys = true
  <-> forall key, key ∈ required_keys -> is_Some (test_data !! key).
Proof.
  unfold validate_test_data.
  induction required_keys as [|k ks IH].
  - split; [|done]. intros _ key Hin. by apply elem_of_nil in Hin.
  - rewrite filter_cons. destruct (decide (k ∉ dom test_data)) as [Hk|Hk].
    + split; [done|]. intros Hall. exfalso. apply Hk.
      apply elem_of_dom, Hall. by left.
    + rewrite IH. apply dec_stable in Hk. apply elem_of_dom in Hk.
      split.
      * intros Hall key [->|Hin]%elem_of_cons; auto.
      * intros Hall key Hin. apply Hall. by right.
Qed.

Lemma validate_test_data_missing (test_data : gmap string json)
    (required_keys : list string) (key : string) :
  key ∈ required_keys -> test_data !! key = None ->
  validate_test_data test_data required_keys = false.
Proof.
  intros Hin Hnone.
  destruct (validate_test_data test_data required_keys) eqn:Hv; [|done].
  rewrite validate_test_data_true in Hv. destruct (Hv key Hin). congruence.
Qed.

(** With distinct keys, the [dict] of an object holds each of its
    pairs. *)
Lemma to_dict_lookup (d : list (string * json)) (k : string) (v : json) :
  NoDup d.*1 -> (k, v) ∈ d -> to_dict d !! k = Some v.
Proof.
  intros Hnd Hin. unfold to_dict.
  apply elem_of_list_to_map_1.
  - by rewrite fmap_reverse, reverse_Permutation.
  - by apply elem_of_reverse.
Qed.

Lemma to_dict_lookup_None (d : list (string * json)) (k : string) :
  k ∉ d.*1 -> to_dict d !! k = None.
Proof.
  intros Hk. unfold to_dict. apply not_elem_of_list_to_map_1.
  by rewrite fmap_reverse, elem_of_reverse.
Qed.

(** A later pair replaces an earlier one. *)
Lemma to_dict_last (d : list (string * json)) (k : string) (v : json) :
  to_dict (d ++ [(k, v)]) !! k = Some v.
Proof.
  unfold to_dict. rewrite reverse_app. simpl. apply lookup_insert_eq.
Qed.

(** C8, as the code has it.  The data file is a JSON object; what
    [load_test_data] looks at is the value of its ["data"] member, the
    empty list standing in when there is no such member.  It returns
    that value when it has a length - a list of records, as intended, but
    also a string or an object - and raises [TypeError] when it has none:
    [null], a number, a boolean.  The path is the argument, or the
    configured one when the argument is [None]. *)
Theorem load_test_data_reads_data_member (fs : filesystem) (config : Config)
    (file_path : option string) (d : list (string * json)) :
  fs (default (test_data_path config) file_path) = Some (Parsed (JDict d)) ->
  load_test_data fs config file_path
  = (let member := default (JList []) (to_dict d !! "data") in
     if has_len member then Ok member else Raise TypeError)
  /\ (forall records,
        NoDup d.*1 -> ("data", JList records) ∈ d ->
        load_test_data fs config file_path = Ok (JList records))
  /\ ("data" ∉ d.*1 -> load_test_data fs config file_path = Ok (JList []))
  /\ (forall member,
        NoDup d.*1 -> ("data", member) ∈ d ->
        load_test_data fs config file_path
        = if has_len member then Ok member else Raise TypeError).
Proof.
  intros Hfile.
  assert (Hload : load_test_data fs config file_path
                  = (let member := default (JList []) (to_dict d !! "data") in
                     if has_len member then Ok member else Raise TypeError)).
  { unfold load_test_data. destruct file_path as [p|]; simpl in *;
      by rewrite Hfile. }
  split; [exact Hload|]. split; [|split].
  - intros records Hnd Hin.
    by rewrite Hload, (to_dict_lookup d _ (JList records)).
  - intros Hnot. by rewrite Hload, to_dict_lookup_None.
  - intros member Hnd Hin. by rewrite Hload, (to_dict_lookup d _ member).
Qed.

End DataFacts.

(** ** The scenario and the sign-in check *)

Section ScenarioFacts.

Context {S : Type}.
Variable drv : Driver S.
Variable config : Config.
Variable polls : Z -> nat.
Variable steps_2_to_7 : gmap string json -> string -> M S unit.

(** C6.  [validate_test_data] says [True] exactly when every required
    key is a key of the record.  The scenario asserts it on
    [TEST_DATA_KEYS] first: for a record that lacks one of these keys the
    test ends in [AssertionError] with the driver untouched - same state,
    no call.  For a valid record the first driver call is the navigation
    to the base URL. *)
Theorem validation_gates_the_scenario (test_data : gmap string json)
    (required_keys : list string) (s : S) :
  (validate_test_data test_data required_keys = true
   <-> forall key, key ∈ required_keys -> is_Some (test_data !! key))
  /\ ((exists key, key ∈ TEST_DATA_KEYS /\ test_data !! key = None) ->
      test_bluebella_e2e_shopping_flow drv config polls steps_2_to_7
        test_data s
      = (Raise AssertionError, s, []))
  /\ ((forall key, key ∈ TEST_DATA_KEYS -> is_Some (test_data !! key)) ->
      exists r t,
        (test_bluebella_e2e_shopping_flow drv config polls steps_2_to_7
           test_data s).2
        = Ev (Get (base_url config)) r :: t).
Proof.
  split; [apply validate_test_data_true|]. split.
  - intros (key & Hin & Hnone). unfold test_bluebella_e2e_shopping_flow.
    by rewrite (validate_test_data_missing _ _ key).
  - intros Hall. apply validate_test_data_true in Hall.
    unfold test_bluebella_e2e_shopping_flow. rewrite Hall.
    unfold navigate_to, bind at 1 2, driver_get, call.
    destruct (get drv (base_url config) s) as [[[]|e] s1]; simpl; [|eauto].
    match goal with
    | |- context [wait_for_page_load ?d ?p s1] =>
        destruct (wait_for_page_load d p s1) as [[[[]|e] s2] t2]
    end; simpl; [|eauto].
    match goal with |- context [?k s2] => destruct (k s2) as [[r3 s3] t3] end.
    simpl. eauto.
Qed.

Lemma prefix_spec (p s : string) :
  String.prefix p s = true <-> exists rest, s = p +:+ rest.
Proof.
  revert s. induction p as [|c p IH]; intros s; simpl.
  - split; [intros _; by exists s | by destruct s].
  - destruct s as [|c' s]; simpl; [split; [done | intros (rest & [=])]|].
    destruct (Ascii.ascii_dec c c') as [<-|Hne].
    + rewrite IH. split; intros (rest & Hrest); exists rest.
      * by rewrite Hrest.
      * by injection Hrest.
    + split; [done|]. intros (rest & [= ? _]). congruence.
Qed.

Lemma navigate_to_trace url s :
  exists r t,
    (navigate_to drv polls url s).2 = Ev (Get url) r :: t
    /\ Forall (fun e => is_get (request_of e) = false) t.
Proof.
  unfold navigate_to, bind, driver_get, call.
  destruct (get drv url s) as [[[]|e] s1]; simpl.
  2: { eexists _, []. split; [reflexivity | constructor]. }
  assert (Hq : traces_in (fun e => is_get (request_of e) = false)
                 (wait_for_page_load drv polls)).
  { apply traces_try; [|intros; apply traces_ret].
    apply traces_until_loop, traces_bind; [by apply traces_call|].
    intros; apply traces_ret. }
  specialize (Hq s1).
  destruct (wait_for_page_load drv polls s1) as [[r s2] t2].
  eexists _, t2. split; [reflexivity | assumption].
Qed.

(** C10.  [is_signed_in] reads the current URL and says whether it
    starts with the literal ["https://www.bluebella.com/account"]; it has
    no access to the configuration.  [navigate_back_to_homepage] asks
    the driver to navigate - once, to the given URL - when the answer is
    [True]; otherwise, and when the URL cannot be read, its only driver
    call is the read of the URL. *)
Theorem signed_in_iff_account_prefix (original_url : string) (s : S) :
  match current_url drv s with
  | (Ok u, s1) =>
      let read := Ev CurrentUrl (Ok (RStr u)) in
      exists b,
        is_signed_in drv s = (Ok b, s1, [read])
        /\ (b = true
            <-> exists rest, u = "https://www.bluebella.com/account" +:+ rest)
        /\ if b then
             exists r t,
               (navigate_back_to_homepage drv polls original_url s).2
               = read :: Ev (Get original_url) r :: t
               /\ Forall (fun e => is_get (request_of e) = false) t
           else
             navigate_back_to_homepage drv polls original_url s
             = (Ok tt, s1, [read])
  | (Raise e, s1) =>
      is_signed_in drv s = (Raise e, s1, [Ev CurrentUrl (Raise e)])
      /\ navigate_back_to_homepage drv polls original_url s
         = (Raise e, s1, [Ev CurrentUrl (Raise e)])
  end.
Proof.
  unfold navigate_back_to_homepage, is_signed_in, get_current_url,
    driver_current_url, bind, call.
  destruct (current_url drv s) as [[u|e] s1]; simpl; [|done].
  exists (String.prefix "https://www.bluebella.com/account" u).
  split; [reflexivity|]. split; [apply prefix_spec|].
  destruct (String.prefix _ u); [|reflexivity].
  destruct (navigate_to_trace original_url s1) as (r & t & Ht & Hq).
  destruct (navigate_to drv polls original_url s1) as [[r2 s2] t2].
  simpl in *. subst t2. eauto.
Qed.

End ScenarioFacts.

(** ** More on the wait policy *)

Section MoreWaitFacts.

Context {S : Type}.
Variable drv : Driver S.
Variable config : Config.
Variable polls : Z -> nat.

(** A wait that returns was answered by its last poll. *)
Lemma until_loop_ok_inv {A} (method : M S (option A)) budget s a s' tr :
  until_loop method budget s = (Ok a, s', tr) ->
  exists s0 pre t0, method s0 = (Ok (Some a), s', t0) /\ tr = pre ++ t0.
Proof.
  revert s tr. induction budget as [|budget IH]; intros s tr Hrun;
    simpl in Hrun;
    apply bind_inv in Hrun
      as [(v & s1 & t1 & t2 & H1 & H2 & ->)|(e & _ & [=])];
    (apply try_except_inv in H1
      as [(v' & Hm & [= <-])|[(e & _ & _ & [=])
                             |(e & s2 & t3 & t4 & Hm & _ & [= <- <- <-] & ->)]]).
  - destruct v as [a'|]; [|discriminate].
    injection H2 as <- <- <-. exists s, [], t1. by rewrite app_nil_r.
  - discriminate.
  - destruct v as [a'|].
    + injection H2 as <- <- <-. exists s, [], t1. by rewrite app_nil_r.
    + apply IH in H2 as (s0 & pre & t0 & Hm0 & ->).
      exists s0, (t1 ++ pre), t0. by rewrite app_assoc.
  - apply IH in H2 as (s0 & pre & t0 & Hm0 & ->).
    exists s0, ((t3 ++ []) ++ pre), t0. by rewrite app_assoc.
Qed.

(** A wait raises [TimeoutException] or what its condition raised, and
    that is never [NoSuchElementException]. *)
Lemma until_loop_raise_inv {A} (method : M S (option A)) budget s e s' tr :
  until_loop method budget s = (Raise e, s', tr) ->
  e = TimeoutException
  \/ (e <> NoSuchElementException
      /\ exists s0 t0, method s0 = (Raise e, s', t0)).
Proof.
  revert s tr. induction budget as [|budget IH]; intros s tr Hrun;
    simpl in Hrun;
    (apply bind_inv in Hrun
      as [(v & s1 & t1 & t2 & H1 & H2 & ->)|(e' & H1 & [= <-])]).
  - destruct v as [a'|]; [discriminate|]. injection H2 as <- _ _. by left.
  - apply try_except_inv in H1
      as [(v' & _ & [=])|[(e' & Hm & He & [= <-])
                         |(e' & s2 & t3 & t4 & _ & _ & [=] & _)]].
    right. split; [|eauto]. intros ->. discriminate.
  - destruct v as [a'|]; [discriminate|]. by apply IH in H2.
  - apply try_except_inv in H1
      as [(v' & _ & [=])|[(e' & Hm & He & [= <-])
                         |(e' & s2 & t3 & t4 & _ & _ & [=] & _)]].
    right. split; [|eauto]. intros ->. discriminate.
Qed.

(** A condition that holds at the first poll ends the wait there. *)
Lemma until_loop_first {A} (method : M S (option A)) budget s a s1 t :
  method s = (Ok (Some a), s1, t) ->
  until_loop method budget s = (Ok a, s1, t).
Proof.
  intros Hm. destruct budget; simpl; unfold bind, try_except;
    rewrite Hm; simpl; by rewrite app_nil_r.
Qed.

(** A wait polls at most once more than its budget. *)
Lemma until_loop_length {A} (method : M S (option A)) k budget s :
  (forall s0, length (method s0).2 <= k)%nat ->
  (length (until_loop method budget s).2 <= (budget + 1) * k)%nat.
Proof.
  intros Hk. revert s. induction budget as [|budget IH]; intros s; simpl;
    unfold bind, try_except; pose proof (Hk s) as Hs;
    destruct (method s) as [[[[a|]|e] s1] t1]; simpl in *;
    rewrite ?app_nil_r; try lia.
  - destruct (is_exn NoSuchElementException e); simpl;
      rewrite ?app_nil_r; lia.
  - specialize (IH s1).
    destruct (until_loop method budget s1) as [[r s2] t2]; simpl in *.
    rewrite length_app. lia.
  - destruct (is_exn NoSuchElementException e); simpl; [|lia].
    specialize (IH s1).
    destruct (until_loop method budget s1) as [[r s2] t2]; simpl in *.
    rewrite !length_app. simpl. lia.
Qed.

Lemma try_except_ret_not_raised {A} (m : M S A) e0 (x : A) s e s' tr :
  try_except m (is_exn e0) (fun _ => ret x) s = (Raise e, s', tr) ->
  e <> e0 /\ m s = (Raise e, s', tr).
Proof.
  intros Hrun. apply try_except_inv in Hrun
    as [(a & _ & [=])|[(e' & Hm & He & [= <-])
                      |(e' & s1 & t1 & t2 & _ & _ & [=] & _)]].
  split; [|assumption]. intros ->. unfold is_exn in He.
  by rewrite bool_decide_true in He.
Qed.

Lemma find_elements_poll_inv l s els s' t :
  bind (driver_find_elements drv l) (fun ns => ret (truthy_list ns)) s
  = (Ok (Some els), s', t) ->
  els <> [] /\ find_elements drv l s = (Ok els, s')
  /\ t = [Ev (FindElements l) (Ok (RNodes els))].
Proof.
  intros Hrun. apply bind_inv in Hrun
    as [(ns & s1 & t1 & t2 & H1 & H2 & ->)|(e & _ & [=])].
  apply call_inv in H1 as [Hfind ->].
  destruct ns as [|n ns]; [discriminate|]. injection H2 as <- <- <-.
  split; [discriminate|]. split; [assumption | reflexivity].
Qed.

(** What [wait_for_elements_present] returns. *)
Lemma wait_for_elements_present_ok_inv self l timeout min_count s els s' tr :
  wait_for_elements_present drv polls self l timeout min_count s
  = (Ok els, s', tr) ->
  els <> [] /\ (min_count <= length els)%nat
  /\ exists s0 pre,
       find_elements drv l s0 = (Ok els, s')
       /\ tr = pre ++ [Ev (FindElements l) (Ok (RNodes els))].
Proof.
  unfold wait_for_elements_present. rewrite log_and_reraise_id.
  intros Hrun. apply bind_inv in Hrun
    as [(els0 & s1 & t1 & t2 & H1 & H2 & ->)|(e & _ & [=])].
  destruct (Nat.leb_spec min_count (length els0)) as [Hle|]; [|discriminate].
  injection H2 as <- <- <-.
  apply until_loop_ok_inv in H1 as (s0 & pre & t0 & Hm & ->).
  apply find_elements_poll_inv in Hm as (Hne & Hfind & ->).
  split; [assumption|]. split; [assumption|].
  exists s0, pre. by rewrite app_nil_r.
Qed.

(** X1.  What [wait_for_elements_present] returns is never empty, has
    at least [min_count] elements, and is the answer of its last poll. *)
Theorem wait_for_elements_present_returns_enough (self : WaitUtils)
    (l : locator) (timeout : option Z) (min_count : nat) (s : S)
    (els : list node) (s' : S) (tr : list event) :
  wait_for_elements_present drv polls self l timeout min_count s
  = (Ok els, s', tr) ->
  els <> [] /\ (min_count <= length els)%nat
  /\ exists s0 pre,
       find_elements drv l s0 = (Ok els, s')
       /\ tr = pre ++ [Ev (FindElements l) (Ok (RNodes els))].
Proof. apply wait_for_elements_present_ok_inv. Qed.

(** X2.  A wait whose condition holds at the first poll returns with
    that poll as its only driver activity, whatever the timeout. *)
Theorem waits_return_at_first_poll (self : WaitUtils) (l : locator)
    (timeout : option Z) (min_count : nat) (s s1 : S) :
  (forall n, find_element drv l s = (Ok n, s1) ->
     wait_for_element_present drv polls self l timeout s
     = (Ok n, s1, [Ev (FindElement l) (Ok (RNode n))]))
  /\ (forall n s2,
        find_element drv l s = (Ok n, s1) ->
        is_displayed drv n s1 = (Ok true, s2) ->
        wait_for_element_visible drv polls self l timeout s
        = (Ok n, s2, [Ev (FindElement l) (Ok (RNode n));
                      Ev (IsDisplayed n) (Ok (RBool true))]))
  /\ (forall els,
        find_elements drv l s = (Ok els, s1) ->
        els <> [] -> (min_count <= length els)%nat ->
        wait_for_elements_present drv polls self l timeout min_count s
        = (Ok els, s1, [Ev (FindElements l) (Ok (RNodes els))])).
Proof.
  split; [|split].
  - intros n Hfind. unfold wait_for_element_present.
    rewrite log_and_reraise_id. apply until_loop_first.
    unfold presence_of_element_located, bind, driver_find_element, call.
    by rewrite Hfind.
  - intros n s2 Hfind Hdisp. unfold wait_for_element_visible.
    rewrite log_and_reraise_id. apply until_loop_first.
    unfold visibility_of_element_located, try_except, element_if_visible,
      bind, driver_find_element, element_is_displayed, call.
    by rewrite Hfind, Hdisp.
  - intros els Hfind Hne Hle. unfold wait_for_elements_present.
    rewrite log_and_reraise_id.
    assert (Hpoll : until polls (py_or timeout (wu_timeout self))
                      (bind (driver_find_elements drv l)
                         (fun ns => ret (truthy_list ns))) s
                    = (Ok els, s1, [Ev (FindElements l) (Ok (RNodes els))])).
    { apply until_loop_first. unfold bind, driver_find_elements, call.
      rewrite Hfind. by destruct els. }
    rewrite (bind_ok _ _ _ _ _ _ Hpoll).
    destruct (Nat.leb_spec min_count (length els)) as [_|Hlt]; [|lia].
    reflexivity.
Qed.

(** X3.  The driver calls of a wait are bounded by its poll budget:
    one call per poll for presence and for the element count, two for
    visibility, three for clickability. *)
Theorem waits_poll_bounded (self : WaitUtils) (l : locator)
    (timeout : option Z) (min_count : nat) (s : S) :
  let budget := polls (py_or timeout (wu_timeout self)) in
  (length (wait_for_element_present drv polls self l timeout s).2
   <= budget + 1)%nat
  /\ (length (wait_for_elements_present drv polls self l timeout min_count
                s).2 <= budget + 1)%nat
  /\ (length (wait_for_element_visible drv polls self l timeout s).2
      <= 2 * (budget + 1))%nat
  /\ (length (wait_for_element_clickable drv polls self l timeout s).2
      <= 3 * (budget + 1))%nat.
Proof.
  intros budget.
  split; [|split; [|split]].
  - unfold wait_for_element_present. rewrite log_and_reraise_id.
    etransitivity; [apply (until_loop_length _ 1)|lia].
    intros s0. unfold presence_of_element_located, bind, driver_find_element,
      call.
    destruct (find_element drv l s0) as [[n|e] s1]; simpl; lia.
  - unfold wait_for_elements_present. rewrite log_and_reraise_id.
    unfold bind at 1.
    assert (Hpoll : forall s0 : S,
               (length (bind (driver_find_elements drv l)
                          (fun ns => ret (truthy_list ns)) s0).2 <= 1)%nat).
    { intros s0. unfold bind, driver_find_elements, call.
      destruct (find_elements drv l s0) as [[ns|e] s2]; simpl; lia. }
    pose proof (until_loop_length _ 1 budget s Hpoll) as Hlen.
    unfold until. fold budget.
    destruct (until_loop _ budget s) as [[[els|e] s1] t1]; simpl in *;
      [|lia].
    destruct (_ <=? _)%nat; simpl; rewrite app_nil_r; lia.
  - unfold wait_for_element_visible. rewrite log_and_reraise_id.
    etransitivity; [apply (until_loop_length _ 2)|lia].
    intros s0. unfold visibility_of_element_located, try_except,
      element_if_visible, bind, driver_find_element, element_is_displayed,
      call.
    destruct (find_element drv l s0) as [[n|e] s1]; simpl.
    + destruct (is_displayed drv n s1) as [[d|e] s2]; simpl; [lia|].
      destruct (is_exn _ e); simpl; lia.
    + destruct (is_exn _ e); simpl; lia.
  - unfold wait_for_element_clickable. rewrite log_and_reraise_id.
    etransitivity; [apply (until_loop_length _ 3)|lia].
    intros s0. unfold element_to_be_clickable, element_if_visible, bind,
      driver_find_element, element_is_displayed, element_is_enabled, call.
    destruct (find_element drv l s0) as [[n|e] s1]; simpl; [|lia].
    destruct (is_displayed drv n s1) as [[[|]|e] s2]; simpl; try lia.
    destruct (is_enabled drv n s2) as [[en|e] s3]; simpl; lia.
Qed.

Lemma until_not_raised {A} (method : M S (option A)) e0 timeout s :
  e0 <> TimeoutException ->
  (forall s0, (method s0).1.1 <> Raise e0) ->
  (until polls timeout method s).1.1 <> Raise e0.
Proof.
  intros Hne Hm. unfold until.
  destruct (until_loop method (polls timeout) s) as [[[a|e] s1] t1] eqn:Hrun;
    simpl; [discriminate|].
  intros [= ->].
  apply until_loop_raise_inv in Hrun as [->|(_ & s0 & t0 & Hraise)];
    [done|].
  apply (Hm s0). by rewrite Hraise.
Qed.

Lemma until_not_no_such {A} (method : M S (option A)) timeout s :
  (until polls timeout method s).1.1 <> Raise NoSuchElementException.
Proof.
  unfold until.
  destruct (until_loop method (polls timeout) s) as [[[a|e] s1] t1] eqn:Hrun;
    simpl; [discriminate|].
  intros [= ->].
  by apply until_loop_raise_inv in Hrun as [[=]|(Hne & _)].
Qed.

Lemma try_except_ret_never {A} (m : M S A) e0 (x : A) s :
  (try_except m (is_exn e0) (fun _ => ret x) s).1.1 <> Raise e0.
Proof.
  destruct (try_except _ _ _ s) as [[[a|e] s1] t1] eqn:Hrun; simpl;
    [discriminate|].
  apply try_except_ret_not_raised in Hrun as [Hne _]. congruence.
Qed.

(** X4.  A missing element is never reported as such by the waits for
    an element: the waits for presence, for clickability, for a number
    of elements, for visibility and for a text never raise
    [NoSuchElementException], and the last two do not raise
    [StaleElementReferenceException] either; these cases end in
    [TimeoutException] or in the value waited for.
    [wait_for_url_contains] is the exception: it reads the URL once more
    for its log message after the wait has returned, and a
    [NoSuchElementException] that leaves it is the one this last read
    raised. *)
Theorem waits_never_report_missing_elements (self : WaitUtils) (l : locator)
    (text : string) (timeout : option Z) (min_count : nat) (s : S) :
  (wait_for_element_present drv polls self l timeout s).1.1
  <> Raise NoSuchElementException
  /\ (wait_for_element_clickable drv polls self l timeout s).1.1
     <> Raise NoSuchElementException
  /\ (wait_for_elements_present drv polls self l timeout min_count s).1.1
     <> Raise NoSuchElementException
  /\ (wait_for_element_visible drv polls self l timeout s).1.1
     <> Raise NoSuchElementException
  /\ (wait_for_element_visible drv polls self l timeout s).1.1
     <> Raise StaleElementReferenceException
  /\ (wait_for_text_in_element drv polls self l text timeout s).1.1
     <> Raise NoSuchElementException
  /\ (wait_for_text_in_element drv polls self l text timeout s).1.1
     <> Raise StaleElementReferenceException
  /\ (forall s' tr,
        wait_for_url_contains drv polls self text timeout s
        = (Raise NoSuchElementException, s', tr) ->
        exists s0 pre,
          until polls (py_or timeout (wu_timeout self))
            (url_contains drv text) s = (Ok tt, s0, pre)
          /\ current_url drv s0 = (Raise NoSuchElementException, s')
          /\ tr = pre ++ [Ev CurrentUrl (Raise NoSuchElementException)]).
Proof.
  unfold wait_for_element_present, wait_for_element_clickable,
    wait_for_elements_present, wait_for_url_contains,
    wait_for_element_visible, wait_for_text_in_element.
  rewrite !log_and_reraise_id.
  repeat split; try apply until_not_no_such.
  - unfold bind.
    pose proof (until_not_no_such
                  (bind (driver_find_elements drv l)
                     (fun ns => ret (truthy_list ns)))
                  (py_or timeout (wu_timeout self)) s) as Hu.
    destruct (until _ _ _ s) as [[[els|e] s1] t1]; simpl in *; [|assumption].
    destruct (_ <=? _)%nat; simpl; discriminate.
  - apply until_not_raised; [discriminate|]. intros s0.
    apply try_except_ret_never.
  - apply until_not_raised; [discriminate|]. intros s0.
    apply try_except_ret_never.
  - intros s' tr Hrun.
    pose proof (until_not_no_such (url_contains drv text)
                  (py_or timeout (wu_timeout self)) s) as Hu.
    apply bind_inv in Hrun
      as [([] & s0 & pre & t2 & H1 & H2 & ->)|(e & H1 & [= <-])].
    2: { rewrite H1 in Hu. done. }
    exists s0, pre. split; [exact H1|].
    apply bind_inv in H2
      as [(url & s2 & t3 & t4 & _ & [=] & _)|(e & H3 & [= <-])].
    apply call_inv in H3 as [Hurl ->]. split; [exact Hurl | reflexivity].
Qed.

(** X6.  [wait_for_page_load] never raises, and makes at most one more
    poll than ten seconds allow; so [navigate_to] raises exactly when
    [driver.get] does, with that call as its only driver activity. *)
Theorem page_load_wait_never_raises (url : string) (s : S) :
  (wait_for_page_load drv polls s).1.1 = Ok tt
  /\ (length (wait_for_page_load drv polls s).2 <= polls 10 + 1)%nat
  /\ match get drv url s with
     | (Ok _, _) => (navigate_to drv polls url s).1.1 = Ok tt
     | (Raise e, s1) =>
         navigate_to drv polls url s = (Raise e, s1, [Ev (Get url) (Raise e)])
     end.
Proof.
  assert (Hload : forall s0, (wait_for_page_load drv polls s0).1.1 = Ok tt).
  { intros s0. unfold wait_for_page_load, try_except.
    destruct (until _ _ _ s0) as [[[[]|e] s1] t1]; reflexivity. }
  split; [apply Hload|]. split.
  - unfold wait_for_page_load, try_except, until.
    match goal with
    | |- context [until_loop ?m ?b s] =>
        pose proof (until_loop_length m 1 b s) as Hlen
    end.
    destruct (until_loop _ _ s) as [[[[]|e] s1] t1]; simpl in *;
      rewrite ?app_nil_r; (etransitivity; [apply Hlen|lia]);
      intros s0; unfold bind, js_ready_state, call;
      destruct (ready_state drv s0) as [[st|e'] s2]; simpl; lia.
  - unfold navigate_to, bind, driver_get, call.
    destruct (get drv url s) as [[[]|e] s1]; [|reflexivity].
    specialize (Hload s1).
    by destruct (wait_for_page_load drv polls s1) as [[r s2] t2].
Qed.

(** [safe_find_element] with a timeout that is not zero is the wait
    behind [is_element_present]. *)
Lemma safe_find_element_run (l : locator) (timeout : Z) (s : S) :
  safe_find_element drv polls l timeout s
  = match until polls timeout (presence_of_element_located drv l) s with
    | (Ok n, s1, t1) => (Ok (Some n), s1, t1)
    | (Raise TimeoutException, s1, t1) => (Ok None, s1, t1)
    | (Raise e, s1, t1) => (Raise e, s1, t1)
    end.
Proof.
  unfold safe_find_element, try_except, bind.
  destruct (until _ _ _ s) as [[[n|e] s1] t1]; simpl.
  - by rewrite app_nil_r.
  - destruct e; simpl; try reflexivity. by rewrite app_nil_r.
Qed.

(** X5.  [safe_find_element] finds an element exactly when
    [is_element_present] says [True], for a timeout that is not zero:
    same answer, same driver state, same driver calls.  It never raises
    [TimeoutException] nor [NoSuchElementException]. *)
Theorem safe_find_element_agrees_with_is_element_present (self : WaitUtils)
    (l : locator) (timeout : Z) (s : S) :
  timeout <> 0 ->
  is_element_present drv polls self l timeout s
  = match safe_find_element drv polls l timeout s with
    | (Ok (Some _), s1, t1) => (Ok true, s1, t1)
    | (Ok None, s1, t1) => (Ok false, s1, t1)
    | (Raise e, s1, t1) => (Raise e, s1, t1)
    end
  /\ (safe_find_element drv polls l timeout s).1.1 <> Raise TimeoutException
  /\ (safe_find_element drv polls l timeout s).1.1
     <> Raise NoSuchElementException.
Proof.
  intros Hne. rewrite safe_find_element_run.
  pose proof (until_not_no_such (presence_of_element_located drv l)
                timeout s) as Hns.
  assert (His : is_element_present drv polls self l timeout s
                = match wait_for_element_present drv polls self l
                          (Some timeout) s with
                  | (Ok _, s1, t1) => (Ok true, s1, t1)
                  | (Raise TimeoutException, s1, t1) => (Ok false, s1, t1)
                  | (Raise e, s1, t1) => (Raise e, s1, t1)
                  end) by apply timeout_to_bool.
  rewrite His. unfold wait_for_element_present.
  rewrite log_and_reraise_id. simpl py_or.
  destruct (Z.eqb_spec timeout 0) as [|_]; [contradiction|].
  destruct (until polls timeout _ s) as [[[n|e] s1] t1]; simpl in *.
  - repeat split; discriminate.
  - destruct e; simpl; repeat split; congruence.
Qed.

End MoreWaitFacts.

(** ** Clicks *)

Section ClickFacts.

Context {S : Type}.
Variable drv : Driver S.
Variable config : Config.
Variable polls : Z -> nat.

Lemma no_click_wait_for_element_clickable self l timeout :
  traces_in no_click (wait_for_element_clickable drv polls self l timeout).
Proof.
  apply traces_log_and_reraise, traces_until_loop.
  apply traces_bind; [by apply traces_call|]. intros target.
  apply traces_bind.
  { apply traces_bind; [by apply traces_call | intros; apply traces_ret]. }
  intros [n|]; [|apply traces_ret].
  apply traces_bind; [by apply traces_call | intros; apply traces_ret].
Qed.

Lemma no_click_is_element_visible self l timeout :
  traces_in no_click (is_element_visible drv polls self l timeout).
Proof.
  apply traces_try; [|intros; apply traces_ret].
  apply traces_bind; [|intros; apply traces_ret].
  apply traces_log_and_reraise, traces_until_loop, traces_try;
    [|intros; apply traces_ret].
  apply traces_bind; [by apply traces_call|]. intros n.
  apply traces_bind; [by apply traces_call | intros; apply traces_ret].
Qed.

Lemma clickable_poll_inv l s n s' t :
  element_to_be_clickable drv l s = (Ok (Some n), s', t) ->
  t = [Ev (FindElement l) (Ok (RNode n));
       Ev (IsDisplayed n) (Ok (RBool true));
       Ev (IsEnabled n) (Ok (RBool true))].
Proof.
  unfold element_to_be_clickable, element_if_visible. intros Hrun.
  apply bind_inv in Hrun
    as [(target & s1 & t1 & t2 & H1 & H2 & ->)|(e & _ & [=])].
  apply call_inv in H1 as [_ ->].
  apply bind_inv in H2
    as [(element & s2 & t3 & t4 & H3 & H4 & ->)|(e & _ & [=])].
  apply bind_inv in H3
    as [(d & s3 & t5 & t6 & H5 & [= <- <- <-] & ->)|(e & _ & [=])].
  apply call_inv in H5 as [_ ->].
  destruct d; [|discriminate].
  apply bind_inv in H4
    as [(en & s4 & t7 & t8 & H7 & H8 & ->)|(e & _ & [=])].
  apply call_inv in H7 as [_ ->].
  destruct en; [|discriminate]. by injection H8 as <- <- <-.
Qed.

(** What [click_element] did: either the wait failed and nothing was
    clicked, or the element found, displayed and enabled at the last
    poll was clicked, once, and the outcome of the click is the outcome
    of [click_element]. *)
Lemma click_element_inv l timeout s r s' tr :
  click_element drv config polls l timeout s = (r, s', tr) ->
  (r <> Ok tt /\ Forall no_click tr)
  \/ exists n, ends_with_click l n (res_map (fun _ => RNone) r) tr.
Proof.
  unfold click_element. intros Hrun.
  pose proof (no_click_wait_for_element_clickable (wait_utils config) l
                timeout s) as Hq.
  apply bind_inv in Hrun
    as [(n & s1 & t1 & t2 & H1 & H2 & ->)|(e & H1 & ->)].
  - right. exists n. rewrite H1 in Hq. simpl in Hq.
    apply call_inv in H2 as [_ ->].
    unfold wait_for_element_clickable in H1.
    rewrite log_and_reraise_id in H1.
    apply until_loop_ok_inv in H1 as (s0 & pre & t0 & Hm & ->).
    apply clickable_poll_inv in Hm as ->.
    apply Forall_app in Hq as [Hpre _].
    exists pre. split; [|assumption]. by rewrite <- app_assoc.
  - left. rewrite H1 in Hq. by split.
Qed.

(** X7.  [click_element] clicks at most once, and only the element that
    its last poll found by the locator, displayed and enabled; it
    returns exactly when that click succeeds. *)
Theorem click_element_clicks_what_it_checked (l : locator)
    (timeout : option Z) (s : S) (r : res unit) (s' : S)
    (tr : list event) :
  click_element drv config polls l timeout s = (r, s', tr) ->
  (r <> Ok tt /\ Forall no_click tr)
  \/ exists n, ends_with_click l n (res_map (fun _ => RNone) r) tr.
Proof. apply click_element_inv. Qed.

Lemma click_then_true_inv l s s' tr :
  bind (click_element drv config polls l None) (fun _ => ret true) s
  = (Ok true, s', tr) ->
  exists n, ends_with_click l n (Ok RNone) tr.
Proof.
  intros Hrun. apply bind_inv in Hrun
    as [([] & s1 & t1 & t2 & H1 & [= <- <-] & ->)|(e & _ & [=])].
  rewrite app_nil_r.
  apply click_element_inv in H1 as [[Hne _]|(n & Hends)]; [done|eauto].
Qed.

Lemma ends_with_click_prefix l n rc t tr :
  Forall no_click t -> ends_with_click l n rc tr ->
  ends_with_click l n rc (t ++ tr).
Proof.
  intros Ht (pre & -> & Hpre). exists (t ++ pre).
  split; [by rewrite <- app_assoc | by apply Forall_app].
Qed.

(** The probe-then-click pattern of the optional actions. *)
Lemma probe_then_click_inv l timeout s s' tr :
  bind (BasePage_is_element_visible drv config polls l timeout)
    (fun visible : bool =>
       if visible then
         try_except
           (bind (click_element drv config polls l None)
              (fun _ => ret true))
           any_exception (fun _ => ret false)
       else ret false) s
  = (Ok true, s', tr) ->
  exists n, ends_with_click l n (Ok RNone) tr.
Proof.
  intros Hrun.
  pose proof (no_click_is_element_visible (wait_utils config) l timeout s)
    as Hq.
  apply bind_inv in Hrun
    as [(visible & s1 & t1 & t2 & H1 & H2 & ->)|(e & _ & [=])].
  unfold BasePage_is_element_visible in H1. rewrite H1 in Hq.
  destruct visible; [|discriminate].
  apply try_except_inv in H2
    as [(b & Hclick & [= <-])|[(e & _ & _ & [=])
                              |(e & s2 & t3 & t4 & _ & _ & [=] & _)]].
  apply click_then_true_inv in Hclick as (n & Hends). exists n.
  by apply ends_with_click_prefix.
Qed.

(** X8.  The optional actions answer [True] only after a click that
    succeeded, on the element their locator found displayed and enabled:
    [select_size_if_available], [select_quick_add_size_if_available] and
    [close_klaviyo_popup].  The last one never raises. *)
Theorem optional_actions_true_after_click (size_text : string) (s s' : S)
    (tr : list event) :
  (select_size_if_available drv config polls size_text s = (Ok true, s', tr)
   -> exists n, ends_with_click (size_locator size_text) n (Ok RNone) tr)
  /\ (select_quick_add_size_if_available drv config polls size_text s
      = (Ok true, s', tr)
      -> exists n,
           ends_with_click (quick_add_size_locator size_text) n (Ok RNone) tr)
  /\ (close_klaviyo_popup drv config polls s = (Ok true, s', tr)
      -> exists n, ends_with_click klaviyo_close_button n (Ok RNone) tr)
  /\ exists b, (close_klaviyo_popup drv config polls s).1.1 = Ok b.
Proof.
  split; [apply probe_then_click_inv|].
  split; [apply probe_then_click_inv|]. split.
  - unfold close_klaviyo_popup. intros Hrun.
    pose proof (no_click_is_element_visible (wait_utils config)
                  klaviyo_close_button 3 s) as Hq.
    apply try_except_inv in Hrun
      as [(b & Hrun & [= <-])|[(e & _ & _ & [=])
                              |(e & s2 & t3 & t4 & _ & _ & [=] & _)]].
    apply bind_inv in Hrun
      as [(visible & s1 & t1 & t2 & H1 & H2 & ->)|(e & _ & [=])].
    unfold BasePage_is_element_visible in H1. rewrite H1 in Hq.
    destruct visible; [|discriminate].
    apply click_then_true_inv in H2 as (n & Hends). exists n.
    by apply ends_with_click_prefix.
  - unfold close_klaviyo_popup, try_except.
    destruct (bind _ _ s) as [[[b|e] s1] t1]; simpl; eauto.
Qed.

End ClickFacts.

(** ** More on the product locator *)

Section StripFacts.

Lemma lstrip_head (s : string) :
  lstrip s = EmptyString
  \/ exists c t, lstrip s = String c t /\ is_space c = false.
Proof.
  induction s as [|c s IH]; simpl; [by left|].
  destruct (is_space c) eqn:Hc; [assumption|]. right. eauto.
Qed.

Lemma rstrip_head (c : ascii) (t : string) :
  rstrip (String c t) = EmptyString
  \/ exists t', rstrip (String c t) = String c t'.
Proof.
  simpl. destruct (rstrip t); [|eauto].
  destruct (is_space c); eauto.
Qed.

Lemma rstrip_idem (s : string) : rstrip (rstrip s) = rstrip s.
Proof.
  induction s as [|c s IH]; [reflexivity|]. simpl.
  destruct (rstrip s) as [|c' r] eqn:Hr.
  - destruct (is_space c) eqn:Hc; [reflexivity|]. simpl. by rewrite Hc.
  - change (rstrip (String c (String c' r)))
      with (match rstrip (String c' r) with
            | EmptyString =>
                if is_space c then EmptyString else String c EmptyString
            | t => String c t
            end).
    by rewrite IH.
Qed.

(** [strip] removes all the blanks it can. *)
Lemma strip_idem (s : string) : strip (strip s) = strip s.
Proof.
  unfold strip.
  assert (Hl : lstrip (rstrip (lstrip s)) = rstrip (lstrip s)).
  { destruct (lstrip_head s) as [->|(c & t & -> & Hc)]; [reflexivity|].
    destruct (rstrip_head c t) as [->|(t' & ->)]; [reflexivity|].
    simpl. by rewrite Hc. }
  rewrite Hl. apply rstrip_idem.
Qed.

End StripFacts.

Section MoreLocatorFacts.

Context {S : Type}.
Variable drv : Driver S.
Variable config : Config.
Variable polls : Z -> nat.
Variable product_name : string.

#[local] Arguments scan_loop : simpl never.

(** Where a returned tile comes from, in the loop or in the final pass. *)
Lemma find_product_by_name_found_inv s p s' tr :
  find_product_by_name drv config polls product_name s = (Ok p, s', tr) ->
  accepted_in drv product_name
    (check_product drv config polls product_name) p s' tr
  \/ accepted_in drv product_name (check_product_final drv product_name)
       p s' tr.
Proof.
  unfold find_product_by_name. intros Hrun.
  apply bind_inv in Hrun as [(h & s1 & t1 & t2 & _ & H2 & ->)|(e & _ & [=])].
  apply bind_inv in H2
    as [(found & s2 & t3 & t4 & Hscan & H2 & ->)|(e & _ & [=])].
  destruct found as [p'|].
  - injection H2 as <- <- <-. rewrite app_nil_r. left.
    apply accepted_in_prefix. by apply scan_loop_found_inv in Hscan.
  - right. apply accepted_in_prefix, accepted_in_prefix.
    by apply final_check_found_inv in H2.
Qed.

(** X9.  The target is compared with stripped titles, and is not
    stripped itself: a product name with a blank at either end is never
    found, on any page. *)
Theorem unstripped_name_is_never_found (s : S) (p : node) :
  strip product_name <> product_name ->
  (find_product_by_name drv config polls product_name s).1.1 <> Ok p.
Proof.
  intros Hne.
  destruct (find_product_by_name drv config polls product_name s)
    as [[r s'] tr] eqn:Hrun.
  simpl. intros ->.
  assert (Htitle : exists q s2 sm tm,
             title_text drv q s2 = (Ok product_name, sm, tm)).
  { apply find_product_by_name_found_inv in Hrun
      as [(pre & s0 & products & s1 & before & after & s2 & t1 & t2
           & _ & _ & _ & _ & (sm & tm & Ht) & _)
         |(pre & s0 & products & s1 & before & after & s2 & t1 & t2
           & _ & _ & _ & _ & (sm & tm & Ht) & _)]; eauto. }
  destruct Htitle as (q & s2 & sm & tm & Ht).
  apply title_text_ok_inv in Ht as (te & raw & s1 & _ & _ & Hstrip & _).
  apply Hne. rewrite Hstrip. apply strip_idem.
Qed.

Lemma traces_in_impl {A} (P Q : event -> Prop) (m : M S A) :
  (forall e, P e -> Q e) -> traces_in P m -> traces_in Q m.
Proof. intros HPQ Hm s. eapply Forall_impl; [apply Hm | exact HPQ]. Qed.

Lemma steps_from_S pos k :
  steps_from pos (Datatypes.S k)
  = (pos + scroll_amount) :: steps_from (pos + scroll_amount) k.
Proof.
  unfold steps_from. cbn [seq map]. rewrite <- seq_shift, List.map_map.
  f_equal. apply List.map_ext. intros i. unfold scroll_amount. lia.
Qed.

Lemma targets_ok_ret {A} n pos (a : A) : targets_ok (S:=S) n pos (ret a).
Proof. intros s. exists 0%nat. split; [lia | reflexivity]. Qed.

Lemma targets_ok_no_scroll {A} n pos (m : M S A) :
  traces_in no_scroll m -> targets_ok n pos m.
Proof.
  intros Hm s. exists 0%nat. split; [lia|].
  by rewrite scroll_targets_no_scroll.
Qed.

Lemma targets_ok_bind_no_scroll {A B} n pos (m : M S A) (k : A -> M S B) :
  traces_in no_scroll m -> (forall a, targets_ok n pos (k a)) ->
  targets_ok n pos (bind m k).
Proof.
  intros Hm Hk s. unfold bind. specialize (Hm s).
  destruct (m s) as [[[a|e] s1] t1]; simpl in *.
  - destruct (Hk a s1) as (j & Hj & Ht).
    destruct (k a s1) as [[r s2] t2]; simpl in *. exists j.
    split; [assumption|].
    by rewrite scroll_targets_app, scroll_targets_no_scroll.
  - exists 0%nat. split; [lia|]. by rewrite scroll_targets_no_scroll.
Qed.

Lemma targets_ok_bind_scroll {B} n pos (k : unit -> M S B) :
  (forall a, targets_ok n (pos + scroll_amount) (k a)) ->
  targets_ok (Datatypes.S n) pos
    (bind (js_scroll_to drv (pos + scroll_amount)) k).
Proof.
  intros Hk s. unfold bind, js_scroll_to, call.
  destruct (scroll_to drv (pos + scroll_amount) s) as [[[]|e] s1]; simpl.
  - destruct (Hk tt s1) as (j & Hj & Ht).
    destruct (k tt s1) as [[r s2] t2]; simpl in *.
    exists (Datatypes.S j). split; [lia|].
    rewrite steps_from_S. unfold scroll_targets in *. simpl. by rewrite Ht.
  - exists 1%nat. split; [lia|]. by rewrite steps_from_S.
Qed.

Lemma targets_ok_scan_loop remaining scroll_position last_height :
  targets_ok remaining scroll_position
    (scan_loop drv config polls product_name remaining scroll_position
       last_height).
Proof.
  revert scroll_position last_height.
  induction remaining as [|n IH]; intros pos lh; [apply targets_ok_ret|].
  rewrite scan_loop_S.
  apply targets_ok_bind_no_scroll; [by apply traces_call|].
  intros [|p products].
  - apply targets_ok_bind_scroll. intros _.
    apply targets_ok_bind_no_scroll; [|intros; apply IH].
    by apply traces_wait_for_element_present.
  - apply targets_ok_bind_no_scroll.
    { apply (traces_in_impl quiet); [apply quiet_no_scroll|].
      apply quiet_scan_tiles, quiet_check_product. }
    intros [q|]; [apply targets_ok_ret|].
    apply targets_ok_bind_scroll. intros _.
    apply targets_ok_bind_no_scroll.
    { apply traces_try; [|intros; apply traces_ret].
      apply traces_bind; [|intros; apply traces_ret].
      by apply traces_wait_for_elements_present. }
    intros _.
    apply targets_ok_bind_no_scroll; [by apply traces_call|]. intros h.
    apply targets_ok_bind_no_scroll; [by apply traces_call|]. intros c.
    destruct (_ >=? _); [apply targets_ok_ret|].
    intros s. destruct (IH (pos + scroll_amount)
                          (if h >? lh then h else lh) s) as (j & Hj & Ht).
    exists j. split; [lia | assumption].
Qed.

(** X10.  The search scrolls to 400, 800, 1200 and so on, each step 400
    pixels below the one before and at most a hundred of them, whatever
    the page reports; the only other scroll is the one to the top that
    opens the final pass. *)
Theorem scroll_positions_are_multiples_of_400 (s : S) :
  exists k,
    (k <= max_scrolls)%nat
    /\ let targets :=
         scroll_targets
           (find_product_by_name drv config polls product_name s).2 in
       targets = steps_from 0 k \/ targets = steps_from 0 k ++ [0].
Proof.
  unfold find_product_by_name, bind, js_scroll_height, call.
  destruct (scroll_height drv s) as [[h|e] s1]; simpl.
  2: { exists 0%nat. split; [unfold max_scrolls; lia | by left]. }
  destruct (targets_ok_scan_loop max_scrolls 0 h s1) as (k & Hk & Ht).
  exists k. split; [assumption|].
  destruct (scan_loop drv config polls product_name max_scrolls 0 h s1)
    as [[[[p|]|e] s2] scan]; simpl in *.
  - left. by rewrite app_nil_r.
  - right. pose proof (final_check_scanning_over drv config polls
                         product_name s2) as (r & post & Hpost & Hq).
    destruct (final_check drv config polls product_name s2)
      as [[r' s3] final]; simpl in *. subst final.
    change (Ev ScrollHeight (Ok (RInt h)) :: scan ++ Ev (ScrollTo 0) r :: post)
      with ([Ev ScrollHeight (Ok (RInt h))] ++ scan
              ++ [Ev (ScrollTo 0) r] ++ post).
    rewrite !scroll_targets_app, Ht. f_equal.
    change (scroll_targets (Ev (ScrollTo 0) r :: post))
      with (0 :: scroll_targets post).
    rewrite (scroll_targets_no_scroll post); [reflexivity|].
    eapply Forall_impl; [exact Hq | apply quiet_no_scroll].
  - by left.
Qed.

(** The scan stops at the first tile that is accepted; the tiles after
    it play no part. *)
Lemma scan_tiles_found body before p after s s1 t1 p' s' t2 :
  is_tile_body drv product_name body ->
  all_skipped drv product_name body before s s1 t1 ->
  body p s1 = (Ok (Some p'), s', t2) ->
  scan_tiles body (before ++ p :: after) s = (Ok (Some p'), s', t1 ++ t2).
Proof.
  intros Hbody Hskip Hp.
  induction Hskip as [s|q rest s sa sb ta tb Hq _ IH].
  - simpl. unfold bind, try_except. rewrite Hp. simpl.
    by rewrite app_nil_r.
  - rewrite <- app_comm_cons.
    rewrite (scan_tiles_skip drv product_name body Hbody _ _ _ _ _ Hq).
    rewrite (IH Hp). simpl. by rewrite app_assoc.
Qed.

(** X11.  A product of the first batch is found without scrolling: when
    the tiles before it in the first query are passed over and the tile
    itself is accepted, [find_product_by_name] returns it after the
    height measurement, that query and the inspection of these tiles
    only.  The tiles after it are not inspected. *)
Theorem first_batch_match_needs_no_scroll (s : S) (h : Z) (s0 s1 s2 s' : S)
    (before after : list node) (p : node) (t1 t2 : list event) :
  scroll_height drv s = (Ok h, s0) ->
  find_elements drv product_grid_items s0
  = (Ok (before ++ p :: after), s1) ->
  all_skipped drv product_name
    (check_product drv config polls product_name) before s1 s2 t1 ->
  check_product drv config polls product_name p s2 = (Ok (Some p), s', t2) ->
  find_product_by_name drv config polls product_name s
  = (Ok p, s',
     Ev ScrollHeight (Ok (RInt h))
       :: Ev (FindElements product_grid_items)
            (Ok (RNodes (before ++ p :: after)))
       :: t1 ++ t2).
Proof.
  intros Hh Hfind Hskip Hp.
  apply (call_run ScrollHeight RInt) in Hh.
  apply (call_run (FindElements product_grid_items) RNodes) in Hfind.
  pose proof (scan_tiles_found _ before p after s1 s2 t1 p s' t2
                (check_product_is_tile_body drv config polls product_name)
                Hskip Hp) as Hscan.
  unfold find_product_by_name. change max_scrolls with (Datatypes.S 99).
  unfold bind at 1, js_scroll_height. rewrite Hh. unfold bind at 1.
  rewrite scan_loop_S. unfold bind at 1, driver_find_elements.
  rewrite Hfind.
  destruct (before ++ p :: after) as [|q qs] eqn:Hprod.
  { by destruct before. }
  unfold bind at 1. rewrite Hscan. simpl. by rewrite !app_nil_r.
Qed.

Lemma until_loop_never {A} (method : M S (option A)) budget s :
  (forall s0, (method s0).1.1 = Ok None
              \/ (method s0).1.1 = Raise NoSuchElementException) ->
  (until_loop method budget s).1.1 = Raise TimeoutException.
Proof.
  intros Hm. revert s. induction budget as [|budget IH]; intros s; simpl;
    unfold bind, try_except; destruct (Hm s) as [Hs|Hs];
    destruct (method s) as [[[[a|]|e] s1] t1]; simpl in Hs;
    try discriminate; simpl; try reflexivity.
  - injection Hs as ->. reflexivity.
  - specialize (IH s1).
    by destruct (until_loop method budget s1) as [[r s2] t2].
  - injection Hs as ->. simpl. specialize (IH s1).
    by destruct (until_loop method budget s1) as [[r s2] t2].
Qed.

(** X12.  On a page where no product tile is ever found, the search
    ends in [TimeoutException], not in the not-found signal, after a
    single scroll to 400: the wait of the empty-grid branch is not
    guarded. *)
Theorem empty_grid_times_out (s : S) (h : Z) (sa sb sc : S) :
  (forall s0, exists s1,
     find_element drv product_grid_items s0
     = (Raise NoSuchElementException, s1)) ->
  scroll_height drv s = (Ok h, sa) ->
  find_elements drv product_grid_items sa = (Ok [], sb) ->
  scroll_to drv 400 sb = (Ok tt, sc) ->
  (find_product_by_name drv config polls product_name s).1.1
  = Raise TimeoutException
  /\ scroll_targets (find_product_by_name drv config polls product_name s).2
     = [400].
Proof.
  intros Hnone Hh Hfind Hscroll.
  apply (call_run ScrollHeight RInt) in Hh.
  apply (call_run (FindElements product_grid_items) RNodes) in Hfind.
  apply (call_run (ScrollTo 400) (fun _ => RNone)) in Hscroll.
  set (wait := wait_for_element_present drv polls (wait_utils config)
                 product_grid_items (Some (short_timeout config))).
  assert (Hwait : (wait sc).1.1 = Raise TimeoutException).
  { unfold wait, wait_for_element_present. rewrite log_and_reraise_id.
    apply until_loop_never. intros s0. right.
    unfold presence_of_element_located, bind, driver_find_element, call.
    destruct (Hnone s0) as (s1 & ->). reflexivity. }
  assert (Hq : Forall no_scroll (wait sc).2).
  { apply (traces_wait_for_element_present drv polls no_scroll). by intros. }
  assert (Hrun : exists sd tw,
             Forall no_scroll tw
             /\ find_product_by_name drv config polls product_name s
                = (Raise TimeoutException, sd,
                   Ev ScrollHeight (Ok (RInt h))
                     :: Ev (FindElements product_grid_items) (Ok (RNodes []))
                     :: Ev (ScrollTo 400) (Ok RNone) :: tw)).
  { destruct (wait sc) as [[[n|e] sd] tw] eqn:Hw; simpl in Hwait, Hq;
      [discriminate|].
    injection Hwait as ->. exists sd, tw. split; [assumption|].
    unfold find_product_by_name. change max_scrolls with (Datatypes.S 99).
    unfold bind at 1, js_scroll_height. rewrite Hh. unfold bind at 1.
    rewrite scan_loop_S. unfold bind at 1, driver_find_elements.
    rewrite Hfind. change (0 + scroll_amount) with 400.
    unfold bind at 1, js_scroll_to. rewrite Hscroll.
    unfold bind at 1. fold wait. rewrite Hw. reflexivity. }
  destruct Hrun as (sd & tw & Hq' & ->). split; [reflexivity|].
  cbv beta iota delta [snd fst].
  change (scroll_targets
            (Ev ScrollHeight (Ok (RInt h))
               :: Ev (FindElements product_grid_items) (Ok (RNodes []))
               :: Ev (ScrollTo 400) (Ok RNone) :: tw))
    with (400 :: scroll_targets tw).
  by rewrite (scroll_targets_no_scroll tw).
Qed.

Lemma bind_ext {A B} (m : M S A) (k1 k2 : A -> M S B) s :
  (forall a s1, k1 a s1 = k2 a s1) -> bind m k1 s = bind m k2 s.
Proof.
  intros Hk. unfold bind. destruct (m s) as [[[a|e] s1] t1]; [|reflexivity].
  by rewrite Hk.
Qed.

(** X13.  The page height recorded by the search has no effect on it:
    the scanning loop behaves the same for any two values of
    [last_height]. *)
Theorem last_height_is_never_used (remaining : nat)
    (scroll_position last_height last_height' : Z) (s : S) :
  scan_loop drv config polls product_name remaining scroll_position
    last_height s
  = scan_loop drv config polls product_name remaining scroll_position
      last_height' s.
Proof.
  revert scroll_position last_height last_height' s.
  induction remaining as [|n IH]; intros pos lh lh' s; [reflexivity|].
  rewrite !scan_loop_S. apply bind_ext. intros [|p products] s1.
  - apply bind_ext. intros _ s2. apply bind_ext. intros _ s3. apply IH.
  - apply bind_ext. intros [q|] s2; [reflexivity|].
    apply bind_ext. intros _ s3. apply bind_ext. intros _ s4.
    apply bind_ext. intros h s5. apply bind_ext. intros c s6.
    destruct (_ >=? _); [reflexivity | apply IH].
Qed.

End MoreLocatorFacts.

(** ** Page objects built on the locator and the waits *)

Section PageObjectFacts.

Context {S : Type}.
Variable drv : Driver S.
Variable config : Config.
Variable polls : Z -> nat.

Lemma clickable_element_poll_inv target s n s' t :
  element_to_be_clickable_element drv target s = (Ok (Some n), s', t) ->
  n = target
  /\ t = [Ev (IsDisplayed target) (Ok (RBool true));
          Ev (IsEnabled target) (Ok (RBool true))].
Proof.
  unfold element_to_be_clickable_element, element_if_visible. intros Hrun.
  apply bind_inv in Hrun
    as [(element & s2 & t3 & t4 & H3 & H4 & ->)|(e & _ & [=])].
  apply bind_inv in H3
    as [(d & s3 & t5 & t6 & H5 & [= <- <- <-] & ->)|(e & _ & [=])].
  apply call_inv in H5 as [_ ->].
  destruct d; [|discriminate].
  apply bind_inv in H4
    as [(en & s4 & t7 & t8 & H7 & H8 & ->)|(e & _ & [=])].
  apply call_inv in H7 as [_ ->].
  destruct en; [|discriminate]. by injection H8 as <- <- <-.
Qed.

Lemma find_and_click_attempt_ok_inv product_name s s' tr :
  find_and_click_attempt drv config polls product_name s = (Ok tt, s', tr) ->
  clicked_anchor tr.
Proof.
  unfold find_and_click_attempt. intros Hrun.
  apply bind_inv in Hrun
    as [(product & s1 & t1 & t2 & _ & H2 & ->)|(e & _ & [=])].
  apply bind_inv in H2
    as [(anchor & s2 & t3 & t4 & H3 & H4 & ->)|(e & _ & [=])].
  apply call_inv in H3 as [_ ->].
  apply bind_inv in H4
    as [(u & s3 & t5 & t6 & _ & H6 & ->)|(e & _ & [=])].
  apply bind_inv in H6
    as [(n & s4 & t7 & t8 & H7 & H8 & ->)|(e & _ & [=])].
  apply call_inv in H8 as [_ ->].
  apply until_loop_ok_inv in H7 as (s0 & pre & t0 & Hm & ->).
  apply clickable_element_poll_inv in Hm as [-> ->].
  exists (t1 ++ [Ev (ChildElement product product_anchor)
                    (res_map RNode (Ok anchor))] ++ t5 ++ pre),
    product, anchor.
  split.
  - repeat (rewrite <- app_assoc || simpl). reflexivity.
  - rewrite !elem_of_app. right. left. by apply list_elem_of_singleton.
Qed.

Lemma clicked_anchor_prefix t tr :
  clicked_anchor tr -> clicked_anchor (t ++ tr).
Proof.
  intros (pre & product & anchor & -> & Hin).
  exists (t ++ pre), product, anchor.
  split; [by rewrite <- app_assoc|]. rewrite elem_of_app. by right.
Qed.

(** X14.  [find_and_click_product] returns only after a click that
    succeeded on the link found inside a tile, seen displayed and
    enabled just before.  It makes one attempt, and a second one exactly
    when the first raised [StaleElementReferenceException]; any other
    exception of the first attempt - [TimeoutException] and the
    not-found signal included - leaves as [NoSuchElementException],
    while whatever the second attempt raises leaves unchanged. *)
Theorem find_and_click_product_outcomes (product_name : string) (s : S)
    (r : res unit) (s' : S) (tr : list event) :
  find_and_click_product drv config polls product_name s = (r, s', tr) ->
  match r with
  | Ok _ => clicked_anchor tr
  | Raise e =>
      (e = NoSuchElementException
       /\ exists e1,
            e1 <> StaleElementReferenceException
            /\ find_and_click_attempt drv config polls product_name s
               = (Raise e1, s', tr))
      \/ exists s1 t1 t2,
           find_and_click_attempt drv config polls product_name s
           = (Raise StaleElementReferenceException, s1, t1)
           /\ find_and_click_attempt drv config polls product_name s1
              = (Raise e, s', t2)
           /\ tr = t1 ++ t2
  end.
Proof.
  unfold find_and_click_product. intros Hrun.
  apply try_except_inv in Hrun
    as [([] & Hfirst & ->)|[(e & _ & [=] & _)
                           |(e & s1 & t1 & t2 & Hfirst & _ & Hhandler & ->)]].
  - by apply find_and_click_attempt_ok_inv in Hfirst.
  - unfold is_exn in Hhandler. case_bool_decide as He.
    + subst e. destruct r as [[]|e].
      * apply clicked_anchor_prefix.
        by apply find_and_click_attempt_ok_inv in Hhandler.
      * right. exists s1, t1, t2. auto.
    + injection Hhandler as <- <- <-. left. split; [reflexivity|].
      exists e. rewrite app_nil_r. auto.
Qed.

Lemma clicks_app t1 t2 : clicks (t1 ++ t2) = (clicks t1 + clicks t2)%nat.
Proof. unfold clicks. by rewrite filter_app, length_app. Qed.

Lemma clicks_no_click tr : Forall no_click tr -> clicks tr = 0%nat.
Proof.
  induction 1 as [|e tr He _ IH]; [reflexivity|].
  unfold clicks in *. rewrite filter_cons.
  destruct (decide _) as [Hd|]; [|assumption].
  unfold no_click in He. congruence.
Qed.

Lemma clicks_cons e tr :
  clicks (e :: tr)
  = ((if is_click (request_of e) then 1 else 0) + clicks tr)%nat.
Proof.
  unfold clicks. destruct (is_click (request_of e)) eqn:He.
  - by rewrite filter_cons_True.
  - rewrite filter_cons_False; [reflexivity|]. by rewrite He.
Qed.

Lemma click_first_containing_clicks search_text options s :
  (clicks (click_first_containing drv search_text options s).2 <= 1)%nat.
Proof.
  revert s. induction options as [|o rest IH]; intros s; simpl.
  - unfold clicks. simpl. lia.
  - unfold bind, element_text, element_click, call.
    destruct (text drv o s) as [[txt|e] s1]; simpl.
    2: { rewrite clicks_cons. simpl. unfold clicks. simpl. lia. }
    destruct (py_in search_text txt).
    + destruct (click drv o s1) as [[[]|e] s2]; simpl;
        rewrite !clicks_cons; simpl; unfold clicks; simpl; lia.
    + specialize (IH s1).
      destruct (click_first_containing drv search_text rest s1)
        as [[r s2] t2].
      simpl in *. rewrite clicks_cons. simpl. lia.
Qed.

(** The option clicked is the first whose text contains the text
    searched for. *)
Lemma click_first_containing_inv search_text options s s' tr :
  click_first_containing drv search_text options s = (Ok true, s', tr) ->
  exists before o after texts text,
    options = before ++ o :: after
    /\ length texts = length before
    /\ Forall (fun t => py_in search_text t = false) texts
    /\ py_in search_text text = true
    /\ tr = text_reads before texts
              ++ [Ev (Text o) (Ok (RStr text)); Ev (Click o) (Ok RNone)].
Proof.
  revert s tr. induction options as [|o rest IH]; intros s tr Hrun;
    [discriminate|].
  simpl in Hrun. apply bind_inv in Hrun
    as [(txt & s1 & t1 & t2 & H1 & H2 & ->)|(e & _ & [=])].
  apply call_inv in H1 as [_ ->].
  destruct (py_in search_text txt) eqn:Hin.
  - apply bind_inv in H2
      as [([] & s2 & t3 & t4 & H3 & [= <- <-] & ->)|(e & _ & [=])].
    apply call_inv in H3 as [_ ->].
    exists [], o, rest, [], txt. repeat split; auto.
  - apply IH in H2
      as (before & o' & after & texts & text & -> & Hlen & Hall & Htext & ->).
    exists (o :: before), o', after, (txt :: texts), text.
    repeat split; simpl; auto.
Qed.

(** X15.  [select_postal_code_option] never raises and clicks at most
    once.  When it answers [True], it has clicked the first option, in
    the order of the list it waited for, whose text contains the text
    searched for, after reading the texts of the options before it. *)
Theorem select_postal_code_option_is_soft (search_text : string) (s : S) :
  (exists b, (select_postal_code_option drv config polls search_text s).1.1
             = Ok b)
  /\ (clicks (select_postal_code_option drv config polls search_text s).2
      <= 1)%nat
  /\ forall s' tr,
       select_postal_code_option drv config polls search_text s
       = (Ok true, s', tr) ->
       exists polled before o after texts text,
         tr = polled
                ++ Ev (FindElements postal_code_options)
                     (Ok (RNodes (before ++ o :: after)))
                :: text_reads before texts
                ++ [Ev (Text o) (Ok (RStr text)); Ev (Click o) (Ok RNone)]
         /\ length texts = length before
         /\ Forall (fun t => py_in search_text t = false) texts
         /\ py_in search_text text = true.
Proof.
  set (wait := wait_for_elements_present drv polls (wait_utils config)
                 postal_code_options (Some (short_timeout config)) 1).
  assert (Hq : forall s0, Forall no_click (wait s0).2).
  { apply (traces_wait_for_elements_present drv polls no_click). by intros. }
  split; [|split].
  - unfold select_postal_code_option, try_except.
    destruct (bind _ _ s) as [[[b|e] s1] t1]; simpl; eauto.
  - unfold select_postal_code_option, try_except, bind. fold wait.
    specialize (Hq s).
    destruct (wait s) as [[[options|e] s1] t1]; simpl in *.
    + pose proof (click_first_containing_clicks search_text options s1)
        as Hc.
      destruct (click_first_containing drv search_text options s1)
        as [[[b|e] s2] t2]; simpl in *;
        rewrite ?app_nil_r, clicks_app, (clicks_no_click t1 Hq); lia.
    + rewrite app_nil_r, (clicks_no_click t1 Hq). lia.
  - intros s' tr Hrun. unfold select_postal_code_option in Hrun.
    apply try_except_inv in Hrun
      as [(b & Hrun & [= <-])|[(e & _ & [=] & _)
                              |(e & s1 & t1 & t2 & _ & _ & [=] & _)]].
    apply bind_inv in Hrun
      as [(options & s1 & t1 & t2 & H1 & H2 & ->)|(e & _ & [=])].
    apply wait_for_elements_present_ok_inv in H1
      as (_ & _ & s0 & polled & _ & ->).
    apply click_first_containing_inv in H2
      as (before & o & after & texts & text & -> & Hlen & Hall & Htext & ->).
    exists polled, before, o, after, texts, text.
    split; [by rewrite <- app_assoc | auto].
Qed.

Lemma bind_ext_run {A B} (m : M S A) (k1 k2 : A -> M S B) s :
  (forall a s1 t1, m s = (Ok a, s1, t1) -> k1 a s1 = k2 a s1) ->
  bind m k1 s = bind m k2 s.
Proof.
  intros Hk. unfold bind.
  destruct (m s) as [[[a|e] s1] t1] eqn:Hm; [|reflexivity].
  by rewrite (Hk a s1 t1).
Qed.

(** X16.  In [click_last_complete_the_look_item] the case of an empty
    list of items is never reached: whatever its [raise] would raise
    makes no difference to any run.  A run that returns has scrolled to
    the last of the items its wait returned, found the button inside
    that item and clicked it, after a clickability check of the element
    that the same relative XPath finds from the document. *)
Theorem complete_the_look_empty_case_is_dead (name_error : exn) (s : S) :
  (forall name_error',
     click_last_complete_the_look_item drv config polls name_error s
     = click_last_complete_the_look_item drv config polls name_error' s)
  /\ forall s' tr,
       click_last_complete_the_look_item drv config polls name_error s
       = (Ok tt, s', tr) ->
       exists pre items last_item add_button polled n,
         last items = Some last_item
         /\ tr = pre
                 ++ [Ev (FindElements complete_the_look_items)
                       (Ok (RNodes items));
                     Ev (ScrollIntoView last_item) (Ok RNone);
                     Ev (ChildElement last_item product_card_button)
                       (Ok (RNode add_button))]
                 ++ polled
                 ++ [Ev (FindElement product_card_button) (Ok (RNode n));
                     Ev (IsDisplayed n) (Ok (RBool true));
                     Ev (IsEnabled n) (Ok (RBool true));
                     Ev (Click add_button) (Ok RNone)].
Proof.
  split.
  - intros name_error'. unfold click_last_complete_the_look_item.
    apply bind_ext. intros _ s1. apply bind_ext_run.
    intros items s2 t2 Hitems. unfold get_complete_the_look_items in Hitems.
    apply wait_for_elements_present_ok_inv in Hitems as (Hne & _).
    destruct (last items) eqn:Hlast; [reflexivity|].
    by apply last_None in Hlast.
  - intros s' tr Hrun. unfold click_last_complete_the_look_item in Hrun.
    apply bind_inv in Hrun
      as [([] & s1 & t1 & t2 & _ & H2 & ->)|(e & _ & [=])].
    apply bind_inv in H2
      as [(items & s2 & t3 & t4 & H3 & H4 & ->)|(e & _ & [=])].
    unfold get_complete_the_look_items in H3.
    apply wait_for_elements_present_ok_inv in H3
      as (_ & _ & s0 & pre & _ & ->).
    destruct (last items) as [last_item|] eqn:Hlast; [|discriminate].
    apply bind_inv in H4
      as [([] & s3 & t5 & t6 & H5 & H6 & ->)|(e & _ & [=])].
    apply call_inv in H5 as [_ ->].
    apply try_except_inv in H6
      as [([] & H6 & _)|[(e & _ & [=] & _)
                        |(e & s4 & t7 & t8 & _ & _ & [=] & _)]].
    apply bind_inv in H6
      as [(add_button & s4 & t7 & t8 & H7 & H8 & ->)|(e & _ & [=])].
    apply call_inv in H7 as [_ ->].
    apply bind_inv in H8
      as [(n & s5 & t9 & t10 & H9 & H10 & ->)|(e & _ & [=])].
    apply call_inv in H10 as [_ ->].
    unfold wait_for_element_clickable in H9.
    rewrite log_and_reraise_id in H9.
    apply until_loop_ok_inv in H9 as (s6 & polled & t0 & Hm & ->).
    apply clickable_poll_inv in Hm as ->.
    exists (t1 ++ pre), items, last_item, add_button, polled, n.
    split; [exact Hlast|].
    repeat (rewrite <- app_assoc || simpl). reflexivity.
Qed.

Lemma no_click_wait_for_element_visible self l timeout :
  traces_in no_click (wait_for_element_visible drv polls self l timeout).
Proof.
  apply traces_log_and_reraise, traces_until_loop, traces_try;
    [|intros; apply traces_ret].
  apply traces_bind; [by apply traces_call|]. intros n.
  apply traces_bind; [by apply traces_call | intros; apply traces_ret].
Qed.

Lemma clicks_le_quiet {A} (m : M S A) :
  traces_in no_click m -> clicks_le 0 m.
Proof. intros Hm s. by rewrite (clicks_no_click _ (Hm s)). Qed.

Lemma clicks_le_mono {A} a b (m : M S A) :
  (a <= b)%nat -> clicks_le a m -> clicks_le b m.
Proof. intros Hab Hm s. specialize (Hm s). lia. Qed.

Lemma clicks_le_bind {A B} a b (m : M S A) (k : A -> M S B) :
  clicks_le a m -> (forall x, clicks_le b (k x)) ->
  clicks_le (a + b) (bind m k).
Proof.
  intros Hm Hk s. unfold bind. specialize (Hm s).
  destruct (m s) as [[[x|e] s1] t1]; simpl in *; [|lia].
  specialize (Hk x s1). destruct (k x s1) as [[r s2] t2]; simpl in *.
  rewrite clicks_app. lia.
Qed.

Lemma clicks_le_try {A} a b (m : M S A) handled h :
  clicks_le a m -> (forall e, clicks_le b (h e)) ->
  clicks_le (a + b) (try_except m handled h).
Proof.
  intros Hm Hh s. unfold try_except. specialize (Hm s).
  destruct (m s) as [[[x|e] s1] t1]; simpl in *; [lia|].
  destruct (handled e); simpl; [|lia].
  specialize (Hh e s1). destruct (h e s1) as [[r s2] t2]; simpl in *.
  rewrite clicks_app. lia.
Qed.

Lemma clicks_ends_with_click l n rc tr :
  ends_with_click l n rc tr -> clicks tr = 1%nat.
Proof.
  intros (pre & -> & Hpre).
  rewrite clicks_app, (clicks_no_click _ Hpre), !clicks_cons. reflexivity.
Qed.

Lemma clicks_le_click_element l timeout :
  clicks_le 1 (click_element drv config polls l timeout).
Proof.
  intros s.
  destruct (click_element drv config polls l timeout s) as [[r s'] tr]
    eqn:Hrun.
  simpl. apply click_element_inv in Hrun as [[_ Hq]|(n & Hends)].
  - rewrite (clicks_no_click _ Hq). lia.
  - by rewrite (clicks_ends_with_click _ _ _ _ Hends).
Qed.

Lemma clicks_ok_quiet {A} (m : M S A) :
  traces_in no_click m -> clicks_ok 0 m.
Proof.
  intros Hm s a s' tr Hrun. specialize (Hm s). rewrite Hrun in Hm.
  by apply clicks_no_click.
Qed.

Lemma clicks_ok_bind {A B} a b (m : M S A) (k : A -> M S B) :
  clicks_ok a m -> (forall x, clicks_ok b (k x)) ->
  clicks_ok (a + b) (bind m k).
Proof.
  intros Hm Hk s y s' tr Hrun. apply bind_inv in Hrun
    as [(x & s1 & t1 & t2 & H1 & H2 & ->)|(e & _ & [=])].
  rewrite clicks_app. by rewrite (Hm _ _ _ _ H1), (Hk _ _ _ _ _ H2).
Qed.

Lemma clicks_ok_click_element l timeout :
  clicks_ok 1 (click_element drv config polls l timeout).
Proof.
  intros s [] s' tr Hrun.
  apply click_element_inv in Hrun as [[Hne _]|(n & Hends)]; [done|].
  by apply clicks_ends_with_click in Hends.
Qed.

Lemma no_click_invisibility_wait timeout l :
  traces_in no_click
    (until polls timeout (invisibility_of_element_located drv l)).
Proof.
  apply traces_until_loop, traces_try; [|intros; apply traces_ret].
  apply traces_bind; [by apply traces_call|]. intros n.
  apply traces_bind; [by apply traces_call | intros; apply traces_ret].
Qed.

Lemma clicks_le_add_to_cart : clicks_le 1 (add_to_cart drv config polls).
Proof.
  apply (clicks_le_bind 1 0); [apply clicks_le_click_element|]. intros _.
  apply clicks_le_quiet, traces_bind;
    [apply no_click_wait_for_element_visible | intros; apply traces_ret].
Qed.

Lemma clicks_le_close_cart_drawer :
  clicks_le 1 (close_cart_drawer drv config polls).
Proof.
  apply (clicks_le_bind 0 1).
  { apply clicks_le_quiet, no_click_is_element_visible. }
  intros [|];
    [|apply (clicks_le_mono 0); [lia | apply clicks_le_quiet, traces_ret]].
  apply (clicks_le_bind 1 0); [apply clicks_le_click_element|]. intros _.
  apply clicks_le_quiet, traces_try; [|intros; apply traces_ret].
  apply traces_bind;
    [apply no_click_invisibility_wait | intros; apply traces_ret].
Qed.

Lemma clicks_le_click_quick_add_to_cart :
  clicks_le 1 (click_quick_add_to_cart drv config polls).
Proof.
  apply (clicks_le_bind 1 0); [apply clicks_le_click_element|]. intros _.
  apply clicks_le_quiet, traces_bind;
    [apply no_click_wait_for_element_visible | intros; apply traces_ret].
Qed.

Lemma clicks_le_sort_by_text sort_text :
  clicks_le 2 (sort_by_text drv config polls sort_text).
Proof.
  apply (clicks_le_bind 1 1); [apply clicks_le_click_element|]. intros _.
  apply (clicks_le_bind 0 1).
  { apply clicks_le_quiet, no_click_wait_for_element_clickable. }
  intros _. apply (clicks_le_bind 1 0); [apply clicks_le_click_element|].
  intros _. apply clicks_le_quiet, traces_bind; [|intros; apply traces_ret].
  by apply traces_wait_for_elements_present.
Qed.

(** X17.  The workflows of the product and collection pages click a
    bounded number of times, whatever the page does: [add_to_cart] and
    [close_cart_drawer] at most once, [add_to_cart_and_close_drawer],
    [proceed_to_checkout] and [sort_by_text] at most twice; the waits
    in between never click.  When they return, [add_to_cart] has clicked
    exactly once, [proceed_to_checkout] and [sort_by_text] exactly
    twice. *)
Theorem workflows_click_budget (sort_text : string) (s : S) :
  ((clicks (add_to_cart drv config polls s).2 <= 1)%nat
   /\ (clicks (close_cart_drawer drv config polls s).2 <= 1)%nat
   /\ (clicks (add_to_cart_and_close_drawer drv config polls s).2 <= 2)%nat
   /\ (clicks (proceed_to_checkout drv config polls s).2 <= 2)%nat
   /\ (clicks (sort_by_text drv config polls sort_text s).2 <= 2)%nat)
  /\ (forall s' tr,
        add_to_cart drv config polls s = (Ok tt, s', tr) ->
        clicks tr = 1%nat)
  /\ (forall s' tr,
        proceed_to_checkout drv config polls s = (Ok tt, s', tr) ->
        clicks tr = 2%nat)
  /\ (forall s' tr,
        sort_by_text drv config polls sort_text s = (Ok tt, s', tr) ->
        clicks tr = 2%nat).
Proof.
  assert (Hvis : forall l timeout,
             traces_in no_click
               (bind (wait_for_element_visible drv polls (wait_utils config)
                        l timeout) (fun _ => ret tt))).
  { intros l timeout. apply traces_bind;
      [apply no_click_wait_for_element_visible | intros; apply traces_ret]. }
  split; [|split; [|split]].
  - split; [apply clicks_le_add_to_cart|].
    split; [apply clicks_le_close_cart_drawer|].
    split; [|split; [|apply clicks_le_sort_by_text]].
    + apply (clicks_le_bind 1 1); [apply clicks_le_add_to_cart|].
      intros _. apply clicks_le_close_cart_drawer.
    + apply (clicks_le_bind 1 1); [apply clicks_le_click_quick_add_to_cart|].
      intros _. apply clicks_le_click_element.
  - intros s' tr.
    apply (clicks_ok_bind 1 0); [apply clicks_ok_click_element|].
    intros _. apply clicks_ok_quiet, Hvis.
  - intros s' tr. apply (clicks_ok_bind 1 1).
    + apply (clicks_ok_bind 1 0); [apply clicks_ok_click_element|].
      intros _. apply clicks_ok_quiet, Hvis.
    + intros _. apply clicks_ok_click_element.
  - intros s' tr.
    apply (clicks_ok_bind 1 1); [apply clicks_ok_click_element|]. intros _.
    apply (clicks_ok_bind 0 1).
    { apply clicks_ok_quiet, no_click_wait_for_element_clickable. }
    intros _. apply (clicks_ok_bind 1 0); [apply clicks_ok_click_element|].
    intros _. apply clicks_ok_quiet, traces_bind;
      [|intros; apply traces_ret].
    by apply traces_wait_for_elements_present.
Qed.

End PageObjectFacts.

(** ** The menu of the home page *)

Section HomePageFacts.

Context {S : Type}.
Variable drv : Driver S.
Variable config : Config.
Variable polls : Z -> nat.
Variable move_to_element_perform : node -> M S unit.

(** The loop started with the flag down returns only through the
    [return] that follows the click. *)
Lemma hover_to_menu_loop_ok_inv menu_name sub_menu_name menu_elements
    s s' tr :
  hover_to_menu_loop drv move_to_element_perform menu_name sub_menu_name
    false menu_elements s = (Ok tt, s', tr) ->
  exists before menu_nav after texts menu_text hovered submenu,
    menu_elements = before ++ menu_nav :: after
    /\ length texts = length before
    /\ Forall (fun t => strip t <> menu_name) texts
    /\ strip menu_text = menu_name
    /\ tr = text_reads before texts
              ++ Ev (Text menu_nav) (Ok (RStr menu_text))
              :: hovered
              ++ [Ev (ChildElement menu_nav (submenu_locator sub_menu_name))
                    (Ok (RNode submenu));
                  Ev (Click submenu) (Ok RNone)].
Proof.
  revert s tr. induction menu_elements as [|menu_nav rest IH];
    intros s tr Hrun; [discriminate|].
  simpl in Hrun. apply bind_inv in Hrun
    as [(txt & s1 & t1 & t2 & H1 & H2 & ->)|(e & _ & [=])].
  apply call_inv in H1 as [_ ->].
  destruct (String.eqb (strip txt) menu_name) eqn:Heq.
  - apply String.eqb_eq in Heq.
    apply bind_inv in H2
      as [([] & s2 & hovered & t4 & _ & H4 & ->)|(e & _ & [=])].
    apply try_except_inv in H4
      as [([] & H4 & _)|[(e & _ & _ & [=])
                        |(e & s3 & t5 & t6 & _ & _ & [=] & _)]].
    apply bind_inv in H4
      as [(submenu & s3 & t5 & t6 & H5 & H6 & ->)|(e & _ & [=])].
    apply call_inv in H5 as [_ ->]. apply call_inv in H6 as [_ ->].
    exists [], menu_nav, rest, [], txt, hovered, submenu.
    repeat split; auto.
  - apply String.eqb_neq in Heq.
    apply IH in H2
      as (before & nav & after & texts & text & hovered & submenu
          & -> & Hlen & Hall & Htext & ->).
    exists (menu_nav :: before), nav, after, (txt :: texts), text, hovered,
      submenu.
    repeat split; simpl; auto.
Qed.

(** X21.  [hover_to_menu] returns only after it clicked a submenu: the
    link found under the first menu entry, in the order of the list it
    waited for, whose text stripped of blanks is the menu name, after
    hovering over that entry.  The fall through the end of the function
    with [menu_found] set never happens. *)
Theorem hover_to_menu_returns_after_click (menu_name sub_menu_name : string)
    (s s' : S) (tr : list event) :
  hover_to_menu drv config polls move_to_element_perform menu_name
    sub_menu_name s = (Ok tt, s', tr) ->
  exists polled before menu_nav after texts menu_text hovered submenu,
    length texts = length before
    /\ Forall (fun t => strip t <> menu_name) texts
    /\ strip menu_text = menu_name
    /\ tr = polled
              ++ Ev (FindElements menu_items)
                   (Ok (RNodes (before ++ menu_nav :: after)))
              :: text_reads before texts
              ++ Ev (Text menu_nav) (Ok (RStr menu_text))
              :: hovered
              ++ [Ev (ChildElement menu_nav (submenu_locator sub_menu_name))
                    (Ok (RNode submenu));
                  Ev (Click submenu) (Ok RNone)].
Proof.
  unfold hover_to_menu. intros Hrun.
  apply bind_inv in Hrun
    as [(menu_elements & s1 & t1 & t2 & H1 & H2 & ->)|(e & _ & [=])].
  apply wait_for_elements_present_ok_inv in H1
    as (_ & _ & s0 & polled & _ & ->).
  apply hover_to_menu_loop_ok_inv in H2
    as (before & nav & after & texts & text & hovered & submenu
        & -> & Hlen & Hall & Htext & ->).
  exists polled, before, nav, after, texts, text, hovered, submenu.
  repeat split; auto. by rewrite <- app_assoc.
Qed.

End HomePageFacts.

(** ** Helpers without a browser *)

Section HelperFacts.

(** X18.  [validate_test_data] looks at the keys of the record only:
    changing every value leaves the answer as it is.  The required keys
    can be checked in two parts, and a record that passes still passes
    with more entries. *)
Theorem validation_looks_at_keys_only (test_data test_data' : gmap string json)
    (keys1 keys2 : list string) (f : json -> json) :
  validate_test_data (f <$> test_data) keys1
  = validate_test_data test_data keys1
  /\ validate_test_data test_data (keys1 ++ keys2)
     = validate_test_data test_data keys1
       && validate_test_data test_data keys2
  /\ (test_data ⊆ test_data' ->
      validate_test_data test_data keys1 = true ->
      validate_test_data test_data' keys1 = true).
Proof.
  split; [|split].
  - apply eq_true_iff_eq. rewrite !validate_test_data_true.
    split; intros Hall key Hin; specialize (Hall key Hin).
    + rewrite lookup_fmap in Hall. by apply fmap_is_Some in Hall.
    + rewrite lookup_fmap. by apply fmap_is_Some.
  - apply eq_true_iff_eq.
    rewrite andb_true_iff, !validate_test_data_true. split.
    + intros Hall. split; intros key Hin; apply Hall, elem_of_app; auto.
    + intros [H1 H2] key [Hin|Hin]%elem_of_app; auto.
  - intros Hsub. rewrite !validate_test_data_true. intros Hall key Hin.
    destruct (Hall key Hin) as [v Hv].
    exists v. by apply (lookup_weaken _ _ _ _ Hv).
Qed.

Lemma prefix_nil (s : string) : String.prefix EmptyString s = true.
Proof. by destruct s. Qed.

Lemma append_cons (c : ascii) (s t : string) :
  String c s +:+ t = String c (s +:+ t).
Proof. reflexivity. Qed.

Lemma py_in_char_nil (c : ascii) :
  py_in (String c EmptyString) EmptyString = false.
Proof. reflexivity. Qed.

Lemma py_in_char_cons (c x : ascii) (s : string) :
  py_in (String c EmptyString) (String x s)
  = bool_decide (c = x) || py_in (String c EmptyString) s.
Proof.
  simpl. destruct (ascii_dec c x) as [->|Hne].
  - by rewrite prefix_nil, bool_decide_true.
  - by rewrite bool_decide_false.
Qed.

Lemma py_in_char_app (c : ascii) (s1 s2 : string) :
  py_in (String c EmptyString) (s1 +:+ s2)
  = py_in (String c EmptyString) s1 || py_in (String c EmptyString) s2.
Proof.
  induction s1 as [|x s1 IH]; [reflexivity|].
  by rewrite append_cons, !py_in_char_cons, IH, orb_assoc.
Qed.

Lemma replace_char_cons (c0 x : ascii) (s : string) :
  replace_from (String c0 EmptyString) "_" 0 (String x s)
  = String (if bool_decide (c0 = x) then "_"%char else x)
      (replace_from (String c0 EmptyString) "_" 0 s).
Proof.
  simpl. destruct (ascii_dec c0 x) as [->|Hne].
  - by rewrite prefix_nil, bool_decide_true.
  - by rewrite bool_decide_false.
Qed.

(** Replacing a character removes it and brings in nothing but the
    underscore. *)
Lemma py_in_char_replace (c c0 : ascii) (s : string) :
  c <> "_"%char ->
  py_in (String c EmptyString)
    (replace_from (String c0 EmptyString) "_" 0 s)
  = if bool_decide (c = c0) then false else py_in (String c EmptyString) s.
Proof.
  intros Hc. induction s as [|x s IH].
  - simpl. by case_bool_decide.
  - rewrite replace_char_cons, !py_in_char_cons, IH.
    repeat case_bool_decide; subst; simpl; congruence.
Qed.

Lemma prefix_colon_cons (x : ascii) (s : string) :
  String.prefix ":" (String x s) = bool_decide (x = ":"%char).
Proof.
  change (String.prefix ":" (String x s))
    with (match ascii_dec ":" x with
          | left _ => String.prefix EmptyString s
          | right _ => false
          end).
  destruct (ascii_dec ":" x) as [<-|Hne].
  - by rewrite prefix_nil, bool_decide_true.
  - rewrite bool_decide_false; [reflexivity | congruence].
Qed.

Lemma prefix_colons_cons (x : ascii) (s : string) :
  String.prefix "::" (String x s)
  = bool_decide (x = ":"%char) && String.prefix ":" s.
Proof.
  change (String.prefix "::" (String x s))
    with (match ascii_dec ":" x with
          | left _ => String.prefix ":" s
          | right _ => false
          end).
  destruct (ascii_dec ":" x) as [<-|Hne].
  - by rewrite bool_decide_true.
  - rewrite bool_decide_false; [reflexivity | congruence].
Qed.

Lemma py_in_colons_cons (x : ascii) (s : string) :
  py_in "::" (String x s)
  = bool_decide (x = ":"%char) && String.prefix ":" s || py_in "::" s.
Proof.
  change (py_in "::" (String x s))
    with (String.prefix "::" (String x s) || py_in "::" s).
  by rewrite prefix_colons_cons.
Qed.

Lemma replace_colons_cons (x : ascii) (s : string) :
  replace_from "::" "_" 0 (String x s)
  = if bool_decide (x = ":"%char) && String.prefix ":" s
    then String "_" (replace_from "::" "_" 1 s)
    else String x (replace_from "::" "_" 0 s).
Proof.
  change (replace_from "::" "_" 0 (String x s))
    with (if String.prefix "::" (String x s)
          then "_" +:+ replace_from "::" "_" 1 s
          else String x (replace_from "::" "_" 0 s)).
  by rewrite prefix_colons_cons.
Qed.

(** No pair of colons is left by the first replacement, and its result
    starts with a colon only if its argument does. *)
Lemma replace_colons_clean (n : nat) (s : string) :
  (String.length s <= n)%nat ->
  py_in "::" (replace_from "::" "_" 0 s) = false
  /\ (String.prefix ":" (replace_from "::" "_" 0 s) = true ->
      String.prefix ":" s = true).
Proof.
  revert s. induction n as [|n IH]; intros [|x s] Hlen; simpl in Hlen;
    try lia; try (split; [reflexivity | done]).
  rewrite replace_colons_cons.
  destruct (bool_decide (x = ":"%char) && String.prefix ":" s) eqn:Hpre.
  - destruct s as [|y s]; [by rewrite andb_false_r in Hpre|].
    change (replace_from "::" "_" 1 (String y s))
      with (replace_from "::" "_" 0 s).
    simpl in Hlen. destruct (IH s ltac:(lia)) as [Hin _].
    rewrite py_in_colons_cons, prefix_colon_cons, Hin.
    by rewrite bool_decide_false.
  - destruct (IH s ltac:(lia)) as [Hin Hstart].
    rewrite py_in_colons_cons, !prefix_colon_cons, Hin. split.
    + rewrite orb_false_r. apply andb_false_iff.
      apply andb_false_iff in Hpre as [Hx|Hs]; [by left|]. right.
      destruct (String.prefix ":" (replace_from "::" "_" 0 s)) eqn:Hr;
        [|reflexivity].
      rewrite Hstart in Hs; done.
    + done.
Qed.

Lemma replace_char_prefix_colon (c0 : ascii) (s : string) :
  c0 <> ":"%char ->
  String.prefix ":" (replace_from (String c0 EmptyString) "_" 0 s)
  = String.prefix ":" s.
Proof.
  intros Hc. destruct s as [|x s]; [reflexivity|].
  rewrite replace_char_cons, !prefix_colon_cons.
  repeat case_bool_decide; subst; done.
Qed.

Lemma replace_char_keeps_clean (c0 : ascii) (s : string) :
  c0 <> ":"%char ->
  py_in "::" s = false ->
  py_in "::" (replace_from (String c0 EmptyString) "_" 0 s) = false.
Proof.
  intros Hc. induction s as [|x s IH]; [done|].
  rewrite replace_char_cons, !py_in_colons_cons,
    replace_char_prefix_colon by done.
  intros [Hpre Hin]%orb_false_iff. rewrite (IH Hin), orb_false_r.
  destruct (decide (c0 = x)) as [<-|Hx].
  - rewrite (bool_decide_true (c0 = c0)) by done.
    rewrite bool_decide_false; done.
  - by rewrite (bool_decide_false (c0 = x)).
Qed.

(** X19.  The file name that [get_screenshot_path] joins to the
    screenshots directory is a single path component: it holds no slash
    and no backslash, whatever the test name, for a timestamp that holds
    none; and the test name in it holds no [::] any more. *)
Theorem screenshot_name_is_one_component
    (screenshots_path test_name timestamp : string) :
  py_in "/" timestamp = false ->
  py_in (String "092"%char EmptyString) timestamp = false ->
  let filename :=
    (get_screenshot_path screenshots_path test_name timestamp).2 in
  py_in "/" filename = false
  /\ py_in (String "092"%char EmptyString) filename = false
  /\ py_in "::" (safe_test_name test_name) = false.
Proof.
  intros Hslash Hback. cbv zeta.
  unfold get_screenshot_path, screenshot_filename, safe_test_name,
    py_replace.
  cbv beta iota delta [snd].
  split; [|split].
  - rewrite !py_in_char_app, Hslash.
    rewrite py_in_char_replace by done.
    rewrite bool_decide_false by done.
    rewrite py_in_char_replace by done.
    by rewrite bool_decide_true.
  - rewrite !py_in_char_app, Hback.
    rewrite py_in_char_replace by done.
    by rewrite bool_decide_true.
  - apply replace_char_keeps_clean; [done|].
    apply replace_char_keeps_clean; [done|].
    by apply (replace_colons_clean (String.length test_name)).
Qed.

Lemma truthy_string_ne (s : string) :
  truthy_string s = true -> s <> EmptyString.
Proof. by destruct s. Qed.

Lemma py_in_char_lstrip (c : ascii) (s : string) :
  py_in (String c EmptyString) s = false ->
  py_in (String c EmptyString) (lstrip s) = false.
Proof.
  induction s as [|x s IH]; [done|]. simpl lstrip.
  destruct (is_space x); [|done].
  rewrite py_in_char_cons. intros [_ Hin]%orb_false_iff. auto.
Qed.

Lemma py_in_char_rstrip (c : ascii) (s : string) :
  py_in (String c EmptyString) s = false ->
  py_in (String c EmptyString) (rstrip s) = false.
Proof.
  induction s as [|x s IH]; [done|].
  rewrite py_in_char_cons. intros [Hx Hin]%orb_false_iff.
  specialize (IH Hin). simpl rstrip.
  destruct (rstrip s) as [|y t].
  - destruct (is_space x); [done|]. by rewrite py_in_char_cons, Hx.
  - by rewrite py_in_char_cons, Hx, IH.
Qed.

Lemma split_on_pieces (sep : ascii) (s : string) :
  Forall (fun piece => py_in (String sep EmptyString) piece = false)
    (split_on sep s).
Proof.
  induction s as [|x s IH]; [by repeat constructor|]. simpl.
  destruct (Ascii.eqb_spec x sep) as [->|Hne].
  - by constructor.
  - assert (Hx : bool_decide (sep = x) = false)
      by (rewrite bool_decide_false; congruence).
    destruct (split_on sep s) as [|piece pieces].
    + repeat constructor. by rewrite py_in_char_cons, Hx.
    + apply Forall_cons in IH as [Hp Hps].
      constructor; [|assumption]. by rewrite py_in_char_cons, Hx, Hp.
Qed.

Lemma configured_arguments_clean (options_str : string) :
  Forall (fun a => a <> EmptyString /\ strip a = a /\ py_in "," a = false)
    (configured_arguments options_str).
Proof.
  unfold configured_arguments.
  destruct (truthy_string options_str); [|constructor].
  pose proof (split_on_pieces ","%char options_str) as Hpieces.
  induction Hpieces as [|piece pieces Hp _ IH]; [constructor|].
  simpl. destruct (truthy_string (strip piece)) eqn:Ht; [|assumption].
  constructor; [|assumption].
  split; [by apply truthy_string_ne|]. split; [apply strip_idem|].
  by apply py_in_char_rstrip, py_in_char_lstrip.
Qed.

(** X20.  Every argument handed to Chrome or to Firefox is a non-empty
    string without blanks around it and without a comma: the configured
    options are split at the commas and stripped, and the pieces that
    are blank are dropped. *)
Theorem browser_arguments_are_clean (options_str : string) (headless : bool) :
  Forall (fun a => a <> EmptyString /\ strip a = a /\ py_in "," a = false)
    (chrome_arguments options_str headless)
  /\ Forall (fun a => a <> EmptyString /\ strip a = a /\ py_in "," a = false)
       (firefox_arguments options_str headless).
Proof.
  unfold chrome_arguments, firefox_arguments.
  rewrite !Forall_app.
  repeat split; try apply configured_arguments_clean;
    destruct headless; repeat constructor; done.
Qed.

End HelperFacts.
(** ** Runs on concrete pages *)

(** C5, on the code.  With [min_count = 2] on a grid that shows one tile
    at the first poll and two from the second poll on,
    [wait_for_elements_present] raises [TimeoutException] after a single
    poll: the wait ends as soon as the list is not empty, and the count
    is checked once, after it.  The poll that would come next finds both
    tiles. *)
Theorem wait_for_elements_present_gives_up_after_first_poll :
  let drv := page_driver growing_grid in
  let self := wait_utils shipped_config in
  wait_for_elements_present drv two_per_second self product_grid_items
    (Some 5) 2 []
  = (Raise TimeoutException, [FindElements product_grid_items],
     [Ev (FindElements product_grid_items) (Ok (RNodes [1%nat]))])
  /\ find_elements drv product_grid_items [FindElements product_grid_items]
     = (Ok [1%nat; 2%nat],
        [FindElements product_grid_items; FindElements product_grid_items])
  /\ two_per_second 5 = 10%nat.
Proof. vm_compute. repeat split. Qed.

(** A tile before the returned one may have the title looked for: the
    first tile of [stale_first_tile] has it, goes stale when scrolled
    into view, and the second tile is returned. *)
Lemma later_duplicate_is_returned :
  let grid := Ev (FindElements product_grid_items) (Ok (RNodes [1; 2]%nat)) in
  find_product_by_name (page_driver stale_first_tile) shipped_config
    two_per_second "Lace Bra" []
  = (Ok 2%nat,
     [FindElement product_title; ScrollIntoView 2%nat; Text 12%nat;
      ChildElement 2%nat product_title; ScrollIntoView 1%nat; Text 11%nat;
      ChildElement 1%nat product_title; FindElements product_grid_items;
      ScrollHeight],
     [Ev ScrollHeight (Ok (RInt 3000)); grid;
      Ev (ChildElement 1%nat product_title) (Ok (RNode 11%nat));
      Ev (Text 11%nat) (Ok (RStr "Lace Bra"));
      Ev (ScrollIntoView 1%nat) (Raise StaleElementReferenceException);
      Ev (ChildElement 2%nat product_title) (Ok (RNode 12%nat));
      Ev (Text 12%nat) (Ok (RStr "Lace Bra"));
      Ev (ScrollIntoView 2%nat) (Ok RNone);
      Ev (FindElement product_title) (Ok (RNode 1%nat))])
  /\ strip "Lace Bra" = "Lace Bra".
Proof. vm_compute. split; reflexivity. Qed.

Lemma returned_tile_witness :
  let drv := page_driver shop_page in
  exists s' tr,
    find_product_by_name drv shipped_config two_per_second "Lace Bra" []
    = (Ok 2%nat, s', tr)
    /\ (accepted_in drv "Lace Bra"
          (check_product drv shipped_config two_per_second "Lace Bra")
          2%nat s' tr
        \/ accepted_in drv "Lace Bra" (check_product_final drv "Lace Bra")
             2%nat s' tr).
Proof.
  intros drv. eexists _, _. split.
  - vm_compute. reflexivity.
  - apply (returned_tile_is_first_accepted drv shipped_config two_per_second
             "Lace Bra" []).
    vm_compute. reflexivity.
Defined.

(** On a very long page without the product the loop runs its hundred
    iterations and the final pass follows. *)
Example cap_is_reached :
  let run := find_product_by_name (page_driver endless_page) shipped_config
               two_per_second "Lace Bra" [] in
  run.1.1 = Raise NoSuchElementException
  /\ scroll_steps run.2 = 101%nat
  /\ last_scroll run.1.2 = 0
  /\ In (ScrollTo 40000) run.1.2.
Proof. vm_compute. repeat split. tauto. Qed.

(** The bottom is looked for only in iterations that found tiles.  On
    [late_grid], 600 pixels high, the first query is empty: the loop
    scrolls to 400, where the page would report an offset of 400, within
    500 pixels of the height; no measurement is made, the loop queries
    again and scrolls to 800 before it measures and stops. *)
Lemma scanning_goes_on_near_bottom :
  let drv := page_driver late_grid in
  let run := find_product_by_name drv shipped_config two_per_second
               "Lace Bra" [] in
  exists post,
    run.2 = [Ev ScrollHeight (Ok (RInt 600));
             Ev (FindElements product_grid_items) (Ok (RNodes []));
             Ev (ScrollTo 400) (Ok RNone);
             Ev (FindElement product_grid_items) (Ok (RNode 1%nat));
             Ev (FindElements product_grid_items) (Ok (RNodes [1%nat]))]
              ++ post
    /\ (page_y_offset drv
          [ScrollTo 400; FindElements product_grid_items; ScrollHeight]).1
       = Ok 400
    /\ 400 + 500 >= 600
    /\ scroll_targets run.2 = [400; 800; 0].
Proof.
  intros drv run. eexists. split; [vm_compute; reflexivity|].
  split; [reflexivity|]. split; [lia|]. vm_compute. reflexivity.
Qed.

(** The final pass can end otherwise than the claim says: on
    [vanishing_grid] the wait at the top times out and the function
    raises [TimeoutException]; on [stale_only_tile] the only tile of the
    final query has the title looked for and the function raises
    [NoSuchElementException]. *)
Lemma final_pass_counterexample :
  let grid := Ev (FindElements product_grid_items) (Ok (RNodes [1%nat])) in
  (find_product_by_name (page_driver vanishing_grid) shipped_config
     two_per_second "Lace Bra" []).1.1
  = Raise TimeoutException
  /\ (find_product_by_name (page_driver stale_only_tile) shipped_config
        two_per_second "Lace Bra" []).1.1
     = Raise NoSuchElementException
  /\ (find_product_by_name (page_driver stale_only_tile) shipped_config
        two_per_second "Lace Bra" []).2
     = [Ev ScrollHeight (Ok (RInt 600)); grid;
        Ev (ChildElement 1%nat product_title) (Ok (RNode 11%nat));
        Ev (Text 11%nat) (Ok (RStr "Lace Bra"));
        Ev (ScrollIntoView 1%nat) (Raise StaleElementReferenceException);
        Ev (ScrollTo 400) (Ok RNone); grid;
        Ev ScrollHeight (Ok (RInt 600)); Ev PageYOffset (Ok (RInt 400));
        Ev (ScrollTo 0) (Ok RNone); grid; grid;
        Ev (ChildElement 1%nat product_title) (Ok (RNode 11%nat));
        Ev (Text 11%nat) (Ok (RStr "Lace Bra"));
        Ev (ScrollIntoView 1%nat) (Raise StaleElementReferenceException)].
Proof. vm_compute. repeat split. Qed.

Lemma final_pass_witness :
  let drv := page_driver robe_only in
  exists h s1 s2 scan s3 w s4 tw products s5,
    scroll_height drv [] = (Ok h, s1)
    /\ scan_loop drv shipped_config two_per_second "Lace Bra" max_scrolls 0
         h s1 = (Ok None, s2, scan)
    /\ scroll_to drv 0 s2 = (Ok tt, s3)
    /\ wait_for_elements_present drv two_per_second
         (wait_utils shipped_config) product_grid_items
         (Some (short_timeout shipped_config)) 1 s3 = (Ok w, s4, tw)
    /\ find_elements drv product_grid_items s4 = (Ok products, s5)
    /\ final_pass_outcome drv shipped_config two_per_second "Lace Bra" []
         h scan tw products s5.
Proof.
  intros drv.
  assert (H1 : scroll_height drv [] = (Ok 600, [ScrollHeight]))
    by reflexivity.
  destruct (scan_loop drv shipped_config two_per_second "Lace Bra"
              max_scrolls 0 600 [ScrollHeight]) as [[r2 s2] scan] eqn:H2.
  vm_compute in H2. injection H2 as <- <- <-.
  eexists _, _, _, _, _, _, _, _, _, _.
  split; [exact H1|].
  split; [vm_compute; reflexivity|].
  split; [vm_compute; reflexivity|].
  split; [vm_compute; reflexivity|].
  split; [vm_compute; reflexivity|].
  eapply (final_pass_after_exhaustion drv shipped_config two_per_second
            "Lace Bra" []); vm_compute; reflexivity.
Defined.


(** A record without ["passWord"] stops the scenario before any driver
    call, whatever the later steps are. *)
Lemma validation_gate_witness :
  let drv := page_driver shop_page in
  let test_data := to_dict record_without_password in
  (exists key, key ∈ TEST_DATA_KEYS /\ test_data !! key = None)
  /\ test_bluebella_e2e_shopping_flow drv shipped_config two_per_second
       (fun _ _ => ret tt) test_data []
     = (Raise AssertionError, [], []).
Proof.
  intros drv test_data.
  assert (Hmissing : exists key,
             key ∈ TEST_DATA_KEYS /\ test_data !! key = None).
  { exists "passWord". split; [|vm_compute; reflexivity].
    unfold TEST_DATA_KEYS. apply list_elem_of_In. simpl. tauto. }
  split; [exact Hmissing|].
  by apply (validation_gates_the_scenario drv shipped_config two_per_second
              (fun _ _ => ret tt) test_data TEST_DATA_KEYS []).
Defined.

(** The existence checks pass on what is not a timeout: with a driver
    that answers every request with [WebDriverException], both checks and
    [select_size_if_available] raise it. *)
Lemma existence_checks_can_raise :
  let drv := broken_driver WebDriverException in
  let self := wait_utils shipped_config in
  (is_element_visible drv two_per_second self (size_locator "38") 3 []).1.1
  = Raise WebDriverException
  /\ (is_element_present drv two_per_second self (size_locator "38") 3
        []).1.1
     = Raise WebDriverException
  /\ (select_size_if_available drv shipped_config two_per_second "38"
        []).1.1
     = Raise WebDriverException.
Proof. vm_compute. repeat split. Qed.

(** A data file whose top level is the list of records is not
    accepted: [load_test_data] raises [AttributeError]. *)
Lemma load_test_data_rejects_top_level_list :
  let records := JList [JDict sample_record] in
  load_test_data (only_file (Parsed records)) shipped_config None
  = Raise AttributeError
  /\ load_test_data (only_file (Parsed records)) shipped_config None
     <> Ok records.
Proof. split; [reflexivity | discriminate]. Qed.

Lemma load_test_data_witness :
  let records := JList [JDict sample_record] in
  let fs := only_file (Parsed (JDict [("data", records)])) in
  fs (default (test_data_path shipped_config) None)
  = Some (Parsed (JDict [("data", records)]))
  /\ load_test_data fs shipped_config None = Ok records.
Proof.
  intros records fs. split; [reflexivity|].
  destruct (load_test_data_reads_data_member fs shipped_config None
              [("data", records)] eq_refl) as (_ & Hrecords & _).
  apply Hrecords.
  - apply NoDup_singleton.
  - apply list_elem_of_singleton. reflexivity.
Defined.

(** A ["data"] member without a length - [null], a number, a boolean -
    makes the log message of [load_test_data] raise [TypeError]; a
    string or an object is returned as it is. *)
Example load_test_data_needs_a_length :
  let load member :=
    load_test_data (only_file (Parsed (JDict [("data", member)])))
      shipped_config None in
  load JNull = Raise TypeError
  /\ load (JInt 3) = Raise TypeError
  /\ load (JBool true) = Raise TypeError
  /\ load (JStr "records") = Ok (JStr "records")
  /\ load (JDict sample_record) = Ok (JDict sample_record).
Proof. vm_compute. repeat split. Qed.

(** On the account page the user counts as signed in and is sent back;
    elsewhere the only driver call is the read of the URL. *)
Example navigate_back_examples :
  let account := {| tiles h := []; title n := Ok ""; into_view n := Ok tt;
                    height := 600;
                    url := "https://www.bluebella.com/account/login" |} in
  (is_signed_in (page_driver account) []).1.1 = Ok true
  /\ (navigate_back_to_homepage (page_driver account) two_per_second
        "https://www.bluebella.com" []).2
     = [Ev CurrentUrl (Ok (RStr "https://www.bluebella.com/account/login"));
        Ev (Get "https://www.bluebella.com") (Ok RNone);
        Ev ReadyState (Ok (RStr "complete"))]
  /\ (is_signed_in (page_driver shop_page) []).1.1 = Ok false
  /\ (navigate_back_to_homepage (page_driver shop_page) two_per_second
        "https://www.bluebella.com" []).2
     = [Ev CurrentUrl
          (Ok (RStr "https://www.bluebella.com/collections/bras"))].
Proof. vm_compute. repeat split. Qed.

(** ** Runs of the waits and of the page objects *)

(** On [shop_page] the wait for two tiles returns the three of the
    first poll. *)
Lemma wait_for_elements_present_returns_enough_witness :
  let drv := page_driver shop_page in
  let run := wait_for_elements_present drv two_per_second
               (wait_utils shipped_config) product_grid_items None 2 [] in
  run.1.1 = Ok [1; 2; 3]%nat
  /\ (2 <= length [1; 2; 3]%nat)%nat
  /\ exists pre,
       run.2 = pre ++ [Ev (FindElements product_grid_items)
                         (Ok (RNodes [1; 2; 3]%nat))].
Proof.
  intros drv run. split; [vm_compute; reflexivity|].
  destruct (wait_for_elements_present_returns_enough drv two_per_second
              (wait_utils shipped_config) product_grid_items None 2 []
              [1; 2; 3]%nat run.1.2 run.2)
    as (_ & Hlen & s0 & pre & _ & Htr).
  { vm_compute. reflexivity. }
  split; [exact Hlen|]. exists pre. exact Htr.
Defined.

Lemma waits_return_at_first_poll_witness :
  let drv := page_driver shop_page in
  wait_for_element_present drv two_per_second (wait_utils shipped_config)
    product_grid_items (Some 0) []
  = (Ok 1%nat, [FindElement product_grid_items],
     [Ev (FindElement product_grid_items) (Ok (RNode 1%nat))]).
Proof.
  intros drv.
  destruct (waits_return_at_first_poll drv two_per_second
              (wait_utils shipped_config) product_grid_items (Some 0) 1 []
              [FindElement product_grid_items]) as (Hpresent & _ & _).
  apply Hpresent. reflexivity.
Defined.

(** When the URL can be read only once, the wait for the URL returns
    and the read made for the log message raises. *)
Lemma waits_never_report_missing_elements_witness :
  let run := wait_for_url_contains url_read_once two_per_second
               (wait_utils shipped_config) "account" None [] in
  run.1.1 = Raise NoSuchElementException
  /\ exists pre,
       run.2 = pre ++ [Ev CurrentUrl (Raise NoSuchElementException)].
Proof.
  intros run. split; [vm_compute; reflexivity|].
  destruct (waits_never_report_missing_elements url_read_once
              two_per_second (wait_utils shipped_config)
              product_grid_items "account" None 1 [])
    as (_ & _ & _ & _ & _ & _ & _ & Hurl).
  destruct (Hurl run.1.2 run.2) as (s0 & pre & _ & _ & Htr).
  { vm_compute. reflexivity. }
  exists pre. exact Htr.
Defined.

Lemma safe_find_element_agrees_with_is_element_present_witness :
  let drv := page_driver shop_page in
  2 <> 0
  /\ (safe_find_element drv two_per_second product_grid_items 2 []).1.1
     = Ok (Some 1%nat)
  /\ (is_element_present drv two_per_second (wait_utils shipped_config)
        product_grid_items 2 []).1.1
     = Ok true.
Proof.
  intros drv.
  assert (Hne : 2 <> 0) by lia.
  destruct (safe_find_element_agrees_with_is_element_present drv
              two_per_second (wait_utils shipped_config) product_grid_items
              2 [] Hne) as (Hsame & _ & _).
  split; [exact Hne|]. split; [vm_compute; reflexivity|].
  rewrite Hsame. vm_compute. reflexivity.
Defined.

Lemma click_element_clicks_what_it_checked_witness :
  let drv := page_driver shop_page in
  let run := click_element drv shipped_config two_per_second
               product_grid_items None [] in
  run.1.1 = Ok tt
  /\ exists n, ends_with_click product_grid_items n (Ok RNone) run.2.
Proof.
  intros drv run. split; [vm_compute; reflexivity|].
  destruct (click_element_clicks_what_it_checked drv shipped_config
              two_per_second product_grid_items None [] (Ok tt) run.1.2
              run.2) as [[Hne _]|Hends].
  - vm_compute. reflexivity.
  - done.
  - exact Hends.
Defined.

Lemma optional_actions_true_after_click_witness :
  let drv := page_driver shop_page in
  let run := select_size_if_available drv shipped_config two_per_second
               "M" [] in
  run.1.1 = Ok true
  /\ exists n, ends_with_click (size_locator "M") n (Ok RNone) run.2.
Proof.
  intros drv run. split; [vm_compute; reflexivity|].
  destruct (optional_actions_true_after_click drv shipped_config
              two_per_second "M" [] run.1.2 run.2) as (Hsize & _).
  apply Hsize. vm_compute. reflexivity.
Defined.

(** A name given with a blank at its end is not found on [shop_page],
    whose third tile has that name without the blank. *)
Lemma unstripped_name_is_never_found_witness :
  let drv := page_driver shop_page in
  strip "Lace Bra " = "Lace Bra"
  /\ (find_product_by_name drv shipped_config two_per_second "Lace Bra " []
     ).1.1 <> Ok 3%nat.
Proof.
  intros drv. split; [vm_compute; reflexivity|].
  apply (unstripped_name_is_never_found drv shipped_config two_per_second
           "Lace Bra " [] 3%nat).
  vm_compute. discriminate.
Defined.

Lemma first_batch_match_needs_no_scroll_witness :
  let drv := page_driver shop_page in
  exists s' tr,
    find_product_by_name drv shipped_config two_per_second "Lace Bra" []
    = (Ok 2%nat, s', tr)
    /\ scroll_targets tr = [].
Proof.
  intros drv. eexists _, _. split.
  - eapply (first_batch_match_needs_no_scroll drv shipped_config
              two_per_second "Lace Bra" [] 3000 _ _ _ _ [1%nat] [3%nat]
              2%nat).
    + reflexivity.
    + reflexivity.
    + eapply (all_skipped_cons _ _ _ 1%nat []); [|apply all_skipped_nil].
      left. exists "Silk Robe". split; [done|]. vm_compute. reflexivity.
    + vm_compute. reflexivity.
  - vm_compute. reflexivity.
Defined.

Lemma empty_grid_times_out_witness :
  let drv := page_driver empty_page in
  let run := find_product_by_name drv shipped_config two_per_second
               "Lace Bra" [] in
  run.1.1 = Raise TimeoutException /\ scroll_targets run.2 = [400].
Proof.
  intros drv run.
  eapply (empty_grid_times_out drv shipped_config two_per_second "Lace Bra"
            [] 600).
  - intros s0. eexists. reflexivity.
  - reflexivity.
  - reflexivity.
  - reflexivity.
Defined.

Lemma find_and_click_product_outcomes_witness :
  let drv := page_driver shop_page in
  let run := find_and_click_product drv shipped_config two_per_second
               "Lace Bra" [] in
  run.1.1 = Ok tt /\ clicked_anchor run.2.
Proof.
  intros drv run. split; [vm_compute; reflexivity|].
  apply (find_and_click_product_outcomes drv shipped_config two_per_second
           "Lace Bra" [] (Ok tt) run.1.2 run.2).
  vm_compute. reflexivity.
Defined.

Lemma select_postal_code_option_is_soft_witness :
  let drv := page_driver shop_page in
  let run := select_postal_code_option drv shipped_config two_per_second
               "Lace" [] in
  run.1.1 = Ok true
  /\ (clicks run.2 <= 1)%nat
  /\ exists pre o text,
       py_in "Lace" text = true
       /\ run.2 = pre ++ [Ev (Text o) (Ok (RStr text));
                          Ev (Click o) (Ok RNone)].
Proof.
  intros drv run. split; [vm_compute; reflexivity|].
  destruct (select_postal_code_option_is_soft drv shipped_config
              two_per_second "Lace" []) as (_ & Hclicks & Htrue).
  split; [exact Hclicks|].
  destruct (Htrue run.1.2 run.2)
    as (polled & before & o & after & texts & text & Htr & _ & _ & Hin).
  { vm_compute. reflexivity. }
  exists (polled
            ++ Ev (FindElements postal_code_options)
                 (Ok (RNodes (before ++ o :: after)))
            :: text_reads before texts), o, text.
  split; [exact Hin|]. rewrite Htr, <- app_assoc. reflexivity.
Defined.

Lemma complete_the_look_empty_case_is_dead_witness :
  let drv := page_driver shop_page in
  let run := click_last_complete_the_look_item drv shipped_config
               two_per_second AttributeError [] in
  run.1.1 = Ok tt
  /\ run = click_last_complete_the_look_item drv shipped_config
             two_per_second AssertionError []
  /\ exists pre add_button,
       run.2 = pre ++ [Ev (Click add_button) (Ok RNone)].
Proof.
  intros drv run. split; [vm_compute; reflexivity|].
  destruct (complete_the_look_empty_case_is_dead drv shipped_config
              two_per_second AttributeError []) as (Hsame & Hok).
  split; [apply Hsame|].
  destruct (Hok run.1.2 run.2)
    as (pre & items & last_item & add_button & polled & n & _ & Htr).
  { vm_compute. reflexivity. }
  eexists _, add_button. rewrite Htr, !app_assoc.
  change [Ev (FindElement product_card_button) (Ok (RNode n));
          Ev (IsDisplayed n) (Ok (RBool true));
          Ev (IsEnabled n) (Ok (RBool true));
          Ev (Click add_button) (Ok RNone)]
    with ([Ev (FindElement product_card_button) (Ok (RNode n));
           Ev (IsDisplayed n) (Ok (RBool true));
           Ev (IsEnabled n) (Ok (RBool true))]
            ++ [Ev (Click add_button) (Ok RNone)]).
  rewrite app_assoc. reflexivity.
Defined.

Lemma workflows_click_budget_witness :
  let drv := page_driver shop_page in
  let run := sort_by_text drv shipped_config two_per_second "Newest" [] in
  run.1.1 = Ok tt /\ clicks run.2 = 2%nat.
Proof.
  intros drv run. split; [vm_compute; reflexivity|].
  destruct (workflows_click_budget drv shipped_config two_per_second
              "Newest" []) as (_ & _ & _ & Hsort).
  apply (Hsort run.1.2). vm_compute. reflexivity.
Defined.

(** A record without its password passes for two keys, and still does
    once the password is put in. *)
Lemma validation_looks_at_keys_only_witness :
  let test_data := to_dict record_without_password in
  validate_test_data test_data ["userEmail"; "menuName"] = true
  /\ validate_test_data (<["passWord" := JStr "x"]> test_data)
       ["userEmail"; "menuName"] = true.
Proof.
  intros test_data.
  assert (Hv : validate_test_data test_data ["userEmail"; "menuName"] = true)
    by (vm_compute; reflexivity).
  split; [exact Hv|].
  destruct (validation_looks_at_keys_only test_data
              (<["passWord" := JStr "x"]> test_data)
              ["userEmail"; "menuName"] [] (fun j => j))
    as (_ & _ & Hmore).
  apply Hmore; [|exact Hv].
  apply insert_subseteq. vm_compute. reflexivity.
Defined.

Lemma screenshot_name_is_one_component_witness :
  let path := get_screenshot_path "screenshots"
                "tests/test_bluebella.py::test_e2e" "20250101_120000" in
  path.2 = "tests_test_bluebella.py_test_e2e_20250101_120000.png"
  /\ py_in "/" path.2 = false.
Proof.
  intros path. split; [vm_compute; reflexivity|].
  destruct (screenshot_name_is_one_component "screenshots"
              "tests/test_bluebella.py::test_e2e" "20250101_120000")
    as (Hslash & _ & _); [reflexivity | reflexivity | exact Hslash].
Defined.

Lemma hover_to_menu_returns_after_click_witness :
  let drv := page_driver shop_page in
  let run := hover_to_menu drv shipped_config two_per_second
               (fun _ => ret tt) "Lace Bra" "Bras" [] in
  run.1.1 = Ok tt
  /\ exists pre menu_nav submenu,
       run.2 = pre ++ [Ev (ChildElement menu_nav (submenu_locator "Bras"))
                         (Ok (RNode submenu));
                       Ev (Click submenu) (Ok RNone)].
Proof.
  intros drv run. split; [vm_compute; reflexivity|].
  destruct (hover_to_menu_returns_after_click drv shipped_config
              two_per_second (fun _ => ret tt) "Lace Bra" "Bras" []
              run.1.2 run.2)
    as (polled & before & menu_nav & after & texts & menu_text & hovered
        & submenu & _ & _ & _ & Htr).
  { vm_compute. reflexivity. }
  exists (polled
            ++ Ev (FindElements menu_items)
                 (Ok (RNodes (before ++ menu_nav :: after)))
            :: text_reads before texts
            ++ Ev (Text menu_nav) (Ok (RStr menu_text)) :: hovered),
    menu_nav, submenu.
  rewrite Htr. repeat (rewrite <- app_assoc || simpl). reflexivity.
Defined.
